(** * Accounts slice and ERC-20 helpers of the wallet extension

    A shallow embedding of
    - the [account] Redux slice (identity assignment from the shared pool of
      default names, the reducers [loadAccount], [deleteAccount],
      [updateAccountBalance], [updateAccountName], [updateENSAvatar]),
    - the ERC-20 helpers [parseERC20Tx], [parseLogsForERC20Transfers] and
      [getBalances],
    - the keyrings slice, the grouping of accounts into wallets in the
      account switcher, and two render hooks,
    followed by the properties established about them. *)

From Stdlib Require Import String Ascii List ZArith Lia Bool Arith Permutation.
Import ListNotations.

Local Open Scope string_scope.

(** ** JavaScript runtime notions used by the slice *)

(** The exceptions the modelled code can raise. *)
Inductive JSError : Type :=
| SyntaxError   (* BigInt(s) on a string that is no integer literal *)
| RangeError    (* BigInt(NaN) *)
| TypeError     (* property access on undefined *)
| LibraryError. (* an exception raised inside the ABI library *)

(** Plain objects used as string-keyed maps, with the keys the slice files
    its data under as ordinary own properties: normalized addresses for the
    accounts, asset symbols for the balances of a record.  Own keys are
    enumerated in insertion order, which is what [Object.keys] and
    [Object.values] do for keys that are no canonical array indices (account
    keys start with 0x).  Two kinds of names are not ordinary on a plain
    object, [__proto__] and the names of the members of [Object.prototype];
    the accumulators of the two [reduce]s below, which start from [{}] and
    are keyed by free-form strings, say what happens with them. *)
Module JSObj.

Definition t (V : Type) : Type := list (string * V).

Section Operations.
Context {V : Type}.

Definition empty : t V := [].

(** [o[k]] *)
Fixpoint get (k : string) (o : t V) : option V :=
  match o with
  | [] => None
  | (k', v) :: o' => if String.eqb k k' then Some v else get k o'
  end.

(** [o[k] = v]: an existing key keeps its position, a new one goes last. *)
Fixpoint set (k : string) (v : V) (o : t V) : t V :=
  match o with
  | [] => [(k, v)]
  | (k', v') :: o' =>
      if String.eqb k k' then (k, v) :: o' else (k', v') :: set k v o'
  end.

(** [const { [k]: _, ...rest } = o] *)
Definition remove (k : string) (o : t V) : t V :=
  filter (fun kv => negb (String.eqb k (fst kv))) o.

(** [Object.keys(o)] and [Object.values(o)] *)
Definition keys (o : t V) : list string := map fst o.
Definition values (o : t V) : list V := map snd o.
End Operations.

End JSObj.

(** The names every plain object inherits from [Object.prototype]: read on
    an object that has no such own property they give a method of the
    prototype (for [__proto__], the prototype itself), not [undefined]. *)
Definition objectPrototypeNames : list string :=
  [ "constructor"; "__defineGetter__"; "__defineSetter__"; "hasOwnProperty";
    "__lookupGetter__"; "__lookupSetter__"; "isPrototypeOf";
    "propertyIsEnumerable"; "toString"; "valueOf"; "__proto__";
    "toLocaleString" ].

Definition inheritedName (k : string) : bool :=
  existsb (String.eqb k) objectPrototypeNames.

(** A string that starts with a decimal digit.  The canonical array
    indices, which [Object.keys] and [Object.values] list before the other
    keys and in numeric order, all do. *)
Definition startsWithDigit (s : string) : bool :=
  match s with
  | EmptyString => false
  | String c _ =>
      let n := nat_of_ascii c in ((48 <=? n) && (n <=? 57))%nat
  end.

(** Arrays: [a[i]] for a numeric index, [a.splice(start, 1)]. *)
Definition removeAt {A : Type} (n : nat) (l : list A) : list A :=
  (firstn n l ++ skipn (S n) l)%list.

Definition array_get {A : Type} (a : list (option A)) (i : Z) : option A :=
  if (i <? 0)%Z then None
  else match nth_error a (Z.to_nat i) with
       | Some e => e
       | None => None
       end.

Definition splice1 {A : Type} (start : Z) (a : list A) : list A :=
  let len := Z.of_nat (length a) in
  let actualStart :=
    if (start <? 0)%Z then Z.max (len + start) 0 else Z.min start len in
  removeAt (Z.to_nat actualStart) a.

(** [String.prototype.toLowerCase], on the ASCII letters. *)
Definition lower_ascii (c : ascii) : ascii :=
  let n := nat_of_ascii c in
  if ((65 <=? n) && (n <=? 90))%nat then ascii_of_nat (n + 32) else c.

Fixpoint toLowerCase (s : string) : string :=
  match s with
  | EmptyString => EmptyString
  | String c s' => String (lower_ascii c) (toLowerCase s')
  end.

(** ** What the slice imports

    [normalizeEVMAddress] comes from [../lib/utils], [Network] and the asset
    types from sibling modules, and [BigInt] is the language's own string to
    integer conversion ([None] when it raises a SyntaxError). *)
Class Externals : Type := {
  Network : Type;
  AnyAsset : Type;
  symbol : AnyAsset -> string;
  normalizeEVMAddress : string -> string;
  BigInt : string -> option Z
}.

Definition HexString := string.
Definition DomainName := string.
Definition URI := string.

(** The shared array of default names; an entry is [None] once [undefined]
    has been unshifted into it. *)
Definition Pool : Type := list (option string).

Definition availableDefaultNames : list string :=
  ["Phoenix"; "Matilda"; "Sirius"; "Topa"; "Atos"; "Sport"; "Lola"; "Foz"].

Definition freshPool : Pool := map Some availableDefaultNames.

(** Computations that read and update the shared pool and may throw.  A
    throw keeps the pool as it was at the throw: the array is module state,
    not part of the draft that the store discards. *)
Definition M (A : Type) : Type := Pool -> Pool * (JSError + A).

Definition ret {A : Type} (a : A) : M A := fun p => (p, inr a).
Definition throw {A : Type} (e : JSError) : M A := fun p => (p, inl e).
Definition bind {A B : Type} (c : M A) (k : A -> M B) : M B :=
  fun p => match c p with
           | (p', inr a) => k a p'
           | (p', inl e) => (p', inl e)
           end.

Notation "x <- c ;; k" := (bind c (fun x => k))
  (at level 61, c at next level, right associativity).

Section Slice.
Context {E : Externals}.

Record AnyAssetAmount : Type := {
  asset : AnyAsset;
  amount : Z
}.

Record AccountBalance : Type := {
  ab_address : HexString;
  ab_network : Network;
  assetAmount : AnyAssetAmount;
  retrievedAt : Z;
  dataSource : string
}.

Record ENSInfo : Type := {
  ens_name : option DomainName;
  ens_avatarURL : option URI
}.

Record AccountData : Type := {
  address : HexString;
  network : Network;
  balances : JSObj.t AccountBalance;
  ens : ENSInfo;
  defaultName : string;
  defaultAvatar : string
}.

(** [AccountData | "loading"] *)
Inductive AccountEntry : Type :=
| Loading
| Ready (d : AccountData).

Record AddressOnNetwork : Type := {
  aon_address : HexString;
  aon_network : Network
}.

Record CombinedAccountData : Type := {
  totalMainCurrencyValue : option string;
  assets : list AnyAssetAmount
}.

Record AccountState : Type := {
  account : option AddressOnNetwork;
  accountLoading : option string;
  hasAccountError : option bool;
  accountsData : JSObj.t AccountEntry;
  combinedData : CombinedAccountData
}.

Definition initialState : AccountState :=
  {| account := None; accountLoading := None; hasAccountError := None;
     accountsData := JSObj.empty;
     combinedData := {| totalMainCurrencyValue := Some ""; assets := [] |} |}.

Definition avatarPath (name : string) : string :=
  "./images/avatars/" ++ toLowerCase name ++ "@2x.png".

Definition newAccountData (address : HexString) (network : Network)
    (existingAccountsCount : nat) : M AccountData :=
  fun pool =>
    match BigInt address with
    | None => (pool, inl SyntaxError)
    | Some addressInt =>
        let len := length pool in
        if (len =? 0)%nat then (pool, inl RangeError) (* BigInt(NaN) *)
        else
          let skip := existingAccountsCount mod len in
          let defaultNameIndex :=
            (Z.of_nat skip + Z.rem addressInt (Z.of_nat (len - skip)))%Z in
          let defaultAccountName := array_get pool defaultNameIndex in
          let pool' := defaultAccountName :: splice1 defaultNameIndex pool in
          match defaultAccountName with
          | None => (pool', inl TypeError) (* undefined.toLowerCase() *)
          | Some name =>
              (pool',
               inr {| address := address;
                      network := network;
                      balances := JSObj.empty;
                      ens := {| ens_name := None; ens_avatarURL := None |};
                      defaultName := name;
                      defaultAvatar := avatarPath name |})
          end
    end.

Definition getOrCreateAccountData (data : option AccountEntry)
    (account : HexString) (network : Network) (existingAccountsCount : nat)
    : M AccountData :=
  match data with
  | Some (Ready d) => ret d
  | Some Loading | None => newAccountData account network existingAccountsCount
  end.

(** Functional record updates, one per spread expression of the source. *)
Definition withAccountsData (st : AccountState) (ad : JSObj.t AccountEntry)
    : AccountState :=
  {| account := account st;
     accountLoading := accountLoading st;
     hasAccountError := hasAccountError st;
     accountsData := ad;
     combinedData := combinedData st |}.

Definition withAssets (st : AccountState) (l : list AnyAssetAmount)
    : AccountState :=
  {| account := account st;
     accountLoading := accountLoading st;
     hasAccountError := hasAccountError st;
     accountsData := accountsData st;
     combinedData :=
       {| totalMainCurrencyValue := totalMainCurrencyValue (combinedData st);
          assets := l |} |}.

Definition withBalances (d : AccountData) (b : JSObj.t AccountBalance)
    : AccountData :=
  {| address := address d; network := network d; balances := b;
     ens := ens d; defaultName := defaultName d;
     defaultAvatar := defaultAvatar d |}.

Definition withEns (d : AccountData) (e : ENSInfo) : AccountData :=
  {| address := address d; network := network d; balances := balances d;
     ens := e; defaultName := defaultName d;
     defaultAvatar := defaultAvatar d |}.

(** [Object.keys(accountsData).filter((key) => key !== k).length] *)
Definition otherKeysCount (k : string) (ad : JSObj.t AccountEntry) : nat :=
  length (filter (fun key => negb (String.eqb key k)) (JSObj.keys ad)).

(** *** Reducers *)

Definition loadAccount (state : AccountState) (accountToLoad : string)
    : AccountState :=
  let accountKey := normalizeEVMAddress accountToLoad in
  match JSObj.get accountKey (accountsData state) with
  | Some _ => state (* a record and the sentinel string are both truthy *)
  | None =>
      withAccountsData state
        (JSObj.set accountKey Loading (accountsData state))
  end.

Definition deleteAccount (state : AccountState) (accountToRemove : string)
    : AccountState :=
  let keyToRemove := normalizeEVMAddress accountToRemove in
  match JSObj.get (normalizeEVMAddress keyToRemove) (accountsData state) with
  | None => state
  | Some _ =>
      withAccountsData state (JSObj.remove keyToRemove (accountsData state))
  end.

(** The body of the [forEach] callback of [updateAccountBalance], on the
    draft's [accountsData].  A balance is filed under the symbol of its
    asset as an ordinary key of the record's balances.  The symbol
    [__proto__] is no such key on a record that is there already (the write
    goes to the inherited accessor, which a draft refuses); the properties
    below that depend on it set that symbol aside. *)
Definition applyBalanceUpdate (ad : JSObj.t AccountEntry)
    (updatedAccountBalance : AccountBalance) : M (JSObj.t AccountEntry) :=
  let updatedAssetSymbol := symbol (asset (assetAmount updatedAccountBalance)) in
  let updatedAccountKey :=
    normalizeEVMAddress (ab_address updatedAccountBalance) in
  match JSObj.get updatedAccountKey ad with
  | Some (Ready existingAccountData) =>
      ret (JSObj.set updatedAccountKey
             (Ready (withBalances existingAccountData
                       (JSObj.set updatedAssetSymbol updatedAccountBalance
                          (balances existingAccountData))))
             ad)
  | Some Loading =>
      d <- newAccountData updatedAccountKey (ab_network updatedAccountBalance)
             (otherKeysCount updatedAccountKey ad) ;;
      ret (JSObj.set updatedAccountKey
             (Ready (withBalances d
                       (JSObj.set updatedAssetSymbol updatedAccountBalance
                          JSObj.empty)))
             ad)
  | None => ret ad
  end.

Fixpoint forEachBalance (ad : JSObj.t AccountEntry)
    (accountsWithBalances : list AccountBalance) : M (JSObj.t AccountEntry) :=
  match accountsWithBalances with
  | [] => ret ad
  | u :: rest => ad' <- applyBalanceUpdate ad u ;; forEachBalance ad' rest
  end.

(** [Object.values(accountsData).flatMap(...)]; the [filter((b) => b)] that
    follows keeps every element, an [assetAmount] being an object. *)
Definition combinedAccountBalances (ad : JSObj.t AccountEntry)
    : list AnyAssetAmount :=
  flat_map
    (fun e => match e with
              | Loading => []
              | Ready d => map assetAmount (JSObj.values (balances d))
              end)
    (JSObj.values ad).

(** The accumulator of the [reduce], the plain object [{}]: the amounts
    assigned so far are its own properties.  [__proto__] is never one of
    them: on a plain object that name is the accessor inherited from
    [Object.prototype], so reading it gives the prototype of the object and
    assigning an object to it replaces the prototype.  [proto] is the amount
    assigned under that name last, [None] while the prototype is still
    [Object.prototype]. *)
Record Accumulator : Type := {
  own : JSObj.t AnyAssetAmount;
  proto : option AnyAssetAmount
}.

Definition emptyAccumulator : Accumulator :=
  {| own := JSObj.empty; proto := None |}.

(** [acc[assetSymbol]?.amount || 0n].  A name that is no own property is
    looked up along the prototype chain; what is found there for a name
    other than [__proto__] (a method of [Object.prototype], or the [asset]
    or the [amount] of the object assigned as prototype) has no [amount]
    itself, and neither has [Object.prototype]. *)
Definition accAmount (acc : Accumulator) (assetSymbol : string) : Z :=
  if String.eqb assetSymbol "__proto__" then
    match proto acc with
    | Some a => if (amount a =? 0)%Z then 0%Z else amount a
    | None => 0%Z
    end
  else
    match JSObj.get assetSymbol (own acc) with
    | Some a => if (amount a =? 0)%Z then 0%Z else amount a
    | None => 0%Z
    end.

Definition combineStep (acc : Accumulator)
    (combinedAssetAmount : AnyAssetAmount) : Accumulator :=
  let assetSymbol := symbol (asset combinedAssetAmount) in
  let combined :=
    {| asset := asset combinedAssetAmount;
       amount := (accAmount acc assetSymbol + amount combinedAssetAmount)%Z |} in
  if String.eqb assetSymbol "__proto__"
  then {| own := own acc; proto := Some combined |}
  else {| own := JSObj.set assetSymbol combined (own acc);
          proto := proto acc |}.

(** [Object.values(acc)] lists the own properties only, in the order they
    were first assigned when no symbol is an array index. *)
Definition combineAssets (l : list AnyAssetAmount) : list AnyAssetAmount :=
  JSObj.values (own (fold_left combineStep l emptyAccumulator)).

Definition updateAccountBalance (immerState : AccountState)
    (accountsWithBalances : list AccountBalance) : M AccountState :=
  ad <- forEachBalance (accountsData immerState) accountsWithBalances ;;
  ret (withAssets (withAccountsData immerState ad)
         (combineAssets (combinedAccountBalances ad))).

Definition updateAccountName (immerState : AccountState)
    (address : HexString) (network : Network) (name : DomainName)
    : M AccountState :=
  let accountKey := normalizeEVMAddress address in
  match JSObj.get accountKey (accountsData immerState) with
  | None => ret immerState
  | Some entry =>
      baseAccountData <-
        getOrCreateAccountData (Some entry) accountKey network
          (otherKeysCount accountKey (accountsData immerState)) ;;
      ret (withAccountsData immerState
             (JSObj.set accountKey
                (Ready (withEns baseAccountData
                          {| ens_name := Some name;
                             ens_avatarURL :=
                               ens_avatarURL (ens baseAccountData) |}))
                (accountsData immerState)))
  end.

Definition updateENSAvatar (immerState : AccountState)
    (address : HexString) (network : Network) (avatar : URI)
    : M AccountState :=
  let accountKey := normalizeEVMAddress address in
  match JSObj.get accountKey (accountsData immerState) with
  | None => ret immerState
  | Some entry =>
      baseAccountData <-
        getOrCreateAccountData (Some entry) accountKey network
          (otherKeysCount accountKey (accountsData immerState)) ;;
      ret (withAccountsData immerState
             (JSObj.set accountKey
                (Ready (withEns baseAccountData
                          {| ens_name := ens_name (ens baseAccountData);
                             ens_avatarURL := Some avatar |}))
                (accountsData immerState)))
  end.

End Slice.

(** ** ERC-20 helpers *)

Inductive FragmentKind : Type := FunctionKind | EventKind.

(** A fragment as the source writes it: its kind and human-readable form. *)
Record Fragment : Type := {
  kind : FragmentKind;
  signature : string
}.

Definition FunctionFragment_from (s : string) : Fragment :=
  {| kind := FunctionKind; signature := s |}.
Definition EventFragment_from (s : string) : Fragment :=
  {| kind := EventKind; signature := s |}.

Definition ERC20_FUNCTIONS : JSObj.t Fragment :=
  [ ("allowance", FunctionFragment_from
       "allowance(address owner, address spender) view returns (uint256)");
    ("approve", FunctionFragment_from
       "approve(address spender, uint256 value) returns (bool)");
    ("balanceOf", FunctionFragment_from
       "balanceOf(address owner) view returns (uint256)");
    ("decimals", FunctionFragment_from "decimals() view returns (uint8)");
    ("name", FunctionFragment_from "name() view returns (string)");
    ("symbol", FunctionFragment_from "symbol() view returns (string)");
    ("totalSupply", FunctionFragment_from
       "totalSupply() view returns (uint256)");
    ("transfer", FunctionFragment_from
       "transfer(address to, uint amount) returns (bool)");
    ("transferFrom", FunctionFragment_from
       "transferFrom(address from, address to, uint amount) returns (bool)") ].

Definition ERC20_EVENTS_Transfer : Fragment :=
  EventFragment_from
    "Transfer(address indexed from, address indexed to, uint amount)".

Definition ERC20_EVENTS : JSObj.t Fragment :=
  [ ("Transfer", ERC20_EVENTS_Transfer);
    ("Approval", EventFragment_from
       "Approval(address indexed owner, address indexed spender, uint amount)") ].

Definition ERC20_ABI : list Fragment :=
  (JSObj.values ERC20_FUNCTIONS ++ JSObj.values ERC20_EVENTS)%list.

(** [new ethers.utils.Interface(abi)]: an interface is the list of its
    fragments. *)
Definition Interface : Type := list Fragment.

Definition ERC20_INTERFACE : Interface := ERC20_ABI.

Definition ERC2612_FUNCTIONS : JSObj.t Fragment :=
  [ ("permit", FunctionFragment_from
       "permit(address owner, address spender, uint256 value, uint256 deadline, uint8 v, bytes32 r, bytes32 s)");
    ("nonces", FunctionFragment_from
       "nonces(address owner) view returns (uint256)");
    ("DOMAIN", FunctionFragment_from
       "DOMAIN_SEPARATOR() view returns (bytes32)") ].

Definition ERC2612_ABI : list Fragment :=
  (ERC20_ABI ++ JSObj.values ERC2612_FUNCTIONS)%list.

Definition ERC2612_INTERFACE : Interface := ERC2612_ABI.

(** Reading a property of a decoded log gives [undefined], a value, or
    throws (the library installs throwing getters for arguments it could
    not decode). *)
Inductive Field (A : Type) : Type :=
| Undefined
| Throws
| Value (a : A).
Arguments Undefined {A}.
Arguments Throws {A}.
Arguments Value {A} a.

(** The result of decoding a log against the Transfer fragment; [amount] is
    the library's BigNumber. *)
Record DecodedLog : Type := {
  decoded_from : Field HexString;
  decoded_to : Field HexString;
  decoded_amount : Field Z
}.

(** The ABI library (ethers): decoding of call data and of event logs. *)
Class AbiLibrary : Type := {
  TransactionDescription : Type;
  functionFragment : TransactionDescription -> Fragment;
  parseTransaction : Interface -> string -> JSError + TransactionDescription;
  decodeEventLog :
    Interface -> Fragment -> string -> list string -> JSError + DecodedLog
}.

(** A successful [parseTransaction] describes a function of the interface
    it was asked to decode against. *)
Definition parsesOwnFunctions (L : AbiLibrary) : Prop :=
  forall (iface : Interface) (data : string) (d : TransactionDescription),
    parseTransaction iface data = inr d ->
    In (functionFragment d) iface /\ kind (functionFragment d) = FunctionKind.

Record EVMLog : Type := {
  contractAddress : string;
  data : string;
  topics : list string
}.

Record ERC20TransferLog : Type := {
  tl_contractAddress : string;
  tl_amount : Z;
  senderAddress : HexString;
  recipientAddress : HexString
}.

(** [try { body } catch (_) { handler }] and sequencing of throwing code. *)
Definition tryCatch {A : Type} (body : JSError + A) (handler : JSError -> JSError + A)
    : JSError + A :=
  match body with
  | inl e => handler e
  | inr a => inr a
  end.

Definition andThen {A B : Type} (c : JSError + A) (k : A -> JSError + B)
    : JSError + B :=
  match c with
  | inl e => inl e
  | inr a => k a
  end.

(** [typeof x.f === "undefined"], which runs the getter of [f]. *)
Definition typeofUndefined {A : Type} (f : Field A) : JSError + bool :=
  match f with
  | Undefined => inr true
  | Throws => inl LibraryError
  | Value _ => inr false
  end.

Definition readField {A : Type} (f : Field A) : JSError + option A :=
  match f with
  | Undefined => inr None
  | Throws => inl LibraryError
  | Value a => inr (Some a)
  end.

Fixpoint mapThrowing {A B : Type} (f : A -> JSError + B) (l : list A)
    : JSError + list B :=
  match l with
  | [] => inr []
  | x :: l' =>
      andThen (f x) (fun y =>
      andThen (mapThrowing f l') (fun ys => inr (y :: ys)))
  end.

(** [.filter((info) => typeof info !== "undefined")] *)
Fixpoint filterDefined {A : Type} (l : list (option A)) : list A :=
  match l with
  | [] => []
  | Some a :: l' => a :: filterDefined l'
  | None :: l' => filterDefined l'
  end.

Section ERC20.
Context {L : AbiLibrary}.

Definition parseERC20Tx (input : string) : option TransactionDescription :=
  match parseTransaction ERC20_INTERFACE input with
  | inr d => Some d
  | inl _ => None
  end.

(** The body of the [try] block of the [map] callback. *)
Definition transferOfLog_try (log : EVMLog) : JSError + option ERC20TransferLog :=
  andThen (decodeEventLog ERC20_INTERFACE ERC20_EVENTS_Transfer
             (data log) (topics log)) (fun decoded =>
  andThen (typeofUndefined (decoded_to decoded)) (fun noTo =>
  if noTo then inr None else
  andThen (typeofUndefined (decoded_from decoded)) (fun noFrom =>
  if noFrom then inr None else
  andThen (typeofUndefined (decoded_amount decoded)) (fun noAmount =>
  if noAmount then inr None else
  andThen (readField (decoded_amount decoded)) (fun a =>
  andThen (readField (decoded_from decoded)) (fun f =>
  andThen (readField (decoded_to decoded)) (fun t =>
  match a, f, t with
  | Some a, Some f, Some t =>
      inr (Some {| tl_contractAddress := contractAddress log;
                   tl_amount := a;
                   senderAddress := f;
                   recipientAddress := t |})
  | _, _, _ => inl TypeError (* not reached: the three were just seen *)
  end))))))).

Definition transferOfLog (log : EVMLog) : JSError + option ERC20TransferLog :=
  tryCatch (transferOfLog_try log) (fun _ => inr None).

Definition parseLogsForERC20Transfers (logs : list EVMLog)
    : JSError + list ERC20TransferLog :=
  andThen (mapThrowing transferOfLog logs) (fun infos =>
  inr (filterDefined infos)).

End ERC20.

(** ** Notions the properties are stated with *)

Section SliceNotions.
Context {E : Externals}.

Definition sumZ (l : list Z) : Z := fold_right Z.add 0%Z l.

(** The amount of asset [s] a record holds: the sum over its stored
    balances of that asset. *)
Definition recordAmount (s : string) (d : AccountData) : Z :=
  sumZ (map (fun ab =>
               if String.eqb (symbol (asset (assetAmount ab))) s
               then amount (assetAmount ab) else 0%Z)
          (JSObj.values (balances d))).

(** The amount of asset [s] over every record that is not the sentinel. *)
Definition totalHeld (s : string) (ad : JSObj.t AccountEntry) : Z :=
  sumZ (map (fun e => match e with
                      | Loading => 0%Z
                      | Ready d => recordAmount s d
                      end)
          (JSObj.values ad)).

(** Some record stores a balance of asset [s]. *)
Definition held (s : string) (ad : JSObj.t AccountEntry) : Prop :=
  exists d ab,
    In (Ready d) (JSObj.values ad) /\
    In ab (JSObj.values (balances d)) /\
    symbol (asset (assetAmount ab)) = s.

(** The amount of asset [s] in a list of asset amounts. *)
Definition amountOfSymbol (s : string) (l : list AnyAssetAmount) : Z :=
  sumZ (map (fun a => if String.eqb (symbol (asset a)) s
                      then amount a else 0%Z) l).

(** The amount an accumulator of the [reduce] has for [s], and the
    accumulator filing every amount under the symbol of its asset. *)
Definition amountIn (acc : JSObj.t AnyAssetAmount) (s : string) : Z :=
  match JSObj.get s acc with
  | Some a => amount a
  | None => 0%Z
  end.

Definition keyedBySymbol (acc : JSObj.t AnyAssetAmount) : Prop :=
  Forall (fun kv => symbol (asset (snd kv)) = fst kv) acc.

(** A record files each balance under the symbol of its asset, once; and a
    state all of whose records do. *)
Definition balancesKeyed (b : JSObj.t AccountBalance) : Prop :=
  Forall (fun kv => symbol (asset (assetAmount (snd kv))) = fst kv) b /\
  NoDup (JSObj.keys b).

Definition entryKeyed (kv : string * AccountEntry) : Prop :=
  match snd kv with
  | Loading => True
  | Ready d => balancesKeyed (balances d)
  end.

Definition stateKeyed (st : AccountState) : Prop :=
  Forall entryKeyed (accountsData st).

(** The amount a record has under the key [s] of its balances. *)
Definition balanceUnder (s : string) (d : AccountData) : Z :=
  match JSObj.get s (balances d) with
  | Some ab => amount (assetAmount ab)
  | None => 0%Z
  end.

(** The entry of the combined portfolio for asset [s]. *)
Definition combinedEntry (s : string) (st : AccountState)
    : option AnyAssetAmount :=
  find (fun a => String.eqb (symbol (asset a)) s) (assets (combinedData st)).

(** A sequence of [updateAccountBalance] dispatches. *)
Fixpoint updateAccountBalances (st : AccountState)
    (batches : list (list AccountBalance)) : M AccountState :=
  match batches with
  | [] => ret st
  | b :: bs => st' <- updateAccountBalance st b ;; updateAccountBalances st' bs
  end.

(** A sequence of account creations, each with its own count of existing
    accounts. *)
Fixpoint createAccounts (calls : list (HexString * Network * nat))
    : M (list AccountData) :=
  match calls with
  | [] => ret []
  | (a, n, c) :: rest =>
      d <- newAccountData a n c ;;
      ds <- createAccounts rest ;;
      ret (d :: ds)
  end.

(** The address reads as an unsigned integer. *)
Definition unsignedAddress (a : HexString) : Prop :=
  exists z, BigInt a = Some z /\ (0 <= z)%Z.

(** The actions of the slice. *)
Inductive Action : Type :=
| LoadAccount (accountToLoad : string)
| DeleteAccount (accountToRemove : string)
| UpdateAccountBalance (accountsWithBalances : list AccountBalance)
| UpdateAccountName (address : HexString) (network : Network) (name : DomainName)
| UpdateENSAvatar (address : HexString) (network : Network) (avatar : URI).

Definition accountSliceReducer (st : AccountState) (a : Action)
    : M AccountState :=
  match a with
  | LoadAccount x => ret (loadAccount st x)
  | DeleteAccount x => ret (deleteAccount st x)
  | UpdateAccountBalance b => updateAccountBalance st b
  | UpdateAccountName x n nm => updateAccountName st x n nm
  | UpdateENSAvatar x n av => updateENSAvatar st x n av
  end.

(** A sequence of dispatches; an exception ends it. *)
Fixpoint dispatchAll (st : AccountState) (actions : list Action)
    : M AccountState :=
  match actions with
  | [] => ret st
  | a :: rest => st' <- accountSliceReducer st a ;; dispatchAll st' rest
  end.

(** The record under [k] carries the generated identity of [d]. *)
Definition identityKept (k : string) (d : AccountData)
    (ad : JSObj.t AccountEntry) : Prop :=
  exists d',
    JSObj.get k ad = Some (Ready d') /\
    defaultName d' = defaultName d /\
    defaultAvatar d' = defaultAvatar d.

Definition sameIdentityAt (k : string) (d : AccountData) (st : AccountState)
    : Prop :=
  identityKept k d (accountsData st).

Definition isDelete (a : Action) : bool :=
  match a with
  | DeleteAccount _ => true
  | _ => false
  end.

(** A record with an ENS field attached. *)
Definition withName (name : DomainName) (d : AccountData) : AccountData :=
  withEns d {| ens_name := Some name; ens_avatarURL := ens_avatarURL (ens d) |}.

Definition withAvatar (avatar : URI) (d : AccountData) : AccountData :=
  withEns d {| ens_name := ens_name (ens d); ens_avatarURL := Some avatar |}.

(** The key a balance update is filed under. *)
Definition updateKey (u : AccountBalance) : string :=
  normalizeEVMAddress (ab_address u).

Definition normalizeIdempotent : Prop :=
  forall a, normalizeEVMAddress (normalizeEVMAddress a) = normalizeEVMAddress a.

End SliceNotions.

Section ERC20Notions.
Context {L : AbiLibrary}.

(** The transfer a log stands for, as the specification words it: the log
    decodes, and [from], [to] and [amount] are all present. *)
Definition decodedTransfer (log : EVMLog) : option ERC20TransferLog :=
  match decodeEventLog ERC20_INTERFACE ERC20_EVENTS_Transfer
          (data log) (topics log) with
  | inr {| decoded_from := Value f; decoded_to := Value t;
           decoded_amount := Value a |} =>
      Some {| tl_contractAddress := contractAddress log;
              tl_amount := a;
              senderAddress := f;
              recipientAddress := t |}
  | _ => None
  end.

(** The transfers of a list of logs, in the order of the logs, a log without
    a transfer contributing nothing. *)
Fixpoint transfersInOrder (logs : list EVMLog) : list ERC20TransferLog :=
  match logs with
  | [] => []
  | log :: rest =>
      match decodedTransfer log with
      | Some r => r :: transfersInOrder rest
      | None => transfersInOrder rest
      end
  end.

(** The log decodes to a transfer. *)
Definition decodable (log : EVMLog) : bool :=
  match decodedTransfer log with
  | Some _ => true
  | None => false
  end.

(** What the specification says of [parseERC20Tx]: decoding against the
    ERC-20 interface extended with ERC-2612. *)
Definition parseAsErc20Call_spec (input : string)
    : option TransactionDescription :=
  match parseTransaction ERC2612_INTERFACE input with
  | inr d => Some d
  | inl _ => None
  end.

End ERC20Notions.

(** ** A concrete environment, for running the definitions *)

Definition hexDigit (c : ascii) : option Z :=
  let n := Z.of_nat (nat_of_ascii c) in
  if ((48 <=? n) && (n <=? 57))%Z then Some (n - 48)%Z
  else if ((97 <=? n) && (n <=? 102))%Z then Some (n - 87)%Z
  else if ((65 <=? n) && (n <=? 70))%Z then Some (n - 55)%Z
  else None.

Fixpoint hexDigits (acc : Z) (s : string) : option Z :=
  match s with
  | EmptyString => Some acc
  | String c s' =>
      match hexDigit c with
      | Some d => hexDigits (16 * acc + d)%Z s'
      | None => None
      end
  end.

(** [BigInt] on hexadecimal literals [0x...]. *)
Definition hexBigInt (s : string) : option Z :=
  match s with
  | String "0" (String "x" (String c rest)) => hexDigits 0%Z (String c rest)
  | _ => None
  end.

Definition hexExternals : Externals :=
  {| Network := string;
     AnyAsset := string;
     symbol := fun a => a;
     normalizeEVMAddress := toLowerCase;
     BigInt := hexBigInt |}.

(** The four-byte selectors of the functions above (the first bytes of the
    Keccak-256 hash of the canonical signature), by the text of the fragment. *)
Definition sighashTable : list (string * string) :=
  [ ("allowance(address owner, address spender) view returns (uint256)",
     "0xdd62ed3e");
    ("approve(address spender, uint256 value) returns (bool)", "0x095ea7b3");
    ("balanceOf(address owner) view returns (uint256)", "0x70a08231");
    ("decimals() view returns (uint8)", "0x313ce567");
    ("name() view returns (string)", "0x06fdde03");
    ("symbol() view returns (string)", "0x95d89b41");
    ("totalSupply() view returns (uint256)", "0x18160ddd");
    ("transfer(address to, uint amount) returns (bool)", "0xa9059cbb");
    ("transferFrom(address from, address to, uint amount) returns (bool)",
     "0x23b872dd");
    ("permit(address owner, address spender, uint256 value, uint256 deadline, uint8 v, bytes32 r, bytes32 s)",
     "0xd505accf");
    ("nonces(address owner) view returns (uint256)", "0x7ecebe00");
    ("DOMAIN_SEPARATOR() view returns (bytes32)", "0x3644e515") ].

Definition hasSighash (sel : string) (f : Fragment) : bool :=
  match kind f, JSObj.get (signature f) sighashTable with
  | FunctionKind, Some s => String.eqb s sel
  | _, _ => false
  end.

(** A library that finds the function by the selector at the head of the
    call data and hands back the rest undecoded, and that reads a log with
    topics [[event; from; to]] and the amount as its data. *)
Definition selectorLibrary : AbiLibrary :=
  {| TransactionDescription := Fragment * string;
     functionFragment := fst;
     parseTransaction := fun iface input =>
       match find (hasSighash (toLowerCase (substring 0 10 input))) iface with
       | Some f => inr (f, substring 10 (String.length input - 10) input)
       | None => inl LibraryError
       end;
     decodeEventLog := fun _ _ logData logTopics =>
       match logTopics, hexBigInt logData with
       | [_; f; t], Some a =>
           inr {| decoded_from := Value f; decoded_to := Value t;
                  decoded_amount := Value a |}
       | _, _ => inl LibraryError
       end |}.

(** Call data of [permit]: the selector and seven words. *)
Definition word (s : string) : string :=
  "00000000000000000000000000000000000000000000000000000000000000" ++ s.

Definition permitCallData : string :=
  "0xd505accf" ++ word "aa" ++ word "bb" ++ word "64" ++ word "ff"
    ++ word "1b" ++ word "01" ++ word "02".

Definition transferCallData : string :=
  "0xa9059cbb" ++ word "bb" ++ word "64".

Definition someLogs : list EVMLog :=
  [ {| contractAddress := "0xc0"; data := "0x03e8";
       topics := ["0xddf252ad"; "0xaa"; "0xbb"] |};
    {| contractAddress := "0xc1"; data := "scrambled";
       topics := ["0xddf252ad"; "0xaa"; "0xbb"] |};
    {| contractAddress := "0xc2"; data := "0x05";
       topics := ["0xddf252ad"; "0xcc"; "0xdd"] |} ].

Section Examples.
#[local] Existing Instance hexExternals.

Definition balanceFor (a s : string) (n : Z) : AccountBalance :=
  {| ab_address := a; ab_network := "mainnet";
     assetAmount := {| asset := s; amount := n |};
     retrievedAt := 0%Z; dataSource := "alchemy" |}.

(** One address being loaded. *)
Definition oneLoading : AccountState :=
  withAccountsData initialState [("0xab", Loading)].

(** Two addresses being loaded. *)
Definition twoLoading : AccountState :=
  withAccountsData initialState [("0xab", Loading); ("0xcd", Loading)].

Definition topaRecord : AccountData :=
  {| address := "0xab"; network := "mainnet";
     balances := JSObj.empty;
     ens := {| ens_name := None; ens_avatarURL := None |};
     defaultName := "Topa";
     defaultAvatar := avatarPath "Topa" |}.

(** A state with one record and one address being loaded. *)
Definition oneReady : AccountState :=
  withAccountsData initialState [("0xab", Ready topaRecord); ("0xcd", Loading)].

(** Eight creations in a row, the [k]-th with [k] accounts before it. *)
Definition eightCalls : list (HexString * Network * nat) :=
  [("0x01", "mainnet", 0%nat); ("0x02", "mainnet", 1%nat);
   ("0x03", "mainnet", 2%nat); ("0x04", "mainnet", 3%nat);
   ("0x05", "mainnet", 4%nat); ("0x06", "mainnet", 5%nat);
   ("0x07", "mainnet", 6%nat); ("0x08", "mainnet", 7%nat)].

Definition someActions : list Action :=
  [ LoadAccount "0xEF";
    UpdateAccountBalance [balanceFor "0xab" "ETH" 5; balanceFor "0xcd" "DAI" 2];
    UpdateAccountName "0xAB" "mainnet" "topa.eth";
    UpdateENSAvatar "0xef" "mainnet" "ipfs://avatar" ].

End Examples.

(** ** Further notions for the accounts slice *)

(** The distinct elements of a list, each at its first occurrence. *)
Fixpoint firstOccurrences (l : list string) : list string :=
  match l with
  | [] => []
  | x :: r => x :: filter (fun y => negb (String.eqb y x)) (firstOccurrences r)
  end.

(** A key that a plain object holds as an own property in the place where
    it was first assigned: not [__proto__], and no array index. *)
Definition plainKey (s : string) : bool :=
  negb (String.eqb s "__proto__") && negb (startsWithDigit s).

(** Membership in a list of keys, as a boolean. *)
Definition memb (ks : list string) (s : string) : bool :=
  existsb (String.eqb s) ks.

(** A computation that leaves the pool with the number of entries it had,
    whether it returns or throws. *)
Definition keepsLength {A : Type} (c : M A) : Prop :=
  forall pool, length (fst (c pool)) = length pool.

(** A computation that, when it returns, leaves the pool a rearrangement of
    what it was. *)
Definition rearrangesPool {A : Type} (c : M A) : Prop :=
  forall pool pool' a, c pool = (pool', inr a) -> Permutation pool' pool.

(** Every name still in the pool is one of the default names. *)
Definition poolOfDefaultNames (pool : Pool) : Prop :=
  Forall (fun e => match e with
                   | Some name => In name availableDefaultNames
                   | None => True
                   end) pool.

Section MoreSliceNotions.
Context {E : Externals}.

(** A record as the reducers build it: filed under its own address, named
    from the default names with the avatar of that name, and holding only
    balances of its own address, each under the symbol of its asset. *)
Definition recordFiled (k : string) (d : AccountData) : Prop :=
  address d = k /\
  In (defaultName d) availableDefaultNames /\
  defaultAvatar d = avatarPath (defaultName d) /\
  Forall (fun kv => updateKey (snd kv) = k /\
                    symbol (asset (assetAmount (snd kv))) = fst kv)
    (balances d).

Definition entryFiled (kv : string * AccountEntry) : Prop :=
  match snd kv with
  | Loading => True
  | Ready d => recordFiled (fst kv) d
  end.

Definition stateFiled (st : AccountState) : Prop :=
  Forall entryFiled (accountsData st).

(** The asset amount of the last element of [l] with symbol [s]. *)
Fixpoint lastWithSymbol (s : string) (l : list AnyAssetAmount)
    : option AnyAssetAmount :=
  match l with
  | [] => None
  | x :: r =>
      match lastWithSymbol s r with
      | Some y => Some y
      | None => if String.eqb (symbol (asset x)) s then Some x else None
      end
  end.

(** Creation calls whose counts of existing accounts are at least [k],
    [k + 1], ... in turn, and below the size of the pool. *)
Fixpoint countsFrom (k : nat) (calls : list (HexString * Network * nat))
    : Prop :=
  match calls with
  | [] => True
  | (_, _, c) :: rest =>
      (k <= c < length availableDefaultNames)%nat /\ countsFrom (S k) rest
  end.

(** The record under [k] has the balance [u] under the symbol [s]. *)
Definition holdsBalance (k s : string) (u : AccountBalance)
    (ad : JSObj.t AccountEntry) : Prop :=
  exists d,
    JSObj.get k ad = Some (Ready d) /\ JSObj.get s (balances d) = Some u.

(** The symbol a balance update is for. *)
Definition updateSymbol (u : AccountBalance) : string :=
  symbol (asset (assetAmount u)).

End MoreSliceNotions.

(** ** The keyrings slice *)

(** [Keyring] comes from the keyring service; the slice and its thunk read
    the addresses of a keyring, the thunk also the network of the account
    selected in the UI. *)
Class KeyringExternals : Type := {
  Keyring : Type;
  addresses : Keyring -> list HexString;
  UINetwork : Type
}.

Module Keyrings.

(** ["locked" | "unlocked" | "uninitialized"] *)
Inductive Status : Type := Locked | Unlocked | Uninitialized.

(** [false | "pending" | "done"] *)
Inductive Importing : Type := NotImporting | Pending | Done.

(** [{ source: "import" | "internal" }] *)
Inductive Source : Type := Import | Internal.

Record KeyringToVerify : Type := {
  id : string;
  mnemonic : list string
}.

Section Slice.
Context {K : KeyringExternals}.

Record KeyringsState : Type := {
  keyrings : list Keyring;
  keyringMetadata : JSObj.t Source;
  importing : Importing;
  status : Status;
  keyringToVerify : option KeyringToVerify
}.

Definition initialState : KeyringsState :=
  {| keyrings := [];
     keyringMetadata := JSObj.empty;
     importing := NotImporting;
     status := Uninitialized;
     keyringToVerify := None |}.

Definition withStatus (state : KeyringsState) (s : Status) : KeyringsState :=
  {| keyrings := keyrings state;
     keyringMetadata := keyringMetadata state;
     importing := importing state;
     status := s;
     keyringToVerify := keyringToVerify state |}.

Definition keyringLocked (state : KeyringsState) : KeyringsState :=
  withStatus state Locked.

Definition keyringUnlocked (state : KeyringsState) : KeyringsState :=
  withStatus state Unlocked.

Definition isLocked (s : Status) : bool :=
  match s with
  | Locked => true
  | _ => false
  end.

Definition updateKeyrings (state : KeyringsState)
    (newKeyrings : list Keyring) (newMetadata : JSObj.t Source)
    : KeyringsState :=
  if (length newKeyrings =? 0)%nat && isLocked (status state) then state
  else
    {| keyrings := newKeyrings;
       keyringMetadata := newMetadata;
       importing := importing state;
       status := status state;
       keyringToVerify := keyringToVerify state |}.

Definition setKeyringToVerify (state : KeyringsState)
    (payload : option KeyringToVerify) : KeyringsState :=
  {| keyrings := keyrings state;
     keyringMetadata := keyringMetadata state;
     importing := importing state;
     status := status state;
     keyringToVerify := payload |}.

(** The cases added for the [importKeyring] thunk. *)
Definition importKeyring_pending (state : KeyringsState) : KeyringsState :=
  {| keyrings := keyrings state;
     keyringMetadata := keyringMetadata state;
     importing := Pending;
     status := status state;
     keyringToVerify := keyringToVerify state |}.

Definition importKeyring_fulfilled (state : KeyringsState) : KeyringsState :=
  {| keyrings := keyrings state;
     keyringMetadata := keyringMetadata state;
     importing := Done;
     status := status state;
     keyringToVerify := None |}.

Inductive Action : Type :=
| KeyringLocked
| KeyringUnlocked
| UpdateKeyrings (newKeyrings : list Keyring) (newMetadata : JSObj.t Source)
| SetKeyringToVerify (payload : option KeyringToVerify)
| ImportKeyringPending
| ImportKeyringFulfilled.

Definition reducer (state : KeyringsState) (a : Action) : KeyringsState :=
  match a with
  | KeyringLocked => keyringLocked state
  | KeyringUnlocked => keyringUnlocked state
  | UpdateKeyrings ks md => updateKeyrings state ks md
  | SetKeyringToVerify p => setKeyringToVerify state p
  | ImportKeyringPending => importKeyring_pending state
  | ImportKeyringFulfilled => importKeyring_fulfilled state
  end.

Definition dispatchAll (state : KeyringsState) (actions : list Action)
    : KeyringsState :=
  fold_left reducer actions state.

(** The account selected in the UI, and the payload of
    [setNewSelectedAccount]; [addresses[0]] may be [undefined]. *)
Record SelectedAccount : Type := {
  selected_address : option HexString;
  selected_network : UINetwork
}.

(** [a.slice(-1)[0]] *)
Definition lastElement {A : Type} (a : list A) : option A :=
  match rev a with
  | [] => None
  | x :: _ => Some x
  end.

(** What the [importKeyring] thunk dispatches to [setNewSelectedAccount]
    once the emitter has returned, from the state it then reads. *)
Definition importKeyring_selection (state : KeyringsState)
    (selectedAccount : option SelectedAccount) : JSError + SelectedAccount :=
  match lastElement (keyrings state) with
  | None => inl TypeError (* undefined.addresses *)
  | Some keyring =>
      match selectedAccount with
      | None => inl TypeError (* undefined.network *)
      | Some current =>
          inr {| selected_address := hd_error (addresses keyring);
                 selected_network := selected_network current |}
      end
  end.

(** An action that neither unlocks nor brings keyrings. *)
Definition bringsNothing (a : Action) : bool :=
  match a with
  | KeyringUnlocked => false
  | UpdateKeyrings ks _ => (length ks =? 0)%nat
  | _ => true
  end.

(** An action that sets the status. *)
Definition setsStatus (a : Action) : bool :=
  match a with
  | KeyringLocked | KeyringUnlocked => true
  | _ => false
  end.

End Slice.

End Keyrings.

(** Keyrings as the lists of their addresses, for running the slice. *)
Definition listKeyrings : KeyringExternals :=
  {| Keyring := list HexString;
     addresses := fun k => k;
     UINetwork := string |}.

Section KeyringsExample.
#[local] Existing Instance listKeyrings.

(** A locked state with one keyring and its metadata. *)
Definition lockedWithKeyring : Keyrings.KeyringsState :=
  {| Keyrings.keyrings := [["0xab"; "0xcd"]];
     Keyrings.keyringMetadata := [("keyring-1", Keyrings.Import)];
     Keyrings.importing := Keyrings.Done;
     Keyrings.status := Keyrings.Locked;
     Keyrings.keyringToVerify := None |}.

End KeyringsExample.

(** ** The wallets of the account switcher *)

(** A signing method, as the switcher reads it: its type, the keyring of a
    keyring method and the device of a Ledger method. *)
Inductive SigningMethod : Type :=
| KeyringSigning (keyringID : option string)
| LedgerSigning (deviceID : string).

(** [AccountTotal] comes from the selectors; the switcher reads its signing
    method ([null] for a read-only account) and its [keyringId]. *)
Class SwitcherExternals : Type := {
  AccountTotal : Type;
  signingMethod : AccountTotal -> option SigningMethod;
  keyringId : AccountTotal -> option string
}.

Section Switcher.
Context {W : SwitcherExternals}.

(** [acc[k] ??= []] followed by [acc[k].push(t)], on an accumulator that
    started as [{}].  An own property is an array, which [??=] leaves and
    [push] extends.  A name that is no own property but inherited from
    [Object.prototype] is not nullish either: nothing is assigned, and what
    is read there has no [push].  Any other name is assigned the empty
    array, which [push] extends. *)
Definition pushUnder (acc : JSObj.t (list AccountTotal)) (k : string)
    (t : AccountTotal) : JSError + JSObj.t (list AccountTotal) :=
  match JSObj.get k acc with
  | Some group => inr (JSObj.set k (group ++ [t])%list acc)
  | None =>
      if inheritedName k then inl TypeError (* acc[k].push is not a function *)
      else inr (JSObj.set k ([] ++ [t])%list (JSObj.set k [] acc))
  end.

(** The callback of the [reduce] over the account totals of one type. *)
Definition groupStep (acc : JSObj.t (list AccountTotal))
    (accountTypeTotal : AccountTotal)
    : JSError + JSObj.t (list AccountTotal) :=
  match signingMethod accountTypeTotal with
  | Some (KeyringSigning _) =>
      match keyringId accountTypeTotal with
      | Some id =>
          if String.eqb id "" then inr acc (* the empty string is falsy *)
          else pushUnder acc id accountTypeTotal
      | None => inr acc
      end
  | Some (LedgerSigning deviceID) => pushUnder acc deviceID accountTypeTotal
  | None => pushUnder acc "readOnly" accountTypeTotal
  end.

(** [l.reduce(f, acc)] for a callback that may throw. *)
Fixpoint reduceThrowing {A B : Type} (f : B -> A -> JSError + B)
    (l : list A) (acc : B) : JSError + B :=
  match l with
  | [] => inr acc
  | x :: rest => andThen (f acc x) (fun acc' => reduceThrowing f rest acc')
  end.

Definition accountTotalsByType (totals : list AccountTotal)
    : JSError + JSObj.t (list AccountTotal) :=
  reduceThrowing groupStep totals JSObj.empty.

(** One wallet section: its number, the signing method its header gets and
    its accounts. *)
Record WalletSection : Type := {
  walletNumber : nat;
  headerSigningMethod : option SigningMethod;
  walletAccounts : list AccountTotal
}.

(** [Object.values(accountTotalsByType).map((accountTotalsById, idx) => ...)],
    reading [accountTotalsById[0].signingMethod]; the groups come in the
    order their keys were first assigned when no key is an array index. *)
Fixpoint walletSectionsFrom (idx : nat) (groups : list (list AccountTotal))
    : JSError + list WalletSection :=
  match groups with
  | [] => inr []
  | accountTotalsById :: rest =>
      match accountTotalsById with
      | [] => inl TypeError (* undefined.signingMethod *)
      | first :: _ =>
          andThen (walletSectionsFrom (S idx) rest) (fun sections =>
          inr ({| walletNumber := idx + 1;
                  headerSigningMethod := signingMethod first;
                  walletAccounts := accountTotalsById |} :: sections))
      end
  end.

Definition walletSections (totals : list AccountTotal)
    : JSError + list WalletSection :=
  andThen (accountTotalsByType totals) (fun groups =>
  walletSectionsFrom 0 (JSObj.values groups)).

(** The key an account total is grouped under, if any. *)
Definition groupKey (t : AccountTotal) : option string :=
  match signingMethod t with
  | Some (KeyringSigning _) =>
      match keyringId t with
      | Some id => if String.eqb id "" then None else Some id
      | None => None
      end
  | Some (LedgerSigning deviceID) => Some deviceID
  | None => Some "readOnly"
  end.

Definition underKey (k : string) (t : AccountTotal) : bool :=
  match groupKey t with
  | Some k' => String.eqb k' k
  | None => false
  end.

(** The keys of a list of account totals, in their order. *)
Fixpoint groupKeys (totals : list AccountTotal) : list string :=
  match totals with
  | [] => []
  | t :: rest =>
      match groupKey t with
      | Some k => k :: groupKeys rest
      | None => groupKeys rest
      end
  end.

End Switcher.

(** Account totals as pairs of a signing method and a keyring id, for
    running the switcher. *)
Definition pairTotals : SwitcherExternals :=
  {| AccountTotal := option SigningMethod * option string;
     signingMethod := fst;
     keyringId := snd |}.

Definition someTotals : list (@AccountTotal pairTotals) :=
  [ (Some (KeyringSigning (Some "k1")), Some "k1");
    (None, None);
    (Some (LedgerSigning "dev"), None);
    (Some (KeyringSigning None), None);
    (Some (KeyringSigning (Some "k1")), Some "k1") ].

(** A keyring account and a Ledger account whose device is named like a
    method every object inherits. *)
Definition inheritedTotals : list (@AccountTotal pairTotals) :=
  [ (Some (KeyringSigning (Some "k1")), Some "k1");
    (Some (LedgerSigning "toString"), None) ].

(** [l.map((x, i) => f(i, x))], counting from [i]. *)
Fixpoint mapFrom {A B : Type} (f : nat -> A -> B) (i : nat) (l : list A)
    : list B :=
  match l with
  | [] => []
  | x :: rest => f i x :: mapFrom f (S i) rest
  end.

(** ** Token balances from the provider *)

(** [SmartContractFungibleAsset] comes from the assets module; [getBalances]
    reads its contract address. *)
Class TokenExternals : Type := {
  SmartContractFungibleAsset : Type;
  contractAddressOf : SmartContractFungibleAsset -> string
}.

(** What the provider returns per token. *)
Record TokenBalance : Type := {
  tb_contractAddress : string;
  tb_amount : Z
}.

Section GetBalances.
Context {E : Externals} {T : TokenExternals}.

(** The balance [getBalances] builds; its asset is [undefined] when no
    token has the contract address. *)
Record FetchedBalance : Type := {
  fb_asset : option SmartContractFungibleAsset;
  fb_amount : Z;
  fb_address : HexString;
  fb_network : Network;
  fb_retrievedAt : Z;
  fb_dataSource : string
}.

(** The [reduce] that indexes the tokens by lower-cased contract address. *)
Definition assetByAddress (tokens : list SmartContractFungibleAsset)
    : JSObj.t SmartContractFungibleAsset :=
  fold_left
    (fun acc asset => JSObj.set (toLowerCase (contractAddressOf asset)) asset acc)
    tokens JSObj.empty.

(** [getBalances]; [getTokenBalances] stands for the awaited call to the
    provider, given the normalized address and contract addresses, and
    [now i] for the reading of [Date.now()] at its [i]-th call. *)
Definition getBalances
    (getTokenBalances : string -> list string -> JSError + list TokenBalance)
    (now : nat -> Z)
    (tokens : list SmartContractFungibleAsset)
    (address : HexString) (network : Network)
    : JSError + list FetchedBalance :=
  if (length tokens =? 0)%nat then inr []
  else
    andThen
      (getTokenBalances (normalizeEVMAddress address)
         (map (fun t => normalizeEVMAddress (contractAddressOf t)) tokens))
      (fun tokenBalances =>
         let byAddress := assetByAddress tokens in
         inr (fold_left
                (fun acc tokenDetail =>
                   acc ++
                   [ {| fb_asset :=
                          JSObj.get
                            (toLowerCase (tb_contractAddress tokenDetail))
                            byAddress;
                        fb_amount := tb_amount tokenDetail;
                        fb_address := address;
                        fb_network := network;
                        fb_retrievedAt := now (length acc);
                        fb_dataSource := "alchemy" |} ])%list
                tokenBalances [])).

(** The last of the tokens whose contract address is [c] up to case. *)
Definition lastTokenAt (tokens : list SmartContractFungibleAsset) (c : string)
    : option SmartContractFungibleAsset :=
  find (fun t => String.eqb (toLowerCase (contractAddressOf t)) (toLowerCase c))
    (rev tokens).

End GetBalances.

(** Tokens as pairs of a symbol and a contract address, for running
    [getBalances]. *)
Definition pairTokens : TokenExternals :=
  {| SmartContractFungibleAsset := string * string;
     contractAddressOf := snd |}.

(** ** Render hooks *)

(** [useRunOnFirstRender]: one render, from the value of [isFirst.current];
    the new value and how many times [func] was called. *)
Definition useRunOnFirstRender (isFirst : bool) : bool * nat :=
  if isFirst then (false, 1%nat) else (isFirst, 0%nat).

(** [useSkipFirstRenderEffect]: one run of its effect, from the value of
    [didMount.current]. *)
Definition useSkipFirstRenderEffect (didMount : bool) : bool * nat :=
  if didMount then (didMount, 1%nat) else (true, 0%nat).

(** [n] runs in a row of a hook step, adding up the calls. *)
Fixpoint runs (step : bool -> bool * nat) (n : nat) (ref : bool) : bool * nat :=
  match n with
  | O => (ref, 0%nat)
  | S n' =>
      let (ref', calls) := step ref in
      let (ref'', calls') := runs step n' ref' in
      (ref'', (calls + calls')%nat)
  end.

(** * Properties *)

(** ** Objects as maps *)

Module JSObjFacts.
Section Facts.
Context {V : Type}.
Implicit Types (k : string) (v : V) (o : JSObj.t V).

Lemma get_set_same k v o : JSObj.get k (JSObj.set k v o) = Some v.
Proof.
  induction o as [|[k' v'] o IH]; simpl.
  - now rewrite String.eqb_refl.
  - destruct (String.eqb k k') eqn:Ek; simpl.
    + now rewrite String.eqb_refl.
    + now rewrite Ek.
Qed.

Lemma get_set_other k k' v o :
  k <> k' -> JSObj.get k (JSObj.set k' v o) = JSObj.get k o.
Proof.
  intros Hne.
  induction o as [|[k2 v2] o IH]; simpl.
  - apply String.eqb_neq in Hne. now rewrite Hne.
  - destruct (String.eqb k' k2) eqn:Ek; simpl.
    + apply String.eqb_eq in Ek. subst k2.
      apply String.eqb_neq in Hne. now rewrite Hne.
    + destruct (String.eqb k k2); auto.
Qed.

Lemma get_remove_same k o : JSObj.get k (JSObj.remove k o) = None.
Proof.
  unfold JSObj.remove.
  induction o as [|[k' v'] o IH]; simpl; auto.
  destruct (String.eqb k k') eqn:Ek; simpl; auto.
  now rewrite Ek.
Qed.

Lemma get_remove_other k k' o :
  k <> k' -> JSObj.get k (JSObj.remove k' o) = JSObj.get k o.
Proof.
  intros Hne. unfold JSObj.remove.
  induction o as [|[k2 v2] o IH]; simpl; auto.
  destruct (String.eqb k' k2) eqn:Ek; simpl.
  - apply String.eqb_eq in Ek. subst k2.
    apply String.eqb_neq in Hne. now rewrite Hne.
  - now rewrite IH.
Qed.

Lemma get_set k k' v o :
  JSObj.get k (JSObj.set k' v o) =
  if String.eqb k k' then Some v else JSObj.get k o.
Proof.
  destruct (String.eqb k k') eqn:Ek.
  - apply String.eqb_eq in Ek. subst. apply get_set_same.
  - apply String.eqb_neq in Ek. now apply get_set_other.
Qed.

Lemma get_None_set k k' v o :
  JSObj.get k o = None -> JSObj.get k' o <> None ->
  JSObj.get k (JSObj.set k' v o) = None.
Proof.
  intros Hk Hk'. rewrite get_set_other; auto.
  intros ->. contradiction.
Qed.

End Facts.
End JSObjFacts.

(** ** The reducers that do not touch the name pool *)

Section LoadDelete.
Context {E : Externals}.

Lemma accountsData_withAccountsData (st : AccountState) ad :
  accountsData (withAccountsData st ad) = ad.
Proof. reflexivity. Qed.

Lemma loadAccount_tracked (st : AccountState) (a : string) :
  JSObj.get (normalizeEVMAddress a) (accountsData st) <> None ->
  loadAccount st a = st.
Proof.
  unfold loadAccount.
  destruct (JSObj.get _ _); [reflexivity | congruence].
Qed.

Lemma loadAccount_untracked (st : AccountState) (a : string) :
  JSObj.get (normalizeEVMAddress a) (accountsData st) = None ->
  loadAccount st a =
  withAccountsData st
    (JSObj.set (normalizeEVMAddress a) Loading (accountsData st)).
Proof. unfold loadAccount. now intros ->. Qed.

(** C7: [loadAccount] is idempotent; on an address already tracked, as a
    record or as the sentinel, it returns the state it was given, and on an
    untracked address it adds the sentinel under the normalized address. *)
Theorem loadAccount_idempotent (st : AccountState) (a : string) :
  loadAccount (loadAccount st a) a = loadAccount st a /\
  (forall e, JSObj.get (normalizeEVMAddress a) (accountsData st) = Some e ->
             loadAccount st a = st) /\
  (JSObj.get (normalizeEVMAddress a) (accountsData st) = None ->
   loadAccount st a =
     withAccountsData st
       (JSObj.set (normalizeEVMAddress a) Loading (accountsData st)) /\
   JSObj.get (normalizeEVMAddress a) (accountsData (loadAccount st a)) =
     Some Loading).
Proof.
  split; [|split].
  - destruct (JSObj.get (normalizeEVMAddress a) (accountsData st)) eqn:Hg.
    + rewrite (loadAccount_tracked st a) by congruence.
      apply loadAccount_tracked. congruence.
    + apply loadAccount_tracked.
      rewrite (loadAccount_untracked st a Hg), accountsData_withAccountsData.
      rewrite JSObjFacts.get_set_same. discriminate.
  - intros e He. apply loadAccount_tracked. congruence.
  - intros Hg. rewrite (loadAccount_untracked st a Hg). split; auto.
    rewrite accountsData_withAccountsData. apply JSObjFacts.get_set_same.
Qed.

End LoadDelete.

(** ** Balance updates and untracked addresses *)

Section BalanceUpdates.
Context {E : Externals}.

Lemma bind_inr {A B : Type} (c : M A) (k : A -> M B) pool pool' a :
  c pool = (pool', inr a) -> bind c k pool = k a pool'.
Proof. unfold bind. now intros ->. Qed.

Lemma bind_inl {A B : Type} (c : M A) (k : A -> M B) pool pool' e :
  c pool = (pool', inl e) -> bind c k pool = (pool', inl e).
Proof. unfold bind. now intros ->. Qed.

Lemma bind_inv {A B : Type} (c : M A) (k : A -> M B) pool pool2 b :
  bind c k pool = (pool2, inr b) ->
  exists pool1 a, c pool = (pool1, inr a) /\ k a pool1 = (pool2, inr b).
Proof.
  unfold bind. destruct (c pool) as [p1 [e|a]]; intros H.
  - discriminate.
  - eauto.
Qed.

Lemma applyBalanceUpdate_untracked ad u pool :
  JSObj.get (updateKey u) ad = None ->
  applyBalanceUpdate ad u pool = (pool, inr ad).
Proof. unfold applyBalanceUpdate, updateKey. now intros ->. Qed.

(** A balance update only ever writes under a key that is already there. *)
Lemma applyBalanceUpdate_absent ad u pool pool' ad' k :
  JSObj.get k ad = None ->
  applyBalanceUpdate ad u pool = (pool', inr ad') ->
  JSObj.get k ad' = None.
Proof.
  intros Hk. unfold applyBalanceUpdate.
  destruct (JSObj.get (normalizeEVMAddress (ab_address u)) ad)
    as [[|d]|] eqn:Hu.
  - intros H. apply bind_inv in H. destruct H as (p1 & d & _ & H).
    injection H as _ <-.
    apply JSObjFacts.get_None_set; congruence.
  - intros H. injection H as _ <-.
    apply JSObjFacts.get_None_set; congruence.
  - intros H. injection H as _ <-. exact Hk.
Qed.

Lemma forEachBalance_absent batch : forall ad pool pool' ad' k,
  JSObj.get k ad = None ->
  forEachBalance ad batch pool = (pool', inr ad') ->
  JSObj.get k ad' = None.
Proof.
  induction batch as [|u batch IH]; simpl; intros ad pool pool' ad' k Hk H.
  - injection H as _ <-. exact Hk.
  - apply bind_inv in H. destruct H as (p1 & ad1 & H1 & H2).
    eapply IH; [|exact H2].
    eapply applyBalanceUpdate_absent; eauto.
Qed.

Lemma forEachBalance_skip b1 u b2 : forall ad pool,
  JSObj.get (updateKey u) ad = None ->
  forEachBalance ad (b1 ++ u :: b2) pool = forEachBalance ad (b1 ++ b2) pool.
Proof.
  induction b1 as [|x b1 IH]; simpl; intros ad pool Hk.
  - erewrite bind_inr by (now apply applyBalanceUpdate_untracked).
    reflexivity.
  - destruct (applyBalanceUpdate ad x pool) as [p1 [e|ad1]] eqn:Hx.
    + now rewrite !(bind_inl _ _ _ _ _ Hx).
    + rewrite !(bind_inr _ _ _ _ _ Hx).
      apply IH. eapply applyBalanceUpdate_absent; eauto.
Qed.

Lemma updateAccountBalance_inv st batch pool pool' st' :
  updateAccountBalance st batch pool = (pool', inr st') ->
  exists ad,
    forEachBalance (accountsData st) batch pool = (pool', inr ad) /\
    st' = withAssets (withAccountsData st ad)
            (combineAssets (combinedAccountBalances ad)).
Proof.
  unfold updateAccountBalance. intros H.
  apply bind_inv in H. destruct H as (p1 & ad & H1 & H2).
  injection H2 as <- <-. eauto.
Qed.

Lemma updateAccountBalance_absent st batch pool pool' st' k :
  JSObj.get k (accountsData st) = None ->
  updateAccountBalance st batch pool = (pool', inr st') ->
  JSObj.get k (accountsData st') = None.
Proof.
  intros Hk H. apply updateAccountBalance_inv in H.
  destruct H as (ad & H & ->). simpl.
  eapply forEachBalance_absent; eauto.
Qed.

(** C10: a balance of a batch whose normalized address has no entry in
    [accountsData] is discarded: the batch behaves as the batch without it
    (so no record is created from it and the recomputed combined portfolio
    has nothing of it), and the resulting [accountsData] still has no entry
    for that address. *)
Theorem untracked_balance_discarded
    (st : AccountState) (b1 b2 : list AccountBalance) (u : AccountBalance)
    (pool : Pool) :
  JSObj.get (normalizeEVMAddress (ab_address u)) (accountsData st) = None ->
  updateAccountBalance st (b1 ++ u :: b2) pool =
    updateAccountBalance st (b1 ++ b2) pool /\
  (forall pool' st',
     updateAccountBalance st (b1 ++ u :: b2) pool = (pool', inr st') ->
     JSObj.get (normalizeEVMAddress (ab_address u)) (accountsData st') = None).
Proof.
  intros Hk. split.
  - unfold updateAccountBalance, bind.
    now rewrite (forEachBalance_skip b1 u b2 _ _ Hk).
  - intros pool' st' H.
    eapply updateAccountBalance_absent; eauto.
Qed.

End BalanceUpdates.

(** ** Deleting an address that is being loaded *)

Section Deletion.
Context {E : Externals}.

Lemma withAccountsData_same (st : AccountState) :
  withAccountsData st (accountsData st) = st.
Proof. now destruct st. Qed.

Lemma deleteAccount_tracked (st : AccountState) (a : string) :
  normalizeIdempotent ->
  JSObj.get (normalizeEVMAddress a) (accountsData st) <> None ->
  deleteAccount st a =
  withAccountsData st
    (JSObj.remove (normalizeEVMAddress a) (accountsData st)).
Proof.
  intros Hidem Hg. unfold deleteAccount. rewrite Hidem.
  destruct (JSObj.get _ _); [reflexivity | congruence].
Qed.

(** C1, as the code has it: deleting an address that is only the sentinel
    removes its entry, and a balance update for that address afterwards is
    discarded; no record is created, the name pool is left as it was, and
    the address stays untracked whatever the batch. *)
Theorem deleted_loading_stays_untracked
    (st : AccountState) (a : string) (pool : Pool) :
  normalizeIdempotent ->
  JSObj.get (normalizeEVMAddress a) (accountsData st) = Some Loading ->
  let st1 := deleteAccount st a in
  JSObj.get (normalizeEVMAddress a) (accountsData st1) = None /\
  (forall u,
     normalizeEVMAddress (ab_address u) = normalizeEVMAddress a ->
     updateAccountBalance st1 [u] pool =
       (pool,
        inr (withAssets st1
               (combineAssets (combinedAccountBalances (accountsData st1)))))) /\
  (forall batch pool' st2,
     updateAccountBalance st1 batch pool = (pool', inr st2) ->
     JSObj.get (normalizeEVMAddress a) (accountsData st2) = None).
Proof.
  intros Hidem Hg st1.
  assert (Habs : JSObj.get (normalizeEVMAddress a) (accountsData st1) = None).
  { unfold st1. rewrite deleteAccount_tracked by (auto; congruence).
    simpl. apply JSObjFacts.get_remove_same. }
  split; [exact Habs|split].
  - intros u Hu. unfold updateAccountBalance. simpl.
    erewrite bind_inr.
    2:{ erewrite bind_inr.
        2:{ apply applyBalanceUpdate_untracked. unfold updateKey.
            now rewrite Hu. }
        reflexivity. }
    unfold ret. now rewrite withAccountsData_same.
  - intros batch pool' st2 H.
    eapply updateAccountBalance_absent; eauto.
Qed.

End Deletion.

Lemma lower_ascii_idempotent (c : ascii) :
  lower_ascii (lower_ascii c) = lower_ascii c.
Proof.
  destruct c as [[] [] [] [] [] [] [] []]; reflexivity.
Qed.

Lemma toLowerCase_idempotent (s : string) :
  toLowerCase (toLowerCase s) = toLowerCase s.
Proof.
  induction s as [|c s IH]; simpl; [reflexivity|].
  now rewrite lower_ascii_idempotent, IH.
Qed.

Lemma hexExternals_normalizeIdempotent :
  @normalizeIdempotent hexExternals.
Proof. intros a. apply toLowerCase_idempotent. Qed.

Section DeletionExamples.
#[local] Existing Instance hexExternals.

(** The state [{ "0xab": "loading" }]: after [deleteAccount("0xAB")], the
    update [{ address: "0xab", ETH: 5 }] returns a state with no entry for
    0xab, no asset, and the pool as it was. *)
Lemma deleted_loading_not_recreated :
  updateAccountBalance (deleteAccount oneLoading "0xAB")
    [balanceFor "0xab" "ETH" 5] freshPool =
  (freshPool, inr initialState) /\
  JSObj.get "0xab" (accountsData initialState) = None.
Proof. split; reflexivity. Qed.

Lemma deleted_loading_stays_untracked_witness :
  let st1 := deleteAccount oneLoading "0xAB" in
  JSObj.get "0xab" (accountsData st1) = None /\
  (forall u,
     toLowerCase (ab_address u) = "0xab" ->
     updateAccountBalance st1 [u] freshPool =
       (freshPool,
        inr (withAssets st1
               (combineAssets (combinedAccountBalances (accountsData st1)))))) /\
  (forall batch pool' st2,
     updateAccountBalance st1 batch freshPool = (pool', inr st2) ->
     JSObj.get "0xab" (accountsData st2) = None).
Proof.
  apply (deleted_loading_stays_untracked oneLoading "0xAB" freshPool).
  - exact hexExternals_normalizeIdempotent.
  - reflexivity.
Defined.

Lemma untracked_balance_discarded_witness :
  updateAccountBalance twoLoading
    ([balanceFor "0xab" "ETH" 5] ++ balanceFor "0xef" "ETH" 9
       :: [balanceFor "0xcd" "ETH" 7]) freshPool =
    updateAccountBalance twoLoading
      ([balanceFor "0xab" "ETH" 5] ++ [balanceFor "0xcd" "ETH" 7]) freshPool /\
  (forall pool' st',
     updateAccountBalance twoLoading
       ([balanceFor "0xab" "ETH" 5] ++ balanceFor "0xef" "ETH" 9
          :: [balanceFor "0xcd" "ETH" 7]) freshPool = (pool', inr st') ->
     JSObj.get "0xef" (accountsData st') = None).
Proof.
  apply (untracked_balance_discarded twoLoading
           [balanceFor "0xab" "ETH" 5] [balanceFor "0xcd" "ETH" 7]
           (balanceFor "0xef" "ETH" 9) freshPool).
  reflexivity.
Defined.

End DeletionExamples.

(** ** The generated identity of a record *)

Section Identity.
Context {E : Externals}.

Lemma identityKept_set_other k d ad k' e :
  k <> k' -> identityKept k d ad -> identityKept k d (JSObj.set k' e ad).
Proof.
  intros Hne (d' & Hg & Hn & Ha). exists d'.
  rewrite JSObjFacts.get_set_other; auto.
Qed.

Lemma identityKept_set_same k d ad d2 :
  defaultName d2 = defaultName d -> defaultAvatar d2 = defaultAvatar d ->
  identityKept k d (JSObj.set k (Ready d2) ad).
Proof.
  intros Hn Ha. exists d2. now rewrite JSObjFacts.get_set_same.
Qed.

Lemma applyBalanceUpdate_identity ad u pool pool' ad' k d :
  identityKept k d ad ->
  applyBalanceUpdate ad u pool = (pool', inr ad') ->
  identityKept k d ad'.
Proof.
  intros Hk. unfold applyBalanceUpdate.
  destruct (string_dec k (normalizeEVMAddress (ab_address u))) as [<-|Hne].
  - destruct Hk as (d' & Hg & Hn & Ha). rewrite Hg.
    intros H. injection H as _ <-.
    now apply identityKept_set_same.
  - destruct (JSObj.get (normalizeEVMAddress (ab_address u)) ad)
      as [[|d1]|] eqn:Hu; intros H.
    + apply bind_inv in H. destruct H as (p1 & d2 & _ & H).
      injection H as _ <-. now apply identityKept_set_other.
    + injection H as _ <-. now apply identityKept_set_other.
    + injection H as _ <-. exact Hk.
Qed.

Lemma forEachBalance_identity batch : forall ad pool pool' ad' k d,
  identityKept k d ad ->
  forEachBalance ad batch pool = (pool', inr ad') ->
  identityKept k d ad'.
Proof.
  induction batch as [|u batch IH]; simpl; intros ad pool pool' ad' k d Hk H.
  - injection H as _ <-. exact Hk.
  - apply bind_inv in H. destruct H as (p1 & ad1 & H1 & H2).
    eapply IH; [|exact H2].
    eapply applyBalanceUpdate_identity; eauto.
Qed.

Lemma ensUpdate_identity (st : AccountState) key network count
    (attach : AccountData -> ENSInfo) pool pool' st' k d entry :
  JSObj.get key (accountsData st) = Some entry ->
  identityKept k d (accountsData st) ->
  (baseAccountData <- getOrCreateAccountData (Some entry) key network count ;;
   ret (withAccountsData st
          (JSObj.set key
             (Ready (withEns baseAccountData (attach baseAccountData)))
             (accountsData st)))) pool = (pool', inr st') ->
  identityKept k d (accountsData st').
Proof.
  intros Hentry Hk H.
  apply bind_inv in H. destruct H as (p1 & base & Hbase & H).
  injection H as _ <-. simpl.
  destruct (string_dec k key) as [->|Hne].
  - destruct Hk as (d' & Hg & Hn & Ha).
    rewrite Hentry in Hg. injection Hg as ->.
    simpl in Hbase. injection Hbase as _ <-.
    now apply identityKept_set_same.
  - now apply identityKept_set_other.
Qed.

Lemma reducer_identity (st : AccountState) (act : Action) pool pool' st' k d :
  isDelete act = false ->
  sameIdentityAt k d st ->
  accountSliceReducer st act pool = (pool', inr st') ->
  sameIdentityAt k d st'.
Proof.
  intros Hact Hk.
  change (identityKept k d (accountsData st)) in Hk.
  change (accountSliceReducer st act pool = (pool', inr st') ->
          identityKept k d (accountsData st')).
  destruct act as [x|x|batch|x n nm|x n av]; simpl; intros H;
    try discriminate Hact.
  - injection H as _ <-. unfold loadAccount.
    destruct (JSObj.get (normalizeEVMAddress x) (accountsData st)) eqn:Hx;
      [exact Hk|].
    simpl. apply identityKept_set_other; auto.
    intros ->. destruct Hk as (d' & Hg & _). congruence.
  - apply updateAccountBalance_inv in H. destruct H as (ad & H & ->).
    simpl. eapply forEachBalance_identity; eauto.
  - unfold updateAccountName in H.
    destruct (JSObj.get (normalizeEVMAddress x) (accountsData st)) eqn:Hx.
    + eapply (ensUpdate_identity st _ _ _
                (fun b => {| ens_name := Some nm;
                             ens_avatarURL := ens_avatarURL (ens b) |}));
        eauto.
    + injection H as _ <-. exact Hk.
  - unfold updateENSAvatar in H.
    destruct (JSObj.get (normalizeEVMAddress x) (accountsData st)) eqn:Hx.
    + eapply (ensUpdate_identity st _ _ _
                (fun b => {| ens_name := ens_name (ens b);
                             ens_avatarURL := Some av |}));
        eauto.
    + injection H as _ <-. exact Hk.
Qed.

(** C9: along any sequence of [updateAccountBalance], [updateAccountName],
    [updateENSAvatar] and [loadAccount] dispatches, a record that exists
    keeps the [defaultName] and [defaultAvatar] it has. *)
Theorem default_identity_immutable (actions : list Action) :
  forall (st : AccountState) (pool pool' : Pool) (st' : AccountState)
         (k : string) (d : AccountData),
  forallb (fun a => negb (isDelete a)) actions = true ->
  JSObj.get k (accountsData st) = Some (Ready d) ->
  dispatchAll st actions pool = (pool', inr st') ->
  exists d',
    JSObj.get k (accountsData st') = Some (Ready d') /\
    defaultName d' = defaultName d /\
    defaultAvatar d' = defaultAvatar d.
Proof.
  intros st pool pool' st' k d Hacts Hg.
  assert (Hk : sameIdentityAt k d st) by (exists d; auto).
  clear Hg. revert st pool Hk.
  induction actions as [|a actions IH]; simpl; intros st pool Hk H.
  - injection H as _ <-. exact Hk.
  - simpl in Hacts. apply andb_true_iff in Hacts. destruct Hacts as [Ha Hacts].
    apply bind_inv in H. destruct H as (p1 & st1 & H1 & H2).
    eapply (IH Hacts); [|exact H2].
    eapply reducer_identity; eauto.
    now destruct (isDelete a).
Qed.

End Identity.

Section IdentityExamples.
#[local] Existing Instance hexExternals.

Lemma default_identity_immutable_witness :
  exists pool' st',
    dispatchAll oneReady someActions freshPool = (pool', inr st') /\
    exists d',
      JSObj.get "0xab" (accountsData st') = Some (Ready d') /\
      defaultName d' = defaultName topaRecord /\
      defaultAvatar d' = defaultAvatar topaRecord.
Proof.
  eexists. eexists. split.
  - reflexivity.
  - eapply default_identity_immutable
      with (actions := someActions) (st := oneReady) (pool := freshPool);
      reflexivity.
Defined.

End IdentityExamples.

(** ** Attaching an ENS name or avatar *)

Section EnsUpdates.
Context {E : Externals}.

(** C8: [updateAccountName] and [updateENSAvatar] return the state they
    were given when the normalized address is not tracked.  On the sentinel
    they build the record with the very [newAccountData] call a balance
    update makes (same key, same count of other keys, same pool), failing
    when it fails, and store it under the key with the field attached; on a
    record they store that record with the field attached.  Attaching a name
    sets [ens.name] to it and keeps [ens.avatarURL]; attaching an avatar sets
    [ens.avatarURL] to it and keeps [ens.name]; the address, network,
    balances and generated identity of the record, the other entries and the
    rest of the state are left as they were. *)
Theorem ens_updates
    (st : AccountState) (a : HexString) (n : Network)
    (name : DomainName) (avatar : URI) (pool : Pool) :
  let key := normalizeEVMAddress a in
  let ad := accountsData st in
  let fresh := newAccountData key n (otherKeysCount key ad) pool in
  let stored (d' : AccountData) : AccountState :=
    {| account := account st;
       accountLoading := accountLoading st;
       hasAccountError := hasAccountError st;
       accountsData := JSObj.set key (Ready d') ad;
       combinedData := combinedData st |} in
  let named (d : AccountData) : AccountData :=
    {| address := address d; network := network d;
       balances := balances d;
       ens := {| ens_name := Some name;
                 ens_avatarURL := ens_avatarURL (ens d) |};
       defaultName := defaultName d; defaultAvatar := defaultAvatar d |} in
  let pictured (d : AccountData) : AccountData :=
    {| address := address d; network := network d;
       balances := balances d;
       ens := {| ens_name := ens_name (ens d);
                 ens_avatarURL := Some avatar |};
       defaultName := defaultName d; defaultAvatar := defaultAvatar d |} in
  (JSObj.get key ad = None ->
     updateAccountName st a n name pool = (pool, inr st) /\
     updateENSAvatar st a n avatar pool = (pool, inr st)) /\
  (JSObj.get key ad = Some Loading ->
     (forall u,
        normalizeEVMAddress (ab_address u) = key -> ab_network u = n ->
        applyBalanceUpdate ad u pool =
          match fresh with
          | (pool', inr d) =>
              (pool',
               inr (JSObj.set key
                      (Ready {| address := address d;
                                network := network d;
                                balances :=
                                  [(symbol (asset (assetAmount u)), u)];
                                ens := ens d;
                                defaultName := defaultName d;
                                defaultAvatar := defaultAvatar d |})
                      ad))
          | (pool', inl e) => (pool', inl e)
          end) /\
     updateAccountName st a n name pool =
       match fresh with
       | (pool', inr d) => (pool', inr (stored (named d)))
       | (pool', inl e) => (pool', inl e)
       end /\
     updateENSAvatar st a n avatar pool =
       match fresh with
       | (pool', inr d) => (pool', inr (stored (pictured d)))
       | (pool', inl e) => (pool', inl e)
       end /\
     (forall pool' d, fresh = (pool', inr d) ->
        ens_name (ens d) = None /\ ens_avatarURL (ens d) = None)) /\
  (forall d, JSObj.get key ad = Some (Ready d) ->
     updateAccountName st a n name pool =
       (pool, inr (stored (named d))) /\
     updateENSAvatar st a n avatar pool =
       (pool, inr (stored (pictured d)))) /\
  (forall d,
     ens_name (ens (named d)) = Some name /\
     ens_avatarURL (ens (named d)) = ens_avatarURL (ens d) /\
     ens_name (ens (pictured d)) = ens_name (ens d) /\
     ens_avatarURL (ens (pictured d)) = Some avatar /\
     forall d', d' = named d \/ d' = pictured d ->
       address d' = address d /\
       network d' = network d /\
       balances d' = balances d /\
       defaultName d' = defaultName d /\
       defaultAvatar d' = defaultAvatar d) /\
  (forall d',
     JSObj.get key (accountsData (stored d')) = Some (Ready d') /\
     (forall k, k <> key ->
        JSObj.get k (accountsData (stored d')) = JSObj.get k ad) /\
     account (stored d') = account st /\
     accountLoading (stored d') = accountLoading st /\
     hasAccountError (stored d') = hasAccountError st /\
     combinedData (stored d') = combinedData st).
Proof.
  intros key ad fresh stored named pictured.
  unfold updateAccountName, updateENSAvatar.
  fold key. fold ad.
  split; [|split; [|split; [|split]]].
  - intros ->. split; reflexivity.
  - intros Hg. rewrite Hg. split; [|split; [|split]].
    + intros u Hu Hn. unfold applyBalanceUpdate. rewrite Hu, Hg, Hn.
      unfold bind. fold fresh.
      destruct fresh as [p [e|d]]; reflexivity.
    + simpl. unfold bind. fold fresh.
      destruct fresh as [p [e|d]]; reflexivity.
    + simpl. unfold bind. fold fresh.
      destruct fresh as [p [e|d]]; reflexivity.
    + intros pool' d. unfold fresh, newAccountData.
      destruct (BigInt key); [|discriminate].
      destruct (length pool =? 0)%nat; [discriminate|].
      destruct (array_get pool _); [|discriminate].
      intros H. injection H as _ <-. split; reflexivity.
  - intros d Hg. rewrite Hg. split; reflexivity.
  - intros d. repeat (split; [reflexivity|]).
    intros d' [->| ->]; repeat split.
  - intros d'. split; [apply JSObjFacts.get_set_same|].
    split; [|repeat split].
    intros k Hk. now apply JSObjFacts.get_set_other.
Qed.

End EnsUpdates.

Section EnsExamples.
#[local] Existing Instance hexExternals.

(** A name for an address that has a record: only [ens.name] changes. *)
Example name_attached_to_record :
  updateAccountName oneReady "0xAB" "mainnet" "topa.eth" freshPool =
  (freshPool,
   inr (withAccountsData initialState
          [("0xab",
            Ready {| address := "0xab"; network := "mainnet";
                     balances := [];
                     ens := {| ens_name := Some "topa.eth";
                               ens_avatarURL := None |};
                     defaultName := "Topa";
                     defaultAvatar := "./images/avatars/topa@2x.png" |});
           ("0xcd", Loading)])).
Proof. vm_compute. reflexivity. Qed.

(** An avatar for an address that is being loaded: the record is created,
    its name taken from the pool, and the avatar attached. *)
Example avatar_attached_on_sentinel :
  updateENSAvatar twoLoading "0xCD" "mainnet" "ipfs://avatar" freshPool =
  (map Some
     ["Topa"; "Phoenix"; "Matilda"; "Sirius"; "Atos"; "Sport"; "Lola"; "Foz"],
   inr (withAccountsData initialState
          [("0xab", Loading);
           ("0xcd",
            Ready {| address := "0xcd"; network := "mainnet";
                     balances := [];
                     ens := {| ens_name := None;
                               ens_avatarURL := Some "ipfs://avatar" |};
                     defaultName := "Topa";
                     defaultAvatar := "./images/avatars/topa@2x.png" |})])).
Proof. vm_compute. reflexivity. Qed.

(** A name for an address that is not tracked: nothing happens. *)
Example name_for_untracked_address :
  updateAccountName oneReady "0xEF" "mainnet" "nobody.eth" freshPool =
  (freshPool, inr oneReady).
Proof. reflexivity. Qed.

End EnsExamples.

(** ** Identity generation *)

Section Arrays.
Context {A : Type}.

Lemma removeAt_length (n : nat) (l : list A) :
  n < length l -> S (length (removeAt n l)) = length l.
Proof.
  intros Hn. unfold removeAt.
  rewrite length_app, length_firstn, length_skipn. lia.
Qed.

Lemma removeAt_map {B : Type} (f : A -> B) (n : nat) (l : list A) :
  removeAt n (map f l) = map f (removeAt n l).
Proof.
  unfold removeAt. now rewrite map_app, firstn_map, skipn_map.
Qed.

Lemma removeAt_perm (n : nat) (l : list A) (x : A) :
  nth_error l n = Some x -> Permutation (x :: removeAt n l) l.
Proof.
  intros Hx. unfold removeAt.
  rewrite <- (firstn_skipn_middle n l Hx) at 3.
  apply Permutation_middle.
Qed.

Lemma splice1_at (n : nat) (l : list A) :
  n < length l -> splice1 (Z.of_nat n) l = removeAt n l.
Proof.
  intros Hn. unfold splice1.
  destruct (Z.ltb_spec (Z.of_nat n) 0); [lia|].
  now rewrite Z.min_l, Nat2Z.id by lia.
Qed.

Lemma splice1_length (start : Z) (l : list A) :
  (- Z.of_nat (length l) < start < Z.of_nat (length l))%Z ->
  S (length (splice1 start l)) = length l.
Proof.
  intros Hs. unfold splice1. apply removeAt_length.
  destruct (Z.ltb_spec start 0); lia.
Qed.

Lemma array_get_map_Some (n : nat) (l : list A) :
  array_get (map Some l) (Z.of_nat n) = nth_error l n.
Proof.
  unfold array_get.
  destruct (Z.ltb_spec (Z.of_nat n) 0); [lia|].
  rewrite Nat2Z.id, nth_error_map.
  now destruct (nth_error l n).
Qed.

End Arrays.

Section IdentityGeneration.
Context {E : Externals}.

Lemma skip_lt (count len : nat) : len <> 0%nat -> (count mod len < len)%nat.
Proof. intros H. now apply Nat.mod_upper_bound. Qed.

(** The index [newAccountData] computes stays inside the array, counted
    from either end. *)
Lemma defaultNameIndex_bounds (z : Z) (count len : nat) :
  len <> 0%nat ->
  let skip := (count mod len)%nat in
  (- Z.of_nat len
   < Z.of_nat skip + Z.rem z (Z.of_nat (len - skip))
   < Z.of_nat len)%Z.
Proof.
  intros Hlen skip.
  pose proof (skip_lt count len Hlen) as Hskip. fold skip in Hskip.
  assert (Hb : Z.of_nat (len - skip) <> 0%Z) by lia.
  pose proof (Z.rem_bound_abs z _ Hb) as Hr.
  lia.
Qed.

(** Every call leaves the pool with the number of entries it had. *)
Lemma newAccountData_length address network count pool :
  length (fst (newAccountData address network count pool)) = length pool.
Proof.
  unfold newAccountData.
  destruct (BigInt address) as [z|]; [|reflexivity].
  destruct (Nat.eqb_spec (length pool) 0) as [|Hlen]; [reflexivity|].
  pose proof (defaultNameIndex_bounds z count (length pool) Hlen) as Hb.
  cbv zeta in Hb.
  pose proof (splice1_length _ pool Hb) as Hs.
  destruct (array_get pool _); simpl; exact Hs.
Qed.

(** What [newAccountData] does on a pool of names, for an address that reads
    as the unsigned integer [z]. *)
Lemma newAccountData_on_names
    (names : list string) (address : HexString) (network : Network)
    (N : nat) (z : Z) :
  BigInt address = Some z -> (0 <= z)%Z -> names <> [] ->
  let poolSize := length names in
  let skip := (N mod poolSize)%nat in
  let index := (skip + Z.to_nat (z mod Z.of_nat (poolSize - skip)))%nat in
  exists name,
    nth_error names index = Some name /\
    newAccountData address network N (map Some names) =
      (map Some (name :: removeAt index names),
       inr {| address := address;
              network := network;
              balances := JSObj.empty;
              ens := {| ens_name := None; ens_avatarURL := None |};
              defaultName := name;
              defaultAvatar :=
                "./images/avatars/" ++ toLowerCase name ++ "@2x.png" |}).
Proof.
  intros Hbig Hz Hne poolSize skip index.
  assert (Hlen : poolSize <> 0%nat).
  { unfold poolSize. destruct names; [congruence|discriminate]. }
  pose proof (skip_lt N poolSize Hlen) as Hskip. fold skip in Hskip.
  assert (Hdiv : (0 < Z.of_nat (poolSize - skip))%Z) by lia.
  pose proof (Z.mod_pos_bound z _ Hdiv) as Hmod.
  assert (Hidx : (index < poolSize)%nat) by (unfold index; lia).
  destruct (nth_error names index) as [name|] eqn:Hname.
  2:{ apply nth_error_None in Hname. fold poolSize in Hname. lia. }
  exists name. split; [reflexivity|].
  unfold newAccountData. rewrite Hbig, length_map. fold poolSize.
  destruct (Nat.eqb_spec poolSize 0) as [|_]; [contradiction|].
  fold skip.
  rewrite Z.rem_mod_nonneg by lia.
  replace (Z.of_nat skip + z mod Z.of_nat (poolSize - skip))%Z
    with (Z.of_nat index) by (unfold index; lia).
  rewrite array_get_map_Some, Hname.
  rewrite splice1_at by (rewrite length_map; exact Hidx).
  now rewrite removeAt_map.
Qed.

(** C3: on a pool of names, for an address that reads as the unsigned
    integer [z] and a count [N] of existing accounts, [newAccountData]
    takes the name at index [skip + z mod (poolSize - skip)] with
    [skip = N mod poolSize]: the pool is [before], that name, [after], with
    [before] of that length.  It leaves the pool as that name followed by
    [before] and [after], so with the entries it had, rearranged, and the
    name removed from its place; and it sets the avatar path from the
    lower-cased name. *)
Theorem newAccountData_selection
    (names : list string) (address : HexString) (network : Network)
    (N : nat) (z : Z) :
  BigInt address = Some z -> (0 <= z)%Z -> names <> [] ->
  let poolSize := length names in
  let skip := (N mod poolSize)%nat in
  let index := (skip + Z.to_nat (z mod Z.of_nat (poolSize - skip)))%nat in
  exists name before after,
    (index < poolSize)%nat /\
    nth_error names index = Some name /\
    names = (before ++ name :: after)%list /\
    length before = index /\
    newAccountData address network N (map Some names) =
      (map Some (name :: before ++ after),
       inr {| address := address;
              network := network;
              balances := JSObj.empty;
              ens := {| ens_name := None; ens_avatarURL := None |};
              defaultName := name;
              defaultAvatar :=
                "./images/avatars/" ++ toLowerCase name ++ "@2x.png" |}) /\
    length (fst (newAccountData address network N (map Some names))) =
      poolSize /\
    Permutation (name :: before ++ after) names /\
    (forall j, (j < index)%nat ->
       nth_error (name :: before ++ after) (S j) = nth_error names j) /\
    (forall j, (index < j)%nat ->
       nth_error (name :: before ++ after) j = nth_error names j).
Proof.
  intros Hbig Hz Hne poolSize skip index.
  destruct (newAccountData_on_names names address network N z Hbig Hz Hne)
    as (name & Hname & Hrun).
  cbv zeta in Hname, Hrun. fold poolSize skip index in Hname, Hrun.
  unfold removeAt in Hrun.
  assert (Hidx : (index < poolSize)%nat).
  { apply nth_error_Some. congruence. }
  pose proof (firstn_skipn_middle index names Hname) as Hsplit.
  assert (Hlen : length (firstn index names) = index).
  { rewrite length_firstn. fold poolSize. lia. }
  exists name, (firstn index names), (skipn (S index) names).
  split; [exact Hidx|]. split; [exact Hname|].
  split; [now rewrite Hsplit|]. split; [exact Hlen|].
  split; [exact Hrun|]. split.
  { rewrite Hrun. cbn [fst]. rewrite length_map.
    transitivity (length (firstn index names ++ name :: skipn (S index) names)).
    - cbn [length]. rewrite !length_app. cbn [length]. lia.
    - now rewrite Hsplit. }
  split.
  { rewrite <- Hsplit at 3. apply Permutation_middle. }
  split.
  - intros j Hj. cbn [nth_error].
    rewrite <- Hsplit at 3.
    rewrite !nth_error_app1 by lia. reflexivity.
  - intros j Hj. destruct j as [|j]; [lia|].
    transitivity
      (nth_error (firstn index names ++ name :: skipn (S index) names) (S j));
      [|now rewrite Hsplit].
    change (nth_error (name :: firstn index names ++ skipn (S index) names)
              (S j))
      with (nth_error (firstn index names ++ skipn (S index) names) j).
    rewrite !nth_error_app2 by lia. rewrite Hlen.
    replace (S j - index)%nat with (S (j - index)) by lia.
    reflexivity.
Qed.

(** On a pool that is a rearrangement of the default names, an address that
    reads as an unsigned integer gets one of them, and the pool stays such a
    rearrangement. *)
Lemma newAccountData_rearranges names address network count :
  Permutation names availableDefaultNames ->
  unsignedAddress address ->
  exists names' d,
    newAccountData address network count (map Some names) =
      (map Some names', inr d) /\
    Permutation names' availableDefaultNames /\
    In (defaultName d) availableDefaultNames.
Proof.
  intros Hperm (z & Hbig & Hz).
  assert (Hne : names <> []).
  { intros ->. apply Permutation_nil in Hperm. discriminate. }
  destruct (newAccountData_on_names names address network count z
              Hbig Hz Hne) as (name & Hname & Hrun).
  cbv zeta in Hname, Hrun.
  eexists. eexists. split; [exact Hrun|]. split.
  - etransitivity; [|exact Hperm]. now apply removeAt_perm.
  - change (In name availableDefaultNames).
    eapply Permutation_in; [exact Hperm|].
    eapply nth_error_In; eauto.
Qed.

Lemma createAccounts_rearranges calls : forall names,
  Permutation names availableDefaultNames ->
  Forall (fun c => unsignedAddress (fst (fst c))) calls ->
  exists names' ds,
    createAccounts calls (map Some names) = (map Some names', inr ds) /\
    Permutation names' availableDefaultNames /\
    length ds = length calls /\
    Forall (fun d => In (defaultName d) availableDefaultNames) ds.
Proof.
  induction calls as [|[[a n] c] calls IH]; intros names Hperm Hcalls.
  - exists names, []. simpl. auto.
  - inversion Hcalls as [|? ? Ha Hrest]; subst. simpl in Ha.
    destruct (newAccountData_rearranges names a n c Hperm Ha)
      as (names1 & d & Hrun & Hperm1 & Hin).
    destruct (IH names1 Hperm1 Hrest) as (names2 & ds & Hrun2 & Hperm2 & Hl & Hall).
    exists names2, (d :: ds). simpl.
    rewrite (bind_inr _ _ _ _ _ Hrun), (bind_inr _ _ _ _ _ Hrun2).
    split; [reflexivity|]. split; [exact Hperm2|]. split.
    + simpl. now rewrite Hl.
    + constructor; assumption.
Qed.

(** C4: a call to [newAccountData] on a pool of 8 entries leaves it with 8
    entries; and from the fresh pool, however many accounts are created for
    addresses that read as unsigned integers, every creation returns a
    record named with one of the 8 default names, the ninth included. *)
Theorem pool_keeps_eight_names :
  (forall address network count pool,
     length pool = 8%nat ->
     length (fst (newAccountData address network count pool)) = 8%nat) /\
  (forall calls,
     Forall (fun c => unsignedAddress (fst (fst c))) calls ->
     exists pool' ds,
       createAccounts calls freshPool = (pool', inr ds) /\
       length pool' = 8%nat /\
       length ds = length calls /\
       Forall (fun d => In (defaultName d) availableDefaultNames) ds /\
       (length calls = 9%nat ->
        exists ninth,
          nth_error ds 8 = Some ninth /\
          In (defaultName ninth) availableDefaultNames)).
Proof.
  split.
  - intros address network count pool Hlen.
    now rewrite newAccountData_length.
  - intros calls Hcalls.
    destruct (createAccounts_rearranges calls availableDefaultNames
                (Permutation_refl _) Hcalls)
      as (names' & ds & Hrun & Hperm & Hl & Hall).
    exists (map Some names'), ds. split; [exact Hrun|]. split.
    { rewrite length_map. now rewrite (Permutation_length Hperm). }
    split; [exact Hl|]. split; [exact Hall|].
    intros H9. destruct (nth_error ds 8) as [ninth|] eqn:Hn.
    + exists ninth. split; [reflexivity|].
      rewrite Forall_forall in Hall. apply Hall.
      eapply nth_error_In; eauto.
    + apply nth_error_None in Hn. lia.
Qed.

End IdentityGeneration.

Section GenerationExamples.
#[local] Existing Instance hexExternals.

Lemma newAccountData_selection_witness :
  exists name before after,
    (4 < 8)%nat /\
    nth_error availableDefaultNames 4 = Some name /\
    availableDefaultNames = (before ++ name :: after)%list /\
    length before = 4%nat /\
    newAccountData "0xab" "mainnet" 3 (map Some availableDefaultNames) =
      (map Some (name :: before ++ after),
       inr {| address := "0xab";
              network := "mainnet";
              balances := JSObj.empty;
              ens := {| ens_name := None; ens_avatarURL := None |};
              defaultName := name;
              defaultAvatar :=
                "./images/avatars/" ++ toLowerCase name ++ "@2x.png" |}) /\
    length (fst (newAccountData "0xab" "mainnet" 3
                   (map Some availableDefaultNames))) = 8%nat /\
    Permutation (name :: before ++ after) availableDefaultNames /\
    (forall j, (j < 4)%nat ->
       nth_error (name :: before ++ after) (S j) =
       nth_error availableDefaultNames j) /\
    (forall j, (4 < j)%nat ->
       nth_error (name :: before ++ after) j =
       nth_error availableDefaultNames j).
Proof.
  exact (newAccountData_selection availableDefaultNames "0xab" "mainnet" 3 171
           eq_refl ltac:(discriminate) ltac:(discriminate)).
Defined.

(** The same call, evaluated: the fifth name, Atos, is taken out of its
    place and put in front. *)
Example fifth_name_moved_to_front :
  newAccountData "0xab" "mainnet" 3 freshPool =
    (map Some
       ["Atos"; "Phoenix"; "Matilda"; "Sirius"; "Topa"; "Sport"; "Lola"; "Foz"],
     inr {| address := "0xab";
            network := "mainnet";
            balances := JSObj.empty;
            ens := {| ens_name := None; ens_avatarURL := None |};
            defaultName := "Atos";
            defaultAvatar := "./images/avatars/atos@2x.png" |}).
Proof. vm_compute. reflexivity. Qed.

(** Nine accounts created in a row, the [k]-th with [k] accounts before it:
    the ninth is given Lola again. *)
Example nine_accounts :
  match createAccounts
          [("0x01", "mainnet", 0%nat); ("0x02", "mainnet", 1%nat);
           ("0x03", "mainnet", 2%nat); ("0x04", "mainnet", 3%nat);
           ("0x05", "mainnet", 4%nat); ("0x06", "mainnet", 5%nat);
           ("0x07", "mainnet", 6%nat); ("0x08", "mainnet", 7%nat);
           ("0x09", "mainnet", 8%nat)] freshPool with
  | (pool, inr ds) => (pool, map defaultName ds)
  | (pool, inl _) => (pool, [])
  end =
  (map Some
     ["Lola"; "Atos"; "Phoenix"; "Sirius"; "Foz"; "Sport"; "Topa"; "Matilda"],
   ["Matilda"; "Topa"; "Sport"; "Foz"; "Sirius"; "Phoenix"; "Lola"; "Atos";
    "Lola"]).
Proof. vm_compute. reflexivity. Qed.

End GenerationExamples.

(** ** The combined portfolio *)

Module JSObjKeys.
Section Keys.
Context {V : Type}.
Implicit Types (k : string) (v : V) (o : JSObj.t V).

Lemma get_None_iff k o : JSObj.get k o = None <-> ~ In k (JSObj.keys o).
Proof.
  induction o as [|[k' v'] o IH]; simpl.
  - tauto.
  - destruct (String.eqb_spec k k') as [->|Hne].
    + split; [discriminate|]. intros H. exfalso. apply H. now left.
    + rewrite IH. split.
      * intros H [Heq|Hin]; [congruence|contradiction].
      * intros H Hin. apply H. now right.
Qed.

Lemma keys_set_present k v o :
  In k (JSObj.keys o) -> JSObj.keys (JSObj.set k v o) = JSObj.keys o.
Proof.
  induction o as [|[k' v'] o IH]; simpl; [tauto|].
  destruct (String.eqb_spec k k') as [->|Hne]; simpl; [reflexivity|].
  intros [Heq|Hin]; [congruence|]. now rewrite IH.
Qed.

Lemma keys_set_absent k v o :
  ~ In k (JSObj.keys o) ->
  JSObj.keys (JSObj.set k v o) = (JSObj.keys o ++ [k])%list.
Proof.
  induction o as [|[k' v'] o IH]; simpl; [reflexivity|].
  destruct (String.eqb_spec k k') as [->|Hne]; simpl.
  - intros H. exfalso. apply H. now left.
  - intros H. rewrite IH; [reflexivity|]. intros Hin. apply H. now right.
Qed.

Lemma NoDup_keys_set k v o :
  NoDup (JSObj.keys o) -> NoDup (JSObj.keys (JSObj.set k v o)).
Proof.
  intros Hnd. destruct (in_dec string_dec k (JSObj.keys o)) as [Hin|Hout].
  - now rewrite keys_set_present.
  - rewrite keys_set_absent by assumption.
    apply NoDup_app.
    + exact Hnd.
    + repeat constructor. simpl. tauto.
    + intros x Hx [<-|[]]. contradiction.
Qed.

Lemma Forall_set (P : string * V -> Prop) k v o :
  P (k, v) -> Forall P o -> Forall P (JSObj.set k v o).
Proof.
  intros Hkv. induction 1 as [|[k' v'] o Hx Ho IH]; simpl.
  - auto.
  - destruct (String.eqb k k'); auto.
Qed.

End Keys.
End JSObjKeys.

Section Combined.
Context {E : Externals}.

Lemma sumZ_app (l1 l2 : list Z) : sumZ (l1 ++ l2) = (sumZ l1 + sumZ l2)%Z.
Proof.
  unfold sumZ. induction l1 as [|x l1 IH]; simpl; [reflexivity|].
  rewrite IH. lia.
Qed.

Lemma amountOfSymbol_app s l1 l2 :
  amountOfSymbol s (l1 ++ l2) =
  (amountOfSymbol s l1 + amountOfSymbol s l2)%Z.
Proof. unfold amountOfSymbol. now rewrite map_app, sumZ_app. Qed.

Lemma amountOfSymbol_cons s a l :
  amountOfSymbol s (a :: l) =
  ((if String.eqb (symbol (asset a)) s then amount a else 0)
   + amountOfSymbol s l)%Z.
Proof. reflexivity. Qed.

(** [x || 0n] on a bigint is [x]. *)
Lemma accAmount_amountIn acc s :
  s <> "__proto__" -> accAmount acc s = amountIn (own acc) s.
Proof.
  intros Hs. unfold accAmount, amountIn.
  destruct (String.eqb_spec s "__proto__") as [|_]; [contradiction|].
  destruct (JSObj.get s (own acc)) as [a|]; [|reflexivity].
  destruct (Z.eqb_spec (amount a) 0); congruence.
Qed.

(** A balance of the asset named [__proto__] leaves the own properties of
    the accumulator as they are. *)
Lemma combineStep_own_proto acc a :
  symbol (asset a) = "__proto__" -> own (combineStep acc a) = own acc.
Proof. intros Ha. unfold combineStep. now rewrite Ha. Qed.

Lemma combineStep_own_other acc a :
  symbol (asset a) <> "__proto__" ->
  own (combineStep acc a) =
  JSObj.set (symbol (asset a))
    {| asset := asset a;
       amount := (amountIn (own acc) (symbol (asset a)) + amount a)%Z |}
    (own acc).
Proof.
  intros Ha. unfold combineStep.
  destruct (String.eqb_spec (symbol (asset a)) "__proto__") as [|_];
    [contradiction|].
  cbn [own]. now rewrite accAmount_amountIn.
Qed.

Lemma combineStep_amountIn acc a s :
  s <> "__proto__" ->
  amountIn (own (combineStep acc a)) s =
  (amountIn (own acc) s
   + (if String.eqb (symbol (asset a)) s then amount a else 0))%Z.
Proof.
  intros Hs.
  destruct (String.eqb_spec (symbol (asset a)) "__proto__") as [Ha|Ha].
  - rewrite combineStep_own_proto by assumption.
    destruct (String.eqb_spec (symbol (asset a)) s); [congruence|lia].
  - rewrite combineStep_own_other by assumption.
    unfold amountIn at 1.
    rewrite JSObjFacts.get_set, (String.eqb_sym s).
    destruct (String.eqb_spec (symbol (asset a)) s) as [<-|Hne].
    + reflexivity.
    + fold (amountIn (own acc) s). lia.
Qed.

Lemma combineStep_keyed acc a :
  keyedBySymbol (own acc) -> keyedBySymbol (own (combineStep acc a)).
Proof.
  intros H. unfold combineStep.
  destruct (String.eqb (symbol (asset a)) "__proto__"); cbn [own];
    [exact H|].
  now apply JSObjKeys.Forall_set.
Qed.

Lemma combineStep_NoDup acc a :
  NoDup (JSObj.keys (own acc)) ->
  NoDup (JSObj.keys (own (combineStep acc a))).
Proof.
  intros H. unfold combineStep.
  destruct (String.eqb (symbol (asset a)) "__proto__"); cbn [own];
    [exact H|].
  now apply JSObjKeys.NoDup_keys_set.
Qed.

Lemma combineStep_get_None acc a s :
  s <> "__proto__" ->
  JSObj.get s (own (combineStep acc a)) = None <->
  JSObj.get s (own acc) = None /\ symbol (asset a) <> s.
Proof.
  intros Hs.
  destruct (String.eqb_spec (symbol (asset a)) "__proto__") as [Ha|Ha].
  - rewrite combineStep_own_proto by assumption.
    split; [|tauto]. intros H. split; [exact H|congruence].
  - rewrite combineStep_own_other by assumption.
    rewrite JSObjFacts.get_set, (String.eqb_sym s).
    destruct (String.eqb_spec (symbol (asset a)) s) as [Heq|Hne].
    + split; [discriminate|]. intros [_ H]. contradiction.
    + tauto.
Qed.

(** [__proto__] never becomes an own property of the accumulator. *)
Lemma combineStep_no_proto_key acc a :
  JSObj.get "__proto__" (own acc) = None ->
  JSObj.get "__proto__" (own (combineStep acc a)) = None.
Proof.
  intros H.
  destruct (String.eqb_spec (symbol (asset a)) "__proto__") as [Ha|Ha].
  - now rewrite combineStep_own_proto.
  - rewrite combineStep_own_other by assumption.
    rewrite JSObjFacts.get_set_other by congruence. exact H.
Qed.

(** What the [reduce] leaves in its accumulator. *)
Lemma fold_combineStep l : forall acc,
  keyedBySymbol (own acc) -> NoDup (JSObj.keys (own acc)) ->
  JSObj.get "__proto__" (own acc) = None ->
  let acc' := fold_left combineStep l acc in
  keyedBySymbol (own acc') /\
  NoDup (JSObj.keys (own acc')) /\
  JSObj.get "__proto__" (own acc') = None /\
  (forall s, s <> "__proto__" ->
     amountIn (own acc') s = (amountIn (own acc) s + amountOfSymbol s l)%Z) /\
  (forall s, s <> "__proto__" ->
     (JSObj.get s (own acc') = None <->
      JSObj.get s (own acc) = None /\
      forall a, In a l -> symbol (asset a) <> s)).
Proof.
  induction l as [|x l IH]; intros acc Hk Hnd Hp; simpl.
  - split; [exact Hk|]. split; [exact Hnd|]. split; [exact Hp|]. split.
    + intros s _. unfold amountOfSymbol. simpl. lia.
    + intros s _. split.
      * intros H. split; [exact H|]. intros a [].
      * intros [H _]. exact H.
  - destruct (IH (combineStep acc x) (combineStep_keyed _ _ Hk)
                (combineStep_NoDup _ _ Hnd) (combineStep_no_proto_key _ _ Hp))
      as (Hk' & Hnd' & Hp' & Hsum & Hnone).
    split; [exact Hk'|]. split; [exact Hnd'|]. split; [exact Hp'|]. split.
    + intros s Hs.
      rewrite Hsum, combineStep_amountIn, amountOfSymbol_cons by assumption.
      lia.
    + intros s Hs. rewrite Hnone, combineStep_get_None by assumption. split.
      * intros [[Ha Hx] Hall]. split; [exact Ha|].
        intros a [<-|Hin]; auto.
      * intros [Ha Hall]. split; [split|].
        -- exact Ha.
        -- apply Hall. now left.
        -- intros a Hin. apply Hall. now right.
Qed.

Lemma find_values_keyed acc s :
  keyedBySymbol acc ->
  find (fun a => String.eqb (symbol (asset a)) s) (JSObj.values acc) =
  JSObj.get s acc.
Proof.
  induction 1 as [|[k a] acc Hx Hacc IH]; simpl; [reflexivity|].
  simpl in Hx. rewrite Hx, (String.eqb_sym k s).
  destruct (String.eqb s k); auto.
Qed.

Lemma symbols_values_keyed acc :
  keyedBySymbol acc ->
  map (fun a => symbol (asset a)) (JSObj.values acc) = JSObj.keys acc.
Proof.
  induction 1 as [|[k a] acc Hx Hacc IH]; simpl; [reflexivity|].
  simpl in Hx. now rewrite Hx, IH.
Qed.

(** The flattened balances carry, per asset, what the records hold. *)
Lemma amountOfSymbol_combinedAccountBalances s ad :
  amountOfSymbol s (combinedAccountBalances ad) = totalHeld s ad.
Proof.
  induction ad as [|[k e] ad IH]; [reflexivity|].
  change (combinedAccountBalances ((k, e) :: ad))
    with ((match e with
           | Loading => []
           | Ready d => map assetAmount (JSObj.values (balances d))
           end ++ combinedAccountBalances ad)%list).
  change (totalHeld s ((k, e) :: ad))
    with ((match e with
           | Loading => 0
           | Ready d => recordAmount s d
           end + totalHeld s ad)%Z).
  rewrite amountOfSymbol_app, IH. f_equal.
  destruct e as [|d]; [reflexivity|].
  unfold amountOfSymbol, recordAmount. now rewrite map_map.
Qed.

Lemma held_combinedAccountBalances s ad :
  held s ad <->
  exists a, In a (combinedAccountBalances ad) /\ symbol (asset a) = s.
Proof.
  unfold held, combinedAccountBalances. split.
  - intros (d & ab & Hd & Hab & Hs).
    exists (assetAmount ab). split; [|exact Hs].
    apply in_flat_map. exists (Ready d). split; [exact Hd|].
    now apply in_map.
  - intros (a & Hin & Hs).
    apply in_flat_map in Hin. destruct Hin as ([|d] & Hd & Ha); [contradiction|].
    apply in_map_iff in Ha. destruct Ha as (ab & <- & Hab).
    exists d, ab. auto.
Qed.

(** The portfolio [updateAccountBalance] computes from the records: an entry
    per asset other than the one named [__proto__], which has none. *)
Lemma combineAssets_correct ad :
  let l := combineAssets (combinedAccountBalances ad) in
  NoDup (map (fun a => symbol (asset a)) l) /\
  (forall s, s <> "__proto__" ->
     match find (fun a => String.eqb (symbol (asset a)) s) l with
     | Some a => amount a = totalHeld s ad /\ held s ad
     | None => ~ held s ad
     end) /\
  find (fun a => String.eqb (symbol (asset a)) "__proto__") l = None.
Proof.
  unfold combineAssets.
  destruct (fold_combineStep (combinedAccountBalances ad) emptyAccumulator
              (Forall_nil _) (NoDup_nil _) eq_refl)
    as (Hk & Hnd & Hp & Hsum & Hnone).
  cbv zeta. split; [|split].
  - now rewrite symbols_values_keyed.
  - intros s Hs. rewrite find_values_keyed by assumption.
    specialize (Hsum s Hs). specialize (Hnone s Hs).
    rewrite amountOfSymbol_combinedAccountBalances in Hsum.
    unfold amountIn in Hsum. simpl in Hsum.
    destruct (JSObj.get s _) as [a|] eqn:Hg.
    + split; [exact Hsum|].
      apply held_combinedAccountBalances.
      destruct (in_dec string_dec s
                  (map (fun a => symbol (asset a))
                     (combinedAccountBalances ad))) as [Hin|Hout].
      * apply in_map_iff in Hin. destruct Hin as (x & Hx & Hin). eauto.
      * assert (Some a = None); [|discriminate].
        apply Hnone. split; [reflexivity|].
        intros x Hx Hs'. apply Hout. apply in_map_iff. eauto.
    + intros Hheld. apply held_combinedAccountBalances in Hheld.
      destruct Hheld as (x & Hx & Hs').
      destruct Hnone as [Hnone _]. destruct (Hnone eq_refl) as [_ Hall].
      exact (Hall x Hx Hs').
  - rewrite find_values_keyed by assumption. exact Hp.
Qed.

End Combined.

(** ** The ERC-20 helpers *)

Section ERC20Facts.
Context {L : AbiLibrary}.

(** The [map] callback never throws: it returns the transfer of the log, or
    [undefined]. *)
Lemma transferOfLog_decoded (log : EVMLog) :
  transferOfLog log = inr (decodedTransfer log).
Proof.
  unfold transferOfLog, transferOfLog_try, decodedTransfer.
  destruct (decodeEventLog _ _ _ _) as [e|[[| |f] [| |t] [| |a]]];
    reflexivity.
Qed.

Lemma mapThrowing_total {A B : Type} (f : A -> JSError + B) (g : A -> B)
    (l : list A) :
  (forall x, f x = inr (g x)) -> mapThrowing f l = inr (map g l).
Proof.
  intros Hf. induction l as [|x l IH]; simpl; [reflexivity|].
  now rewrite Hf, IH.
Qed.

Lemma filterDefined_decoded (logs : list EVMLog) :
  filterDefined (map decodedTransfer logs) = transfersInOrder logs.
Proof.
  induction logs as [|log logs IH]; simpl; [reflexivity|].
  destruct (decodedTransfer log); now rewrite IH.
Qed.

Lemma transfersInOrder_app (l1 l2 : list EVMLog) :
  transfersInOrder (l1 ++ l2) =
  (transfersInOrder l1 ++ transfersInOrder l2)%list.
Proof.
  induction l1 as [|log l1 IH]; simpl; [reflexivity|].
  destruct (decodedTransfer log); simpl; now rewrite IH.
Qed.

Lemma decodedTransfer_None (log : EVMLog) :
  decodedTransfer log = None <->
  (exists e, decodeEventLog ERC20_INTERFACE ERC20_EVENTS_Transfer
               (data log) (topics log) = inl e) \/
  (exists decoded,
     decodeEventLog ERC20_INTERFACE ERC20_EVENTS_Transfer
       (data log) (topics log) = inr decoded /\
     ((forall f, decoded_from decoded <> Value f) \/
      (forall t, decoded_to decoded <> Value t) \/
      (forall a, decoded_amount decoded <> Value a))).
Proof.
  unfold decodedTransfer.
  destruct (decodeEventLog _ _ _ _) as [e|[fr to am]].
  - split; [eauto|reflexivity].
  - split.
    + intros H. right. eexists. split; [reflexivity|]. simpl.
      destruct fr as [| |f]; [left; discriminate | left; discriminate |].
      destruct to as [| |t];
        [right; left; discriminate | right; left; discriminate |].
      destruct am as [| |a];
        [right; right; discriminate | right; right; discriminate |].
      discriminate.
    + intros [[e He]|(dec & Hd & H)]; [discriminate|].
      injection Hd as <-. simpl in H.
      destruct fr as [| |f]; try reflexivity.
      destruct to as [| |t]; try reflexivity.
      destruct am as [| |a]; try reflexivity.
      destruct H as [H|[H|H]]; exfalso; eapply H; reflexivity.
Qed.

(** C5: [parseLogsForERC20Transfers] returns, for every list of logs and
    never raising; what it returns is the transfers of the logs in the
    order of the logs, a log contributing nothing when its decoding throws
    or one of [from], [to], [amount] is not there. *)
Theorem parseLogsForERC20Transfers_total (logs : list EVMLog) :
  parseLogsForERC20Transfers logs = inr (transfersInOrder logs) /\
  (forall l1 l2,
     transfersInOrder (l1 ++ l2) =
     (transfersInOrder l1 ++ transfersInOrder l2)%list) /\
  (forall log,
     transfersInOrder [log] =
     match decodedTransfer log with Some r => [r] | None => [] end) /\
  (forall log,
     decodedTransfer log = None <->
     (exists e, decodeEventLog ERC20_INTERFACE ERC20_EVENTS_Transfer
                  (data log) (topics log) = inl e) \/
     (exists decoded,
        decodeEventLog ERC20_INTERFACE ERC20_EVENTS_Transfer
          (data log) (topics log) = inr decoded /\
        ((forall f, decoded_from decoded <> Value f) \/
         (forall t, decoded_to decoded <> Value t) \/
         (forall a, decoded_amount decoded <> Value a)))).
Proof.
  split; [|split; [|split]].
  - unfold parseLogsForERC20Transfers.
    rewrite (mapThrowing_total transferOfLog decodedTransfer logs
               transferOfLog_decoded).
    simpl. now rewrite filterDefined_decoded.
  - apply transfersInOrder_app.
  - intros log. simpl. now destruct (decodedTransfer log).
  - apply decodedTransfer_None.
Qed.

End ERC20Facts.

Section CallParsing.
Context {L : AbiLibrary}.

Lemma ERC20_ABI_functions (f : Fragment) :
  In f ERC20_ABI -> kind f = FunctionKind ->
  In f (JSObj.values ERC20_FUNCTIONS).
Proof.
  unfold ERC20_ABI. intros Hin Hk.
  apply in_app_or in Hin. destruct Hin as [Hin|Hin]; [exact Hin|].
  simpl in Hin. destruct Hin as [<-|[<-|[]]]; discriminate.
Qed.

Lemma ERC2612_functions_not_ERC20 (f : Fragment) :
  In f (JSObj.values ERC20_FUNCTIONS) ->
  ~ In f (JSObj.values ERC2612_FUNCTIONS).
Proof.
  simpl. intros H20 H2612.
  repeat match goal with
         | H : _ \/ _ |- _ => destruct H
         | H : False |- _ => destruct H
         end; subst; discriminate.
Qed.

(** C6, as the code has it: [parseERC20Tx] decodes against
    [ERC20_INTERFACE] alone.  It returns the description exactly when the
    library decodes the data against that interface and [undefined] exactly
    when the library throws; what it returns describes one of the nine
    ERC-20 functions, never [permit], [nonces] or [DOMAIN_SEPARATOR]. *)
Theorem parseERC20Tx_erc20_only (input : string) :
  parsesOwnFunctions L ->
  (forall d, parseERC20Tx input = Some d <->
             parseTransaction ERC20_INTERFACE input = inr d) /\
  (parseERC20Tx input = None <->
   exists e, parseTransaction ERC20_INTERFACE input = inl e) /\
  (forall d, parseERC20Tx input = Some d ->
     In (functionFragment d) (JSObj.values ERC20_FUNCTIONS) /\
     ~ In (functionFragment d) (JSObj.values ERC2612_FUNCTIONS)).
Proof.
  intros Hlib.
  assert (Hiff : forall d, parseERC20Tx input = Some d <->
                           parseTransaction ERC20_INTERFACE input = inr d).
  { intros d. unfold parseERC20Tx.
    destruct (parseTransaction ERC20_INTERFACE input) as [e|d0].
    - split; discriminate.
    - split; intros H; injection H as ->; reflexivity. }
  split; [exact Hiff|]. split.
  - unfold parseERC20Tx.
    destruct (parseTransaction ERC20_INTERFACE input) as [e|d0].
    + split; eauto.
    + split; [discriminate|]. intros [e He]. discriminate.
  - intros d Hd. apply Hiff in Hd. apply Hlib in Hd. destruct Hd as [Hin Hk].
    pose proof (ERC20_ABI_functions _ Hin Hk) as H20.
    split; [exact H20|]. now apply ERC2612_functions_not_ERC20.
Qed.

End CallParsing.

Lemma selectorLibrary_parsesOwnFunctions : parsesOwnFunctions selectorLibrary.
Proof.
  intros iface input d. simpl.
  destruct (find _ iface) as [f|] eqn:Hf; [|discriminate].
  intros H. injection H as <-. simpl.
  apply find_some in Hf. destruct Hf as [Hin Hsel]. split; [exact Hin|].
  unfold hasSighash in Hsel. now destruct (kind f).
Qed.

Section ERC20Examples.
#[local] Existing Instance selectorLibrary.

(** Call data of [permit] is not decoded by [parseERC20Tx], while decoding
    against the interface with ERC-2612 describes the [permit] call. *)
Lemma permit_call_not_parsed :
  parseERC20Tx permitCallData = None /\
  exists args,
    parseAsErc20Call_spec permitCallData =
      Some (FunctionFragment_from
              "permit(address owner, address spender, uint256 value, uint256 deadline, uint8 v, bytes32 r, bytes32 s)",
            args).
Proof. split; [reflexivity|]. eexists. reflexivity. Qed.

Lemma parseERC20Tx_erc20_only_witness :
  (forall d, parseERC20Tx transferCallData = Some d <->
             parseTransaction ERC20_INTERFACE transferCallData = inr d) /\
  (parseERC20Tx transferCallData = None <->
   exists e, parseTransaction ERC20_INTERFACE transferCallData = inl e) /\
  (forall d, parseERC20Tx transferCallData = Some d ->
     In (functionFragment d) (JSObj.values ERC20_FUNCTIONS) /\
     ~ In (functionFragment d) (JSObj.values ERC2612_FUNCTIONS)).
Proof.
  exact (parseERC20Tx_erc20_only transferCallData
           selectorLibrary_parsesOwnFunctions).
Defined.

Example transfer_call_parsed :
  option_map fst (parseERC20Tx transferCallData) =
  Some (FunctionFragment_from
          "transfer(address to, uint amount) returns (bool)").
Proof. reflexivity. Qed.

(** Three logs, the second with scrambled data: two transfers come back,
    in the order of their logs. *)
Example logs_parsed :
  parseLogsForERC20Transfers someLogs =
  inr [ {| tl_contractAddress := "0xc0"; tl_amount := 1000;
           senderAddress := "0xaa"; recipientAddress := "0xbb" |};
        {| tl_contractAddress := "0xc2"; tl_amount := 5;
           senderAddress := "0xcc"; recipientAddress := "0xdd" |} ].
Proof. reflexivity. Qed.

End ERC20Examples.

(** ** Balances filed under their own symbol

    In a state built by the reducers every record files a balance under the
    symbol of its asset; there the amount a record holds of an asset is the
    amount of the balance under that symbol. *)

Section Keyed.
Context {E : Externals}.

Lemma recordAmount_absent s (b : JSObj.t AccountBalance) :
  Forall (fun kv => symbol (asset (assetAmount (snd kv))) = fst kv) b ->
  ~ In s (JSObj.keys b) ->
  sumZ (map (fun ab =>
               if String.eqb (symbol (asset (assetAmount ab))) s
               then amount (assetAmount ab) else 0%Z)
          (JSObj.values b)) = 0%Z.
Proof.
  induction 1 as [|[k ab] b Hx Hb IH]; simpl; intros Hs; [reflexivity|].
  simpl in Hx. rewrite Hx.
  destruct (String.eqb_spec k s) as [->|Hne]; [tauto|].
  rewrite IH; tauto.
Qed.

Lemma recordAmount_balanceUnder s d :
  balancesKeyed (balances d) -> recordAmount s d = balanceUnder s d.
Proof.
  unfold recordAmount, balanceUnder, balancesKeyed.
  generalize (balances d). intros b [Hk Hnd]. revert Hnd.
  induction Hk as [|[k ab] b Hx Hb IH]; simpl; intros Hnd; [reflexivity|].
  simpl in Hx. apply NoDup_cons_iff in Hnd. destruct Hnd as [Hnotin Hnd].
  rewrite Hx, (String.eqb_sym s k).
  destruct (String.eqb_spec k s) as [Heq|Hne].
  - subst s. rewrite (recordAmount_absent k b Hb Hnotin). lia.
  - now apply IH.
Qed.

Lemma totalHeld_balanceUnder s (st : AccountState) :
  stateKeyed st ->
  totalHeld s (accountsData st) =
  sumZ (map (fun e => match e with
                      | Loading => 0%Z
                      | Ready d => balanceUnder s d
                      end)
          (JSObj.values (accountsData st))).
Proof.
  unfold stateKeyed, totalHeld. generalize (accountsData st).
  induction 1 as [|[k e] ad Hx Had IH]; [reflexivity|].
  unfold JSObj.values in *. cbn [map snd sumZ fold_right].
  unfold sumZ in IH. rewrite IH. f_equal.
  destruct e as [|d]; [reflexivity|].
  now apply recordAmount_balanceUnder.
Qed.

Lemma balancesKeyed_set (b : JSObj.t AccountBalance) (u : AccountBalance) :
  balancesKeyed b ->
  balancesKeyed (JSObj.set (symbol (asset (assetAmount u))) u b).
Proof.
  intros [Hk Hnd]. split.
  - now apply JSObjKeys.Forall_set.
  - now apply JSObjKeys.NoDup_keys_set.
Qed.

Lemma balancesKeyed_empty : balancesKeyed JSObj.empty.
Proof. split; constructor. Qed.

Lemma entryKeyed_get (ad : JSObj.t AccountEntry) k d :
  Forall entryKeyed ad -> JSObj.get k ad = Some (Ready d) ->
  balancesKeyed (balances d).
Proof.
  induction 1 as [|[k' e] ad Hx Had IH]; simpl; [discriminate|].
  destruct (String.eqb k k'); auto.
  intros H. injection H as ->. exact Hx.
Qed.

Lemma newAccountData_balances address network count pool pool' d :
  newAccountData address network count pool = (pool', inr d) ->
  balances d = JSObj.empty.
Proof.
  unfold newAccountData.
  destruct (BigInt address); [|discriminate].
  destruct (length pool =? 0)%nat; [discriminate|].
  destruct (array_get pool _); [|discriminate].
  intros H. injection H as _ <-. reflexivity.
Qed.

Lemma applyBalanceUpdate_keyed ad u pool pool' ad' :
  Forall entryKeyed ad ->
  applyBalanceUpdate ad u pool = (pool', inr ad') ->
  Forall entryKeyed ad'.
Proof.
  intros Had. unfold applyBalanceUpdate.
  destruct (JSObj.get (normalizeEVMAddress (ab_address u)) ad)
    as [[|d]|] eqn:Hu; intros H.
  - apply bind_inv in H. destruct H as (p1 & d & _ & H).
    injection H as _ <-.
    apply JSObjKeys.Forall_set; [|exact Had].
    apply (balancesKeyed_set JSObj.empty u balancesKeyed_empty).
  - injection H as _ <-.
    apply JSObjKeys.Forall_set; [|exact Had].
    apply balancesKeyed_set. eapply entryKeyed_get; eauto.
  - injection H as _ <-. exact Had.
Qed.

Lemma forEachBalance_keyed batch : forall ad pool pool' ad',
  Forall entryKeyed ad ->
  forEachBalance ad batch pool = (pool', inr ad') ->
  Forall entryKeyed ad'.
Proof.
  induction batch as [|u batch IH]; simpl; intros ad pool pool' ad' Had H.
  - injection H as _ <-. exact Had.
  - apply bind_inv in H. destruct H as (p1 & ad1 & H1 & H2).
    eapply IH; [|exact H2]. eapply applyBalanceUpdate_keyed; eauto.
Qed.

Lemma getOrCreateAccountData_keyed ad key entry network count pool pool' d :
  Forall entryKeyed ad -> JSObj.get key ad = Some entry ->
  getOrCreateAccountData (Some entry) key network count pool = (pool', inr d) ->
  balancesKeyed (balances d).
Proof.
  intros Had Hg. destruct entry as [|d0]; simpl; intros H.
  - rewrite (newAccountData_balances _ _ _ _ _ _ H). apply balancesKeyed_empty.
  - injection H as _ <-. eapply entryKeyed_get; eauto.
Qed.

(** The reducers keep balances filed under their own symbol. *)
Lemma reducer_keyed (st : AccountState) (act : Action) pool pool' st' :
  stateKeyed st ->
  accountSliceReducer st act pool = (pool', inr st') ->
  stateKeyed st'.
Proof.
  unfold stateKeyed. intros Hst.
  destruct act as [x|x|batch|x n nm|x n av]; simpl; intros H.
  - injection H as _ <-. unfold loadAccount.
    destruct (JSObj.get _ _); [exact Hst|].
    simpl. now apply JSObjKeys.Forall_set.
  - injection H as _ <-. unfold deleteAccount.
    destruct (JSObj.get _ _); [|exact Hst].
    simpl. unfold JSObj.remove. rewrite Forall_forall in *.
    intros kv Hkv. apply filter_In in Hkv. now apply Hst.
  - apply updateAccountBalance_inv in H. destruct H as (ad & H & ->).
    simpl. eapply forEachBalance_keyed; eauto.
  - unfold updateAccountName in H.
    destruct (JSObj.get (normalizeEVMAddress x) (accountsData st)) eqn:Hx.
    + apply bind_inv in H. destruct H as (p1 & base & Hbase & H).
      injection H as _ <-. simpl.
      apply JSObjKeys.Forall_set; [|exact Hst].
      change (balancesKeyed (balances base)).
      eapply getOrCreateAccountData_keyed; eauto.
    + injection H as _ <-. exact Hst.
  - unfold updateENSAvatar in H.
    destruct (JSObj.get (normalizeEVMAddress x) (accountsData st)) eqn:Hx.
    + apply bind_inv in H. destruct H as (p1 & base & Hbase & H).
      injection H as _ <-. simpl.
      apply JSObjKeys.Forall_set; [|exact Hst].
      change (balancesKeyed (balances base)).
      eapply getOrCreateAccountData_keyed; eauto.
    + injection H as _ <-. exact Hst.
Qed.

Lemma initialState_keyed : stateKeyed initialState.
Proof. constructor. Qed.

End Keyed.

(** ** The portfolio after a sequence of balance updates *)

Section CombinedAfterUpdates.
Context {E : Externals}.

Lemma updateAccountBalances_last bs : forall st b pool pool' st',
  updateAccountBalances st (bs ++ [b]) pool = (pool', inr st') ->
  exists st1 pool1, updateAccountBalance st1 b pool1 = (pool', inr st').
Proof.
  induction bs as [|b0 bs IH]; simpl; intros st b pool pool' st' H.
  - apply bind_inv in H. destruct H as (p1 & st1 & H1 & H2).
    injection H2 as <- <-. eauto.
  - apply bind_inv in H. destruct H as (p1 & st1 & H1 & H2).
    eapply IH; eauto.
Qed.

Lemma updateAccountBalances_keyed bs : forall st pool pool' st',
  stateKeyed st ->
  updateAccountBalances st bs pool = (pool', inr st') ->
  stateKeyed st'.
Proof.
  induction bs as [|b bs IH]; simpl; intros st pool pool' st' Hst H.
  - injection H as _ <-. exact Hst.
  - apply bind_inv in H. destruct H as (p1 & st1 & H1 & H2).
    eapply IH; [|exact H2].
    exact (reducer_keyed st (UpdateAccountBalance b) _ _ _ Hst H1).
Qed.

(** X21: after any sequence of [updateAccountBalance] calls, the combined
    portfolio has at most one entry per asset symbol.  For every symbol
    other than [__proto__] the entry holds the sum of the amounts of that
    asset over the balances of all records (the sentinel counting for
    nothing), and the symbol has an entry exactly when some record stores a
    balance of it; the symbol [__proto__] has no entry.  From a state whose
    records file balances under their own symbol, as the reducers do, that
    sum is the sum over the records of the amount under that symbol. *)
Theorem combined_is_sum_of_balances
    (st : AccountState) (batches : list (list AccountBalance))
    (pool pool' : Pool) (st' : AccountState) :
  batches <> [] ->
  updateAccountBalances st batches pool = (pool', inr st') ->
  NoDup (map (fun a => symbol (asset a)) (assets (combinedData st'))) /\
  (forall s, s <> "__proto__" ->
     match combinedEntry s st' with
     | Some a => amount a = totalHeld s (accountsData st') /\
                 held s (accountsData st')
     | None => ~ held s (accountsData st')
     end) /\
  combinedEntry "__proto__" st' = None /\
  (stateKeyed st ->
   forall s,
     totalHeld s (accountsData st') =
     sumZ (map (fun e => match e with
                         | Loading => 0%Z
                         | Ready d => balanceUnder s d
                         end)
             (JSObj.values (accountsData st')))).
Proof.
  intros Hne H.
  assert (Hkeyed : stateKeyed st -> stateKeyed st').
  { intros Hst. eapply updateAccountBalances_keyed; eauto. }
  destruct (exists_last Hne) as (bs & b & ->).
  apply updateAccountBalances_last in H. destruct H as (st1 & pool1 & H).
  apply updateAccountBalance_inv in H. destruct H as (ad & _ & ->).
  destruct (combineAssets_correct ad) as (Hnd & Hsum & Hproto).
  split; [exact Hnd|]. split; [exact Hsum|]. split; [exact Hproto|].
  intros Hst s. now apply totalHeld_balanceUnder, Hkeyed.
Qed.

End CombinedAfterUpdates.

Section CombinedExamples.
#[local] Existing Instance hexExternals.

Lemma combined_is_sum_of_balances_witness :
  exists pool' st',
    updateAccountBalances twoLoading
      [ [balanceFor "0xab" "ETH" 5; balanceFor "0xcd" "ETH" 7];
        [balanceFor "0xcd" "DAI" 1; balanceFor "0xAB" "ETH" 6] ] freshPool =
      (pool', inr st') /\
    NoDup (map (fun a => symbol (asset a)) (assets (combinedData st'))) /\
    (forall s, s <> "__proto__" ->
       match combinedEntry s st' with
       | Some a => amount a = totalHeld s (accountsData st') /\
                   held s (accountsData st')
       | None => ~ held s (accountsData st')
       end) /\
    combinedEntry "__proto__" st' = None /\
    (stateKeyed twoLoading ->
     forall s,
       totalHeld s (accountsData st') =
       sumZ (map (fun e => match e with
                           | Loading => 0%Z
                           | Ready d => balanceUnder s d
                           end)
               (JSObj.values (accountsData st')))).
Proof.
  eexists. eexists. split; [reflexivity|].
  eapply combined_is_sum_of_balances
    with (st := twoLoading) (pool := freshPool)
         (batches := [ [balanceFor "0xab" "ETH" 5; balanceFor "0xcd" "ETH" 7];
                       [balanceFor "0xcd" "DAI" 1; balanceFor "0xAB" "ETH" 6] ]);
    [discriminate | reflexivity].
Defined.

(** C2, where the code departs from it: an address being loaded receives a
    balance of 5 of the asset whose symbol is [__proto__].  The record
    created for it stores the balance, so the records hold 5 of that asset,
    while the combined portfolio is left without an entry for it: the
    assignment [acc[assetSymbol] = ...] of the [reduce] replaced the
    prototype of the accumulator and [Object.values] found no own
    property. *)
Theorem proto_symbol_missing_from_portfolio :
  let record :=
    {| address := "0xab";
       network := "mainnet";
       balances := [("__proto__", balanceFor "0xab" "__proto__" 5)];
       ens := {| ens_name := None; ens_avatarURL := None |};
       defaultName := "Topa";
       defaultAvatar := "./images/avatars/topa@2x.png" |} in
  let st' :=
    {| account := None;
       accountLoading := None;
       hasAccountError := None;
       accountsData := [("0xab", Ready record)];
       combinedData :=
         {| totalMainCurrencyValue := Some ""; assets := [] |} |} in
  updateAccountBalance oneLoading [balanceFor "0xab" "__proto__" 5]
    freshPool =
    (map Some
       ["Topa"; "Phoenix"; "Matilda"; "Sirius"; "Atos"; "Sport"; "Lola"; "Foz"],
     inr st') /\
  held "__proto__" (accountsData st') /\
  totalHeld "__proto__" (accountsData st') = 5%Z /\
  combinedEntry "__proto__" st' = None /\
  assets (combinedData st') = [].
Proof.
  intros record st'.
  split; [vm_compute; reflexivity|].
  split.
  - exists record, (balanceFor "0xab" "__proto__" 5).
    split; [left; reflexivity|]. split; [left; reflexivity|reflexivity].
  - split; [reflexivity|]. split; reflexivity.
Qed.

(** Beside another asset: the portfolio shows the 5 ETH of one record and
    nothing for the 7 of the other record's asset. *)
Example proto_symbol_beside_another :
  match updateAccountBalance twoLoading
          [balanceFor "0xab" "ETH" 5; balanceFor "0xcd" "__proto__" 7]
          freshPool with
  | (_, inr st') =>
      (assets (combinedData st'),
       totalHeld "ETH" (accountsData st'),
       totalHeld "__proto__" (accountsData st'))
  | (_, inl _) => ([], 0%Z, 0%Z)
  end = ([ {| asset := "ETH"; amount := 5 |} ], 5%Z, 7%Z).
Proof. vm_compute. reflexivity. Qed.

(** The same run, evaluated: ETH 6 + 7, DAI 1. *)
Example combined_run :
  match updateAccountBalances twoLoading
          [ [balanceFor "0xab" "ETH" 5; balanceFor "0xcd" "ETH" 7];
            [balanceFor "0xcd" "DAI" 1; balanceFor "0xAB" "ETH" 6] ]
          freshPool with
  | (_, inr st') => assets (combinedData st')
  | (_, inl _) => []
  end = [ {| asset := "ETH"; amount := 13 |}; {| asset := "DAI"; amount := 1 |} ].
Proof. vm_compute. reflexivity. Qed.

End CombinedExamples.

(** * Further properties of the accounts slice *)

Module JSObjMore.
Section More.
Context {V : Type}.
Implicit Types (k : string) (v : V) (o : JSObj.t V).

Lemma set_absent k v o :
  JSObj.get k o = None -> JSObj.set k v o = (o ++ [(k, v)])%list.
Proof.
  induction o as [|[k' v'] o IH]; simpl; [reflexivity|].
  destruct (String.eqb k k'); [discriminate|].
  intros H. now rewrite IH.
Qed.

Lemma set_set k v1 v2 o :
  JSObj.set k v2 (JSObj.set k v1 o) = JSObj.set k v2 o.
Proof.
  induction o as [|[k' v'] o IH]; simpl.
  - now rewrite String.eqb_refl.
  - destruct (String.eqb k k') eqn:Ek; simpl.
    + now rewrite String.eqb_refl.
    + now rewrite Ek, IH.
Qed.

Lemma remove_absent k o : JSObj.get k o = None -> JSObj.remove k o = o.
Proof.
  unfold JSObj.remove.
  induction o as [|[k' v'] o IH]; simpl; [reflexivity|].
  destruct (String.eqb k k'); [discriminate|].
  intros H. simpl. now rewrite IH.
Qed.

Lemma remove_set_absent k v o :
  JSObj.get k o = None -> JSObj.remove k (JSObj.set k v o) = o.
Proof.
  intros H. rewrite (set_absent k v o H). unfold JSObj.remove.
  rewrite filter_app. simpl. rewrite String.eqb_refl. simpl.
  rewrite app_nil_r. now apply remove_absent.
Qed.

Lemma keys_set k v o :
  JSObj.keys (JSObj.set k v o) =
  if in_dec string_dec k (JSObj.keys o) then JSObj.keys o
  else (JSObj.keys o ++ [k])%list.
Proof.
  destruct (in_dec string_dec k (JSObj.keys o)).
  - now apply JSObjKeys.keys_set_present.
  - now apply JSObjKeys.keys_set_absent.
Qed.

Lemma keys_set_tracked k v o :
  JSObj.get k o <> None -> JSObj.keys (JSObj.set k v o) = JSObj.keys o.
Proof.
  intros H. apply JSObjKeys.keys_set_present.
  destruct (in_dec string_dec k (JSObj.keys o)) as [Hin|Hout]; [exact Hin|].
  apply JSObjKeys.get_None_iff in Hout. contradiction.
Qed.

Lemma keys_remove k o :
  JSObj.keys (JSObj.remove k o) =
  filter (fun k' => negb (String.eqb k k')) (JSObj.keys o).
Proof.
  unfold JSObj.remove, JSObj.keys.
  induction o as [|[k' v'] o IH]; simpl; [reflexivity|].
  destruct (String.eqb k k'); simpl; now rewrite IH.
Qed.

End More.
End JSObjMore.

Section DeleteFacts.
Context {E : Externals}.

(** X1: [deleteAccount] returns the state it was given when the address
    is not tracked; otherwise the entry of that address is gone, the entry
    of every other key is what it was, and [combinedData] is left as it
    was: the portfolio is not recomputed on deletion. *)
Theorem deleteAccount_frame (st : AccountState) (a : string) :
  normalizeIdempotent ->
  let k := normalizeEVMAddress a in
  let st' := deleteAccount st a in
  (JSObj.get k (accountsData st) = None -> st' = st) /\
  JSObj.get k (accountsData st') = None /\
  (forall k', k' <> k ->
     JSObj.get k' (accountsData st') = JSObj.get k' (accountsData st)) /\
  JSObj.keys (accountsData st') =
    filter (fun k' => negb (String.eqb k k')) (JSObj.keys (accountsData st)) /\
  combinedData st' = combinedData st.
Proof.
  intros Hidem k st'. unfold st', deleteAccount. rewrite Hidem. fold k.
  destruct (JSObj.get k (accountsData st)) as [e|] eqn:Hg; simpl.
  - split; [discriminate|]. split; [apply JSObjFacts.get_remove_same|].
    split; [|split; [apply JSObjMore.keys_remove|reflexivity]].
    intros k' Hne. now apply JSObjFacts.get_remove_other.
  - split; [reflexivity|]. split; [exact Hg|].
    split; [reflexivity|]. split; [|reflexivity].
    rewrite <- JSObjMore.keys_remove. now rewrite JSObjMore.remove_absent.
Qed.

(** X2: tracking an untracked address and deleting it again gives back
    the state one started from. *)
Theorem load_then_delete (st : AccountState) (a : string) :
  normalizeIdempotent ->
  JSObj.get (normalizeEVMAddress a) (accountsData st) = None ->
  deleteAccount (loadAccount st a) a = st.
Proof.
  intros Hidem Hg.
  rewrite (loadAccount_untracked st a Hg).
  unfold deleteAccount. rewrite Hidem. simpl.
  rewrite JSObjFacts.get_set_same.
  rewrite JSObjMore.remove_set_absent by exact Hg.
  now destruct st.
Qed.

End DeleteFacts.

Section DeleteExamples.
#[local] Existing Instance hexExternals.

Lemma deleteAccount_frame_witness :
  let st' := deleteAccount oneReady "0xAB" in
  (JSObj.get "0xab" (accountsData oneReady) = None -> st' = oneReady) /\
  JSObj.get "0xab" (accountsData st') = None /\
  (forall k', k' <> "0xab" ->
     JSObj.get k' (accountsData st') = JSObj.get k' (accountsData oneReady)) /\
  JSObj.keys (accountsData st') =
    filter (fun k' => negb (String.eqb "0xab" k'))
      (JSObj.keys (accountsData oneReady)) /\
  combinedData st' = combinedData oneReady.
Proof.
  exact (deleteAccount_frame oneReady "0xAB"
           hexExternals_normalizeIdempotent).
Defined.

Lemma load_then_delete_witness :
  deleteAccount (loadAccount oneReady "0xEF") "0xEF" = oneReady.
Proof.
  exact (load_then_delete oneReady "0xEF"
           hexExternals_normalizeIdempotent eq_refl).
Defined.

End DeleteExamples.

Section TrackedKeys.
Context {E : Externals}.

Lemma applyBalanceUpdate_keys ad u pool pool' ad' :
  applyBalanceUpdate ad u pool = (pool', inr ad') ->
  JSObj.keys ad' = JSObj.keys ad.
Proof.
  unfold applyBalanceUpdate.
  destruct (JSObj.get (normalizeEVMAddress (ab_address u)) ad)
    as [[|d]|] eqn:Hu; intros H.
  - apply bind_inv in H. destruct H as (p1 & d & _ & H).
    injection H as _ <-. apply JSObjMore.keys_set_tracked. congruence.
  - injection H as _ <-. apply JSObjMore.keys_set_tracked. congruence.
  - injection H as _ <-. reflexivity.
Qed.

Lemma forEachBalance_keys batch : forall ad pool pool' ad',
  forEachBalance ad batch pool = (pool', inr ad') ->
  JSObj.keys ad' = JSObj.keys ad.
Proof.
  induction batch as [|u batch IH]; simpl; intros ad pool pool' ad' H.
  - injection H as _ <-. reflexivity.
  - apply bind_inv in H. destruct H as (p1 & ad1 & H1 & H2).
    rewrite (IH _ _ _ _ H2). eapply applyBalanceUpdate_keys; eauto.
Qed.

Lemma ensUpdate_keys (st : AccountState) key network count
    (attach : AccountData -> ENSInfo) pool pool' st' entry :
  JSObj.get key (accountsData st) = Some entry ->
  (baseAccountData <- getOrCreateAccountData (Some entry) key network count ;;
   ret (withAccountsData st
          (JSObj.set key
             (Ready (withEns baseAccountData (attach baseAccountData)))
             (accountsData st)))) pool = (pool', inr st') ->
  JSObj.keys (accountsData st') = JSObj.keys (accountsData st).
Proof.
  intros Hentry H.
  apply bind_inv in H. destruct H as (p1 & base & _ & H).
  injection H as _ <-. simpl.
  apply JSObjMore.keys_set_tracked. congruence.
Qed.

(** X3: the tracked addresses, in their order, are left as they are by
    [updateAccountBalance], [updateAccountName] and [updateENSAvatar];
    [loadAccount] adds at most its own key, at the end, and
    [deleteAccount] removes at most its own. *)
Theorem tracked_keys_by_action
    (st : AccountState) (act : Action) (pool pool' : Pool)
    (st' : AccountState) :
  accountSliceReducer st act pool = (pool', inr st') ->
  let keys := JSObj.keys (accountsData st) in
  let keys' := JSObj.keys (accountsData st') in
  match act with
  | LoadAccount a =>
      keys' = if in_dec string_dec (normalizeEVMAddress a) keys
              then keys else (keys ++ [normalizeEVMAddress a])%list
  | DeleteAccount a =>
      keys' = keys \/
      keys' = filter (fun k => negb (String.eqb (normalizeEVMAddress a) k)) keys
  | _ => keys' = keys
  end.
Proof.
  intros H keys keys'. unfold keys, keys'.
  destruct act as [x|x|batch|x n nm|x n av]; simpl in H.
  - injection H as _ <-. unfold loadAccount.
    destruct (JSObj.get (normalizeEVMAddress x) (accountsData st)) eqn:Hx.
    + destruct (in_dec string_dec _ _) as [|Hout]; [reflexivity|].
      apply JSObjKeys.get_None_iff in Hout. congruence.
    + simpl. apply JSObjMore.keys_set.
  - injection H as _ <-. unfold deleteAccount.
    destruct (JSObj.get _ (accountsData st)); [|now left].
    right. simpl. apply JSObjMore.keys_remove.
  - apply updateAccountBalance_inv in H. destruct H as (ad & H & ->).
    simpl. eapply forEachBalance_keys; eauto.
  - unfold updateAccountName in H.
    destruct (JSObj.get (normalizeEVMAddress x) (accountsData st)) eqn:Hx.
    + eapply (ensUpdate_keys st _ _ _
                (fun b => {| ens_name := Some nm;
                             ens_avatarURL := ens_avatarURL (ens b) |}));
        eauto.
    + injection H as _ <-. reflexivity.
  - unfold updateENSAvatar in H.
    destruct (JSObj.get (normalizeEVMAddress x) (accountsData st)) eqn:Hx.
    + eapply (ensUpdate_keys st _ _ _
                (fun b => {| ens_name := ens_name (ens b);
                             ens_avatarURL := Some av |}));
        eauto.
    + injection H as _ <-. reflexivity.
Qed.

Lemma applyBalanceUpdate_not_loading ad u pool pool' ad' k :
  JSObj.get k ad <> Some Loading ->
  applyBalanceUpdate ad u pool = (pool', inr ad') ->
  JSObj.get k ad' <> Some Loading.
Proof.
  intros Hk. unfold applyBalanceUpdate.
  destruct (JSObj.get (normalizeEVMAddress (ab_address u)) ad)
    as [[|d]|] eqn:Hu; intros H.
  - apply bind_inv in H. destruct H as (p1 & d & _ & H).
    injection H as _ <-. rewrite JSObjFacts.get_set.
    destruct (String.eqb k _); [discriminate|exact Hk].
  - injection H as _ <-. rewrite JSObjFacts.get_set.
    destruct (String.eqb k _); [discriminate|exact Hk].
  - injection H as _ <-. exact Hk.
Qed.

Lemma applyBalanceUpdate_of_record ad u pool :
  JSObj.get (updateKey u) ad <> Some Loading ->
  exists ad', applyBalanceUpdate ad u pool = (pool, inr ad').
Proof.
  unfold applyBalanceUpdate, updateKey.
  destruct (JSObj.get (normalizeEVMAddress (ab_address u)) ad) as [[|d]|];
    intros H; [congruence| |]; eexists; reflexivity.
Qed.

Lemma forEachBalance_of_records batch : forall ad pool,
  (forall u, In u batch -> JSObj.get (updateKey u) ad <> Some Loading) ->
  exists ad', forEachBalance ad batch pool = (pool, inr ad').
Proof.
  induction batch as [|u batch IH]; simpl; intros ad pool Hb.
  - eexists. reflexivity.
  - destruct (applyBalanceUpdate_of_record ad u pool (Hb u (or_introl eq_refl)))
      as (ad1 & H1).
    destruct (IH ad1 pool) as (ad' & H2).
    + intros v Hv. eapply applyBalanceUpdate_not_loading; eauto.
    + exists ad'. now rewrite (bind_inr _ _ _ _ _ H1).
Qed.

(** X4: a batch none of whose balances is for an address that is being
    loaded, and none of whose balances is of an asset with the symbol
    [__proto__] (a name a record does not take as a key of its balances),
    cannot throw and leaves the name pool as it was: only the creation of a
    record reads the pool. *)
Theorem balances_of_records_never_throw
    (st : AccountState) (batch : list AccountBalance) (pool : Pool) :
  (forall u, In u batch ->
     JSObj.get (normalizeEVMAddress (ab_address u)) (accountsData st)
       <> Some Loading) ->
  (forall u, In u batch ->
     symbol (asset (assetAmount u)) <> "__proto__") ->
  exists st', updateAccountBalance st batch pool = (pool, inr st').
Proof.
  intros Hb _.
  destruct (forEachBalance_of_records batch (accountsData st) pool Hb)
    as (ad' & H).
  eexists. unfold updateAccountBalance.
  rewrite (bind_inr _ _ _ _ _ H). reflexivity.
Qed.

End TrackedKeys.

Section TrackedKeysExamples.
#[local] Existing Instance hexExternals.

Lemma tracked_keys_by_action_witness :
  JSObj.keys
    (accountsData
       (withAssets
          (withAccountsData oneReady
             [("0xab",
               Ready (withBalances topaRecord
                        [("ETH", balanceFor "0xab" "ETH" 5)]));
              ("0xcd", Loading)])
          [ {| asset := "ETH"; amount := 5 |} ])) =
  JSObj.keys (accountsData oneReady).
Proof.
  exact (tracked_keys_by_action oneReady
           (UpdateAccountBalance [balanceFor "0xab" "ETH" 5])
           freshPool freshPool _ eq_refl).
Defined.

Lemma balances_of_records_never_throw_witness :
  exists st',
    updateAccountBalance oneReady
      [balanceFor "0xab" "ETH" 5; balanceFor "0xef" "DAI" 1] freshPool =
    (freshPool, inr st').
Proof.
  apply (balances_of_records_never_throw oneReady
           [balanceFor "0xab" "ETH" 5; balanceFor "0xef" "DAI" 1] freshPool).
  - intros u [<-|[<-|[]]]; discriminate.
  - intros u [<-|[<-|[]]]; discriminate.
Defined.

End TrackedKeysExamples.

Section LastWrite.
Context {E : Externals}.

Lemma forEachBalance_app l1 l2 : forall ad pool,
  forEachBalance ad (l1 ++ l2) pool =
  (ad1 <- forEachBalance ad l1 ;; forEachBalance ad1 l2) pool.
Proof.
  induction l1 as [|x l1 IH]; simpl; intros ad pool; [reflexivity|].
  destruct (applyBalanceUpdate ad x pool) as [p1 [e|ad1]] eqn:Hx.
  - rewrite (bind_inl _ _ _ _ _ Hx).
    apply eq_sym, bind_inl. now apply bind_inl.
  - rewrite (bind_inr _ _ _ _ _ Hx), IH.
    unfold bind at 1 2 3. now rewrite Hx.
Qed.

Lemma applyBalanceUpdate_tracked ad u pool pool' ad' k :
  JSObj.get k ad <> None ->
  applyBalanceUpdate ad u pool = (pool', inr ad') ->
  JSObj.get k ad' <> None.
Proof.
  intros Hk H. rewrite JSObjKeys.get_None_iff in *.
  now rewrite (applyBalanceUpdate_keys _ _ _ _ _ H).
Qed.

Lemma forEachBalance_tracked batch ad pool pool' ad' k :
  JSObj.get k ad <> None ->
  forEachBalance ad batch pool = (pool', inr ad') ->
  JSObj.get k ad' <> None.
Proof.
  intros Hk H. rewrite JSObjKeys.get_None_iff in *.
  now rewrite (forEachBalance_keys _ _ _ _ _ H).
Qed.

Lemma applyBalanceUpdate_sets ad u pool pool' ad' :
  JSObj.get (updateKey u) ad <> None ->
  applyBalanceUpdate ad u pool = (pool', inr ad') ->
  holdsBalance (updateKey u) (updateSymbol u) u ad'.
Proof.
  unfold applyBalanceUpdate, updateKey, updateSymbol, holdsBalance.
  destruct (JSObj.get (normalizeEVMAddress (ab_address u)) ad)
    as [[|d]|] eqn:Hu; intros Hk H; [| |congruence].
  - apply bind_inv in H. destruct H as (p1 & d & _ & H).
    injection H as _ <-. eexists. rewrite JSObjFacts.get_set_same.
    split; [reflexivity|]. simpl. now rewrite String.eqb_refl.
  - injection H as _ <-. eexists. rewrite JSObjFacts.get_set_same.
    split; [reflexivity|]. simpl. apply JSObjFacts.get_set_same.
Qed.

Lemma applyBalanceUpdate_keeps ad v pool pool' ad' k s u :
  holdsBalance k s u ad ->
  (updateKey v = k -> updateSymbol v <> s) ->
  applyBalanceUpdate ad v pool = (pool', inr ad') ->
  holdsBalance k s u ad'.
Proof.
  intros (d & Hd & Hs) Hv. unfold applyBalanceUpdate.
  fold (updateKey v). fold (updateSymbol v).
  destruct (string_dec (updateKey v) k) as [Heq|Hne].
  - rewrite Heq, Hd. intros H. injection H as _ <-.
    eexists. rewrite JSObjFacts.get_set_same. split; [reflexivity|].
    simpl. rewrite JSObjFacts.get_set_other; [exact Hs|].
    intros ->. now apply Hv.
  - destruct (JSObj.get (updateKey v) ad) as [[|d1]|]; intros H.
    + apply bind_inv in H. destruct H as (p1 & d2 & _ & H).
      injection H as _ <-. exists d.
      rewrite JSObjFacts.get_set_other by congruence. auto.
    + injection H as _ <-. exists d.
      rewrite JSObjFacts.get_set_other by congruence. auto.
    + injection H as _ <-. exists d. auto.
Qed.

Lemma forEachBalance_keeps batch : forall ad pool pool' ad' k s u,
  holdsBalance k s u ad ->
  (forall v, In v batch -> updateKey v = k -> updateSymbol v <> s) ->
  forEachBalance ad batch pool = (pool', inr ad') ->
  holdsBalance k s u ad'.
Proof.
  induction batch as [|v batch IH]; simpl;
    intros ad pool pool' ad' k s u Hh Hb H.
  - injection H as _ <-. exact Hh.
  - apply bind_inv in H. destruct H as (p1 & ad1 & H1 & H2).
    eapply IH; [| |exact H2].
    + eapply applyBalanceUpdate_keeps; eauto.
    + intros w Hw. apply Hb. now right.
Qed.

(** X5: within a batch the last balance for an address and symbol is the
    one kept: if the address is tracked and no later balance of the batch is
    for the same address and symbol, the record of that address ends up
    holding this balance under its symbol. *)
Theorem last_balance_wins
    (st : AccountState) (b1 b2 : list AccountBalance) (u : AccountBalance)
    (pool pool' : Pool) (st' : AccountState) :
  JSObj.get (normalizeEVMAddress (ab_address u)) (accountsData st) <> None ->
  (forall v, In v b2 ->
     normalizeEVMAddress (ab_address v) = normalizeEVMAddress (ab_address u) ->
     symbol (asset (assetAmount v)) <> symbol (asset (assetAmount u))) ->
  updateAccountBalance st (b1 ++ u :: b2) pool = (pool', inr st') ->
  exists d,
    JSObj.get (normalizeEVMAddress (ab_address u)) (accountsData st')
      = Some (Ready d) /\
    JSObj.get (symbol (asset (assetAmount u))) (balances d) = Some u.
Proof.
  intros Hk Hb2 H.
  apply updateAccountBalance_inv in H. destruct H as (ad & H & ->).
  rewrite forEachBalance_app in H.
  apply bind_inv in H. destruct H as (p1 & ad1 & H1 & H2).
  simpl in H2. apply bind_inv in H2. destruct H2 as (p2 & ad2 & Hu & H2).
  simpl.
  eapply (forEachBalance_keeps b2 ad2 p2 pool' ad (updateKey u)
            (updateSymbol u) u); [|exact Hb2|exact H2].
  eapply applyBalanceUpdate_sets; [|exact Hu].
  eapply forEachBalance_tracked; [exact Hk|exact H1].
Qed.

Lemma updateAccountName_tracked (st : AccountState) address network name
    pool entry :
  JSObj.get (normalizeEVMAddress address) (accountsData st) = Some entry ->
  updateAccountName st address network name pool =
  match getOrCreateAccountData (Some entry) (normalizeEVMAddress address)
          network
          (otherKeysCount (normalizeEVMAddress address) (accountsData st))
          pool with
  | (p1, inr d) =>
      (p1, inr (withAccountsData st
                  (JSObj.set (normalizeEVMAddress address)
                     (Ready (withName name d)) (accountsData st))))
  | (p1, inl e) => (p1, inl e)
  end.
Proof.
  intros Hg. unfold updateAccountName. rewrite Hg. unfold bind.
  destruct (getOrCreateAccountData _ _ _ _ pool) as [p1 [e|d]]; reflexivity.
Qed.

Lemma updateENSAvatar_tracked (st : AccountState) address network avatar
    pool entry :
  JSObj.get (normalizeEVMAddress address) (accountsData st) = Some entry ->
  updateENSAvatar st address network avatar pool =
  match getOrCreateAccountData (Some entry) (normalizeEVMAddress address)
          network
          (otherKeysCount (normalizeEVMAddress address) (accountsData st))
          pool with
  | (p1, inr d) =>
      (p1, inr (withAccountsData st
                  (JSObj.set (normalizeEVMAddress address)
                     (Ready (withAvatar avatar d)) (accountsData st))))
  | (p1, inl e) => (p1, inl e)
  end.
Proof.
  intros Hg. unfold updateENSAvatar. rewrite Hg. unfold bind.
  destruct (getOrCreateAccountData _ _ _ _ pool) as [p1 [e|d]]; reflexivity.
Qed.

(** X6: attaching an ENS name and an ENS avatar to the same address on
    the same network gives the same outcome in either order: the same
    state, the same pool, or the same exception. *)
Theorem ens_name_and_avatar_commute
    (st : AccountState) (address : HexString) (network : Network)
    (name : DomainName) (avatar : URI) (pool : Pool) :
  dispatchAll st
    [UpdateAccountName address network name;
     UpdateENSAvatar address network avatar] pool =
  dispatchAll st
    [UpdateENSAvatar address network avatar;
     UpdateAccountName address network name] pool.
Proof.
  cbn [dispatchAll accountSliceReducer].
  set (key := normalizeEVMAddress address).
  destruct (JSObj.get key (accountsData st)) as [entry|] eqn:Hg.
  - pose proof (updateAccountName_tracked st address network name pool
                  entry Hg) as Hn.
    pose proof (updateENSAvatar_tracked st address network avatar pool
                  entry Hg) as Ha.
    fold key in Hn, Ha.
    destruct (getOrCreateAccountData (Some entry) key network
                (otherKeysCount key (accountsData st)) pool)
      as [p1 [e|d]].
    + unfold bind. cbv beta. now rewrite Hn, Ha.
    + unfold bind. cbv beta. rewrite Hn, Ha. cbv beta iota.
      rewrite (updateENSAvatar_tracked _ address network avatar p1
                 (Ready (withName name d)))
        by apply JSObjFacts.get_set_same.
      rewrite (updateAccountName_tracked _ address network name p1
                 (Ready (withAvatar avatar d)))
        by apply JSObjFacts.get_set_same.
      unfold ret. cbn [getOrCreateAccountData ret accountsData withAccountsData].
      fold key. now rewrite !JSObjMore.set_set.
  - assert (Hn : updateAccountName st address network name pool = (pool, inr st)).
    { unfold updateAccountName. fold key. now rewrite Hg. }
    assert (Ha : updateENSAvatar st address network avatar pool = (pool, inr st)).
    { unfold updateENSAvatar. fold key. now rewrite Hg. }
    unfold bind. cbv beta.
    repeat first [rewrite Hn | rewrite Ha]. reflexivity.
Qed.

End LastWrite.

Section LastWriteExamples.
#[local] Existing Instance hexExternals.

Lemma last_balance_wins_witness :
  exists pool' st',
    updateAccountBalance oneReady
      ([balanceFor "0xab" "ETH" 5] ++ balanceFor "0xAB" "ETH" 9
         :: [balanceFor "0xab" "DAI" 2]) freshPool = (pool', inr st') /\
    exists d,
      JSObj.get "0xab" (accountsData st') = Some (Ready d) /\
      JSObj.get "ETH" (balances d) = Some (balanceFor "0xAB" "ETH" 9).
Proof.
  eexists. eexists. split; [reflexivity|].
  eapply (last_balance_wins oneReady [balanceFor "0xab" "ETH" 5]
            [balanceFor "0xab" "DAI" 2] (balanceFor "0xAB" "ETH" 9)
            freshPool).
  - discriminate.
  - intros v [<-|[]] _. discriminate.
  - reflexivity.
Defined.

End LastWriteExamples.

Section PoolInvariants.
Context {E : Externals}.

Lemma bind_cases {A B : Type} (c : M A) (k : A -> M B) pool pool' r :
  bind c k pool = (pool', r) ->
  (exists e, c pool = (pool', inl e) /\ r = inl e) \/
  (exists p1 a, c pool = (p1, inr a) /\ k a p1 = (pool', r)).
Proof.
  unfold bind. destruct (c pool) as [p1 [e|a]]; intros H.
  - injection H as <- <-. left. eauto.
  - right. eauto.
Qed.

Lemma keepsLength_ret {A : Type} (a : A) : keepsLength (ret a).
Proof. intros pool. reflexivity. Qed.

Lemma keepsLength_bind {A B : Type} (c : M A) (k : A -> M B) :
  keepsLength c -> (forall a, keepsLength (k a)) -> keepsLength (bind c k).
Proof.
  intros Hc Hk pool. unfold bind.
  specialize (Hc pool). destruct (c pool) as [p1 [e|a]]; simpl in *.
  - exact Hc.
  - now rewrite Hk.
Qed.

Lemma keepsLength_newAccountData address network count :
  keepsLength (newAccountData address network count).
Proof. intros pool. apply newAccountData_length. Qed.

Lemma keepsLength_getOrCreateAccountData data account network count :
  keepsLength (getOrCreateAccountData data account network count).
Proof.
  destruct data as [[|d]|]; simpl;
    auto using keepsLength_newAccountData, keepsLength_ret.
Qed.

Lemma keepsLength_applyBalanceUpdate ad u :
  keepsLength (applyBalanceUpdate ad u).
Proof.
  unfold applyBalanceUpdate.
  destruct (JSObj.get _ ad) as [[|d]|]; try apply keepsLength_ret.
  apply keepsLength_bind; [apply keepsLength_newAccountData|].
  intros a. apply keepsLength_ret.
Qed.

Lemma keepsLength_forEachBalance batch : forall ad,
  keepsLength (forEachBalance ad batch).
Proof.
  induction batch as [|u batch IH]; intros ad; simpl.
  - apply keepsLength_ret.
  - apply keepsLength_bind; [apply keepsLength_applyBalanceUpdate|exact IH].
Qed.

Lemma keepsLength_reducer (st : AccountState) (act : Action) :
  keepsLength (accountSliceReducer st act).
Proof.
  destruct act as [x|x|batch|x n nm|x n av]; simpl;
    try apply keepsLength_ret.
  - unfold updateAccountBalance.
    apply keepsLength_bind; [apply keepsLength_forEachBalance|].
    intros ?. apply keepsLength_ret.
  - unfold updateAccountName. destruct (JSObj.get _ _);
      [|apply keepsLength_ret].
    apply keepsLength_bind; [apply keepsLength_getOrCreateAccountData|].
    intros ?. apply keepsLength_ret.
  - unfold updateENSAvatar. destruct (JSObj.get _ _);
      [|apply keepsLength_ret].
    apply keepsLength_bind; [apply keepsLength_getOrCreateAccountData|].
    intros ?. apply keepsLength_ret.
Qed.

(** X7: whatever is dispatched to the slice, and whether the dispatches
    complete or one of them throws, the pool of default names ends with as
    many entries as it started with. *)
Theorem pool_length_kept (actions : list Action) :
  forall (st : AccountState) (pool : Pool),
    length (fst (dispatchAll st actions pool)) = length pool.
Proof.
  induction actions as [|a actions IH]; intros st pool; simpl.
  - reflexivity.
  - apply (keepsLength_bind (accountSliceReducer st a)
             (fun st' => dispatchAll st' actions)).
    + apply keepsLength_reducer.
    + intros st'. exact (IH st').
Qed.

Lemma array_get_In {A : Type} (a : list (option A)) (i : Z) (x : A) :
  array_get a i = Some x -> In (Some x) a.
Proof.
  unfold array_get. destruct (i <? 0)%Z; [discriminate|].
  destruct (nth_error a (Z.to_nat i)) as [e|] eqn:Hn; [|discriminate].
  intros ->. eapply nth_error_In; eauto.
Qed.

Lemma removeAt_incl {A : Type} (n : nat) (l : list A) (x : A) :
  In x (removeAt n l) -> In x l.
Proof.
  revert l. induction n as [|n IH]; intros [|a l]; simpl; auto.
  unfold removeAt. simpl. fold (removeAt n l).
  intros [H|H]; auto.
Qed.

Lemma poolOfDefaultNames_newAccountData address network count pool :
  poolOfDefaultNames pool ->
  poolOfDefaultNames (fst (newAccountData address network count pool)).
Proof.
  intros Hp. unfold newAccountData.
  destruct (BigInt address) as [z|]; [|exact Hp].
  destruct (length pool =? 0)%nat; [exact Hp|].
  assert (Hin : forall e,
             In e (array_get pool
                     (Z.of_nat (count mod length pool) +
                      Z.rem z (Z.of_nat (length pool - count mod length pool)))
                   :: splice1
                        (Z.of_nat (count mod length pool) +
                         Z.rem z
                           (Z.of_nat (length pool - count mod length pool)))
                        pool) ->
             match e with
             | Some name => In name availableDefaultNames
             | None => True
             end).
  { unfold poolOfDefaultNames in Hp. rewrite Forall_forall in Hp.
    intros e [<-|He].
    - destruct (array_get pool _) as [name|] eqn:Hn; [|exact I].
      apply (Hp (Some name)). eapply array_get_In; eauto.
    - apply Hp. unfold splice1 in He. eapply removeAt_incl; eauto. }
  unfold poolOfDefaultNames.
  destruct (array_get pool _) as [name|] eqn:Hn; simpl;
    apply Forall_forall; exact Hin.
Qed.

Lemma newAccountData_filed a network count pool pool' d :
  poolOfDefaultNames pool ->
  newAccountData a network count pool = (pool', inr d) ->
  address d = a /\
  In (defaultName d) availableDefaultNames /\
  defaultAvatar d = avatarPath (defaultName d) /\
  balances d = JSObj.empty.
Proof.
  intros Hp. unfold newAccountData.
  destruct (BigInt a) as [z|]; [|discriminate].
  destruct (length pool =? 0)%nat; [discriminate|].
  destruct (array_get pool _) as [name|] eqn:Hn; [|discriminate].
  intros H. injection H as _ <-. simpl.
  repeat split.
  unfold poolOfDefaultNames in Hp. rewrite Forall_forall in Hp.
  apply (Hp (Some name)). eapply array_get_In; eauto.
Qed.

Lemma newAccountData_pool a network count pool pool' r :
  poolOfDefaultNames pool ->
  newAccountData a network count pool = (pool', r) ->
  poolOfDefaultNames pool'.
Proof.
  intros Hp H.
  pose proof (poolOfDefaultNames_newAccountData a network count pool Hp) as Hq.
  now rewrite H in Hq.
Qed.

Lemma get_In {V : Type} (k : string) (v : V) (o : JSObj.t V) :
  JSObj.get k o = Some v -> In (k, v) o.
Proof.
  induction o as [|[k' v'] o IH]; simpl; [discriminate|].
  destruct (String.eqb_spec k k') as [->|Hne].
  - intros H. injection H as ->. now left.
  - intros H. right. now apply IH.
Qed.

Lemma entryFiled_get ad k d :
  Forall entryFiled ad -> JSObj.get k ad = Some (Ready d) -> recordFiled k d.
Proof.
  intros Had Hg. rewrite Forall_forall in Had.
  exact (Had _ (get_In _ _ _ Hg)).
Qed.

Lemma recordFiled_withBalance k d u :
  recordFiled k d -> updateKey u = k ->
  recordFiled k
    (withBalances d (JSObj.set (symbol (asset (assetAmount u))) u (balances d))).
Proof.
  intros (Ha & Hn & Hv & Hb) Hu. unfold recordFiled. simpl.
  repeat split; auto.
  apply JSObjKeys.Forall_set; auto.
Qed.

Lemma recordFiled_withEns k d e :
  recordFiled k d -> recordFiled k (withEns d e).
Proof. intros H. exact H. Qed.

Lemma applyBalanceUpdate_filed ad u pool pool' r :
  poolOfDefaultNames pool -> Forall entryFiled ad ->
  applyBalanceUpdate ad u pool = (pool', r) ->
  poolOfDefaultNames pool' /\
  (forall ad', r = inr ad' -> Forall entryFiled ad').
Proof.
  intros Hp Had. unfold applyBalanceUpdate.
  destruct (JSObj.get (normalizeEVMAddress (ab_address u)) ad)
    as [[|d]|] eqn:Hu; intros H.
  - apply bind_cases in H. destruct H as [(e & H & ->)|(p1 & d & H1 & H)].
    + split; [eapply newAccountData_pool; eauto|discriminate].
    + injection H as <- <-.
      split; [eapply newAccountData_pool; eauto|].
      intros ad' Hr. injection Hr as <-.
      apply JSObjKeys.Forall_set; [|exact Had].
      destruct (newAccountData_filed _ _ _ _ _ _ Hp H1)
        as (Ha & Hn & Hv & Hb).
      unfold entryFiled, recordFiled. simpl.
      repeat split; auto.
  - injection H as <- <-. split; [exact Hp|].
    intros ad' Hr. injection Hr as <-.
    apply JSObjKeys.Forall_set; [|exact Had].
    apply recordFiled_withBalance; [|reflexivity].
    eapply entryFiled_get; eauto.
  - injection H as <- <-. split; [exact Hp|].
    intros ad' Hr. now injection Hr as <-.
Qed.

Lemma forEachBalance_filed batch : forall ad pool pool' r,
  poolOfDefaultNames pool -> Forall entryFiled ad ->
  forEachBalance ad batch pool = (pool', r) ->
  poolOfDefaultNames pool' /\
  (forall ad', r = inr ad' -> Forall entryFiled ad').
Proof.
  induction batch as [|u batch IH]; simpl; intros ad pool pool' r Hp Had H.
  - injection H as <- <-. split; [exact Hp|].
    intros ad' Hr. now injection Hr as <-.
  - apply bind_cases in H. destruct H as [(e & H & ->)|(p1 & ad1 & H1 & H)].
    + destruct (applyBalanceUpdate_filed _ _ _ _ _ Hp Had H) as [Hq _].
      split; [exact Hq|discriminate].
    + destruct (applyBalanceUpdate_filed _ _ _ _ _ Hp Had H1) as [Hq Hf].
      eapply IH; [exact Hq| |exact H]. now apply Hf.
Qed.

Lemma ensUpdate_filed (st : AccountState) key network count
    (attach : AccountData -> ENSInfo) pool pool' r entry :
  poolOfDefaultNames pool -> stateFiled st ->
  JSObj.get key (accountsData st) = Some entry ->
  (baseAccountData <- getOrCreateAccountData (Some entry) key network count ;;
   ret (withAccountsData st
          (JSObj.set key
             (Ready (withEns baseAccountData (attach baseAccountData)))
             (accountsData st)))) pool = (pool', r) ->
  poolOfDefaultNames pool' /\
  (forall st', r = inr st' -> stateFiled st').
Proof.
  intros Hp Hst Hentry H.
  apply bind_cases in H. destruct H as [(e & H & ->)|(p1 & base & H1 & H)].
  - split; [|discriminate].
    destruct entry as [|d]; simpl in H.
    + eapply newAccountData_pool; eauto.
    + discriminate.
  - injection H as <- <-.
    assert (Hbase : poolOfDefaultNames p1 /\ recordFiled key base).
    { destruct entry as [|d]; simpl in H1.
      - split; [eapply newAccountData_pool; eauto|].
        destruct (newAccountData_filed _ _ _ _ _ _ Hp H1)
          as (Ha & Hn & Hv & Hb).
        unfold recordFiled. rewrite Hb. repeat split; auto.
      - injection H1 as <- <-. split; [exact Hp|].
        eapply entryFiled_get; eauto. }
    destruct Hbase as [Hq Hb]. split; [exact Hq|].
    intros st' Hr. injection Hr as <-. unfold stateFiled. simpl.
    apply JSObjKeys.Forall_set; [exact Hb|exact Hst].
Qed.

Lemma reducer_filed (st : AccountState) (act : Action) pool pool' r :
  poolOfDefaultNames pool -> stateFiled st ->
  accountSliceReducer st act pool = (pool', r) ->
  poolOfDefaultNames pool' /\
  (forall st', r = inr st' -> stateFiled st').
Proof.
  intros Hp Hst.
  destruct act as [x|x|batch|x n nm|x n av]; simpl; intros H.
  - injection H as <- <-. split; [exact Hp|].
    intros st' Hr. injection Hr as <-. unfold loadAccount.
    destruct (JSObj.get _ _); [exact Hst|].
    unfold stateFiled. simpl. now apply JSObjKeys.Forall_set.
  - injection H as <- <-. split; [exact Hp|].
    intros st' Hr. injection Hr as <-. unfold deleteAccount.
    destruct (JSObj.get _ _); [|exact Hst].
    unfold stateFiled in *. simpl. unfold JSObj.remove.
    rewrite Forall_forall in *.
    intros kv Hkv. apply filter_In in Hkv. now apply Hst.
  - unfold updateAccountBalance in H.
    apply bind_cases in H. destruct H as [(e & H & ->)|(p1 & ad & H1 & H)].
    + destruct (forEachBalance_filed _ _ _ _ _ Hp Hst H) as [Hq _].
      split; [exact Hq|discriminate].
    + destruct (forEachBalance_filed _ _ _ _ _ Hp Hst H1) as [Hq Hf].
      injection H as <- <-. split; [exact Hq|].
      intros st' Hr. injection Hr as <-. unfold stateFiled. simpl.
      now apply Hf.
  - unfold updateAccountName in H.
    destruct (JSObj.get (normalizeEVMAddress x) (accountsData st)) eqn:Hx.
    + eapply (ensUpdate_filed st _ _ _
                (fun b => {| ens_name := Some nm;
                             ens_avatarURL := ens_avatarURL (ens b) |}));
        eauto.
    + injection H as <- <-. split; [exact Hp|].
      intros st' Hr. now injection Hr as <-.
  - unfold updateENSAvatar in H.
    destruct (JSObj.get (normalizeEVMAddress x) (accountsData st)) eqn:Hx.
    + eapply (ensUpdate_filed st _ _ _
                (fun b => {| ens_name := ens_name (ens b);
                             ens_avatarURL := Some av |}));
        eauto.
    + injection H as <- <-. split; [exact Hp|].
      intros st' Hr. now injection Hr as <-.
Qed.

Lemma freshPool_names : poolOfDefaultNames freshPool.
Proof.
  unfold poolOfDefaultNames, freshPool. apply Forall_forall.
  intros e He. apply in_map_iff in He. destruct He as (n & <- & Hn).
  exact Hn.
Qed.

Lemma rearrangesPool_ret {A : Type} (a : A) : rearrangesPool (ret a).
Proof. intros pool pool' a' H. injection H as <- _. reflexivity. Qed.

Lemma rearrangesPool_bind {A B : Type} (c : M A) (k : A -> M B) :
  rearrangesPool c -> (forall a, rearrangesPool (k a)) ->
  rearrangesPool (bind c k).
Proof.
  intros Hc Hk pool pool' b H.
  apply bind_inv in H. destruct H as (p1 & a & H1 & H2).
  etransitivity; [exact (Hk a _ _ _ H2)|exact (Hc _ _ _ H1)].
Qed.

(** A creation that returns took its name from inside the pool and put it
    in front. *)
Lemma rearrangesPool_newAccountData a network count :
  rearrangesPool (newAccountData a network count).
Proof.
  intros pool pool' d. unfold newAccountData.
  destruct (BigInt a) as [z|]; [|discriminate].
  destruct (length pool =? 0)%nat; [discriminate|].
  set (idx := (Z.of_nat (count mod length pool) +
               Z.rem z (Z.of_nat (length pool - count mod length pool)))%Z).
  destruct (array_get pool idx) as [name|] eqn:Hn; [|discriminate].
  intros H. injection H as <- _.
  unfold array_get in Hn.
  destruct (Z.ltb_spec idx 0) as [|Hpos]; [discriminate|].
  destruct (nth_error pool (Z.to_nat idx)) as [e|] eqn:He; [|discriminate].
  subst e.
  assert (Hlt : (Z.to_nat idx < length pool)%nat).
  { apply nth_error_Some. congruence. }
  rewrite <- (Z2Nat.id idx Hpos), splice1_at by exact Hlt.
  now apply removeAt_perm.
Qed.

Lemma rearrangesPool_getOrCreateAccountData data account network count :
  rearrangesPool (getOrCreateAccountData data account network count).
Proof.
  destruct data as [[|d]|]; simpl;
    auto using rearrangesPool_newAccountData, rearrangesPool_ret.
Qed.

Lemma rearrangesPool_applyBalanceUpdate ad u :
  rearrangesPool (applyBalanceUpdate ad u).
Proof.
  unfold applyBalanceUpdate.
  destruct (JSObj.get _ ad) as [[|d]|]; try apply rearrangesPool_ret.
  apply rearrangesPool_bind; [apply rearrangesPool_newAccountData|].
  intros a. apply rearrangesPool_ret.
Qed.

Lemma rearrangesPool_forEachBalance batch : forall ad,
  rearrangesPool (forEachBalance ad batch).
Proof.
  induction batch as [|u batch IH]; intros ad; simpl.
  - apply rearrangesPool_ret.
  - apply rearrangesPool_bind;
      [apply rearrangesPool_applyBalanceUpdate|exact IH].
Qed.

Lemma rearrangesPool_reducer (st : AccountState) (act : Action) :
  rearrangesPool (accountSliceReducer st act).
Proof.
  destruct act as [x|x|batch|x n nm|x n av]; simpl;
    try apply rearrangesPool_ret.
  - unfold updateAccountBalance.
    apply rearrangesPool_bind; [apply rearrangesPool_forEachBalance|].
    intros ?. apply rearrangesPool_ret.
  - unfold updateAccountName. destruct (JSObj.get _ _);
      [|apply rearrangesPool_ret].
    apply rearrangesPool_bind;
      [apply rearrangesPool_getOrCreateAccountData|].
    intros ?. apply rearrangesPool_ret.
  - unfold updateENSAvatar. destruct (JSObj.get _ _);
      [|apply rearrangesPool_ret].
    apply rearrangesPool_bind;
      [apply rearrangesPool_getOrCreateAccountData|].
    intros ?. apply rearrangesPool_ret.
Qed.

Lemma rearrangesPool_dispatchAll actions : forall st : AccountState,
  rearrangesPool (dispatchAll st actions).
Proof.
  induction actions as [|a actions IH]; intros st; simpl.
  - apply rearrangesPool_ret.
  - apply rearrangesPool_bind; [apply rearrangesPool_reducer|exact IH].
Qed.

(** X8: from a pool whose names are default names and a state whose records
    are filed (the fresh pool and the initial state are such), whatever is
    dispatched, the names in the pool are default names.  After dispatches
    that complete, the pool is a rearrangement of the pool they started
    from, so a pool of names is again a pool of names, the same ones, each
    a default name and none undefined; and every record is filed under its
    own address, carries one of the default names with the avatar path of
    that name, and holds only balances of its own address, each under the
    symbol of its asset. *)
Theorem records_stay_filed (actions : list Action) :
  forall (st : AccountState) (pool pool' : Pool) r,
    poolOfDefaultNames pool -> stateFiled st ->
    dispatchAll st actions pool = (pool', r) ->
    poolOfDefaultNames pool' /\
    (forall st', r = inr st' ->
       Permutation pool' pool /\
       (forall names, pool = map Some names ->
          exists names',
            pool' = map Some names' /\
            Permutation names' names /\
            Forall (fun name => In name availableDefaultNames) names') /\
       (forall k d, JSObj.get k (accountsData st') = Some (Ready d) ->
          address d = k /\
          In (defaultName d) availableDefaultNames /\
          defaultAvatar d = avatarPath (defaultName d) /\
          (forall s ab, JSObj.get s (balances d) = Some ab ->
             normalizeEVMAddress (ab_address ab) = k /\
             symbol (asset (assetAmount ab)) = s))).
Proof.
  assert (Hgen : forall st pool pool' r,
             poolOfDefaultNames pool -> stateFiled st ->
             dispatchAll st actions pool = (pool', r) ->
             poolOfDefaultNames pool' /\
             (forall st', r = inr st' -> stateFiled st')).
  { induction actions as [|a actions IH]; simpl;
      intros st pool pool' r Hp Hst H.
    - injection H as <- <-. split; [exact Hp|].
      intros st' Hr. now injection Hr as <-.
    - apply bind_cases in H. destruct H as [(e & H & ->)|(p1 & st1 & H1 & H)].
      + destruct (reducer_filed _ _ _ _ _ Hp Hst H) as [Hq _].
        split; [exact Hq|discriminate].
      + destruct (reducer_filed _ _ _ _ _ Hp Hst H1) as [Hq Hf].
        eapply IH; [exact Hq| |exact H]. now apply Hf. }
  intros st pool pool' r Hp Hst H.
  destruct (Hgen st pool pool' r Hp Hst H) as [Hq Hf].
  split; [exact Hq|].
  intros st' Hr. subst r.
  pose proof (rearrangesPool_dispatchAll actions st _ _ _ H) as Hperm.
  split; [exact Hperm|]. split.
  - intros names Hnames. subst pool.
    destruct (Permutation_map_inv _ _ Hperm) as (names' & Heq & Hp').
    exists names'. split; [exact Heq|]. split.
    + now symmetry.
    + subst pool'. unfold poolOfDefaultNames in Hq.
      rewrite Forall_forall in Hq. apply Forall_forall.
      intros name Hin. apply (Hq (Some name)). now apply in_map.
  - intros k d Hg.
    destruct (entryFiled_get _ _ _ (Hf st' eq_refl) Hg) as (Ha & Hn & Hv & Hb).
    split; [exact Ha|]. split; [exact Hn|]. split; [exact Hv|].
    intros s ab Hs. rewrite Forall_forall in Hb.
    exact (Hb _ (get_In _ _ _ Hs)).
Qed.

End PoolInvariants.

Section FiledExamples.
#[local] Existing Instance hexExternals.

Lemma records_stay_filed_witness :
  let run :=
    dispatchAll initialState
      [ LoadAccount "0xAB";
        UpdateAccountBalance [balanceFor "0xab" "ETH" 5];
        UpdateAccountName "0xab" "mainnet" "topa.eth" ] freshPool in
  match snd run with inr _ => True | inl _ => False end /\
  poolOfDefaultNames (fst run) /\
  (forall st', snd run = inr st' ->
     Permutation (fst run) freshPool /\
     (forall names, freshPool = map Some names ->
        exists names',
          fst run = map Some names' /\
          Permutation names' names /\
          Forall (fun name => In name availableDefaultNames) names') /\
     (forall k d, JSObj.get k (accountsData st') = Some (Ready d) ->
        address d = k /\
        In (defaultName d) availableDefaultNames /\
        defaultAvatar d = avatarPath (defaultName d) /\
        (forall s ab, JSObj.get s (balances d) = Some ab ->
           normalizeEVMAddress (ab_address ab) = k /\
           symbol (asset (assetAmount ab)) = s))).
Proof.
  split; [vm_compute; exact I|].
  apply (records_stay_filed _ initialState freshPool _ _
           freshPool_names (Forall_nil _) (surjective_pairing _)).
Defined.

(** The same run, evaluated: Topa went to the front of the pool. *)
Example pool_after_first_record :
  fst (dispatchAll initialState
         [ LoadAccount "0xAB";
           UpdateAccountBalance [balanceFor "0xab" "ETH" 5];
           UpdateAccountName "0xab" "mainnet" "topa.eth" ] freshPool) =
  map Some
    ["Topa"; "Phoenix"; "Matilda"; "Sirius"; "Atos"; "Sport"; "Lola"; "Foz"].
Proof. vm_compute. reflexivity. Qed.

End FiledExamples.

Section DistinctNames.
Context {E : Externals}.

Lemma removeAt_app_r {A : Type} (l1 l2 : list A) (n : nat) :
  (length l1 <= n)%nat ->
  removeAt n (l1 ++ l2) = (l1 ++ removeAt (n - length l1) l2)%list.
Proof.
  intros Hn. unfold removeAt.
  rewrite firstn_app, skipn_app.
  rewrite firstn_all2 by exact Hn.
  rewrite (skipn_all2 l1) by lia.
  replace (S n - length l1)%nat with (S (n - length l1)) by lia.
  simpl. now rewrite app_assoc.
Qed.

Lemma NoDup_app_disjoint {A : Type} (l1 l2 : list A) (x : A) :
  NoDup (l1 ++ l2) -> In x l2 -> ~ In x l1.
Proof.
  induction l1 as [|y l1 IH]; simpl; intros Hnd Hx; [tauto|].
  apply NoDup_cons_iff in Hnd. destruct Hnd as [Hy Hnd].
  intros [->|Hin].
  - apply Hy, in_or_app. now right.
  - exact (IH Hnd Hx Hin).
Qed.

Lemma NoDup_availableDefaultNames : NoDup availableDefaultNames.
Proof.
  unfold availableDefaultNames.
  repeat (constructor; [simpl; intuition discriminate|]).
  constructor.
Qed.

(** With the names already given at the front of the pool and a count of
    existing accounts that is at least their number, the next name comes
    from behind them. *)
Lemma createAccounts_distinct calls : forall used rest,
  NoDup (used ++ rest) ->
  length (used ++ rest) = length availableDefaultNames ->
  Forall (fun c => unsignedAddress (fst (fst c))) calls ->
  countsFrom (length used) calls ->
  exists names' ds,
    createAccounts calls (map Some (used ++ rest)) = (map Some names', inr ds) /\
    NoDup (map defaultName ds) /\
    (forall d, In d ds -> ~ In (defaultName d) used).
Proof.
  induction calls as [|[[a n] c] calls IH];
    intros used rest Hnd Hlen Hcalls Hcounts.
  - exists (used ++ rest)%list, []. simpl.
    split; [reflexivity|]. split; [constructor|]. intros d [].
  - inversion Hcalls as [|? ? (z & Hbig & Hz) Hrest]; subst.
    simpl in Hbig. destruct Hcounts as [[Hk Hc] Hcounts].
    assert (Hne : (used ++ rest)%list <> []).
    { intros Heq. rewrite Heq in Hlen. discriminate. }
    destruct (newAccountData_on_names (used ++ rest) a n c z Hbig Hz Hne)
      as (name & Hname & Hrun).
    cbv zeta in Hname, Hrun.
    rewrite Hlen in Hname, Hrun.
    rewrite (Nat.mod_small c _ Hc) in Hname, Hrun.
    set (index := (c + Z.to_nat
                         (z mod Z.of_nat (length availableDefaultNames - c)))%nat)
      in *.
    assert (Hidx : (length used <= index)%nat) by (unfold index; lia).
    rewrite nth_error_app2 in Hname by exact Hidx.
    rewrite removeAt_app_r in Hrun by exact Hidx.
    assert (Hin : In name rest) by (eapply nth_error_In; eauto).
    assert (Hperm : Permutation
                      ((name :: used) ++ removeAt (index - length used) rest)
                      (used ++ rest)).
    { simpl. etransitivity; [apply Permutation_middle|].
      apply Permutation_app_head. now apply removeAt_perm. }
    destruct (IH (name :: used) (removeAt (index - length used) rest))
      as (names' & ds & Hrun2 & Hnd2 & Hout).
    + eapply Permutation_NoDup; [apply Permutation_sym; exact Hperm|exact Hnd].
    + rewrite (Permutation_length Hperm). exact Hlen.
    + exact Hrest.
    + exact Hcounts.
    + eexists names', (_ :: ds). simpl.
      rewrite (bind_inr _ _ _ _ _ Hrun).
      simpl in Hrun2. rewrite (bind_inr _ _ _ _ _ Hrun2).
      split; [reflexivity|]. simpl. split.
      * constructor; [|exact Hnd2].
        intros Hn. apply in_map_iff in Hn. destruct Hn as (d & Hd & Hdin).
        apply (Hout d Hdin). rewrite Hd. now left.
      * intros d [<-|Hd]; simpl.
        -- intros Hu. exact (NoDup_app_disjoint _ _ _ Hnd Hin Hu).
        -- intros Hu. apply (Hout d Hd). now right.
Qed.

(** X9: from the fresh pool, accounts created for addresses that read as
    unsigned integers, each with a count of existing accounts at least the
    number created before it and below the size of the pool, all get
    different default names: the names already given sit at the front of
    the pool and are skipped. *)
Theorem first_names_distinct (calls : list (HexString * Network * nat)) :
  Forall (fun c => unsignedAddress (fst (fst c))) calls ->
  countsFrom 0 calls ->
  exists pool' ds,
    createAccounts calls freshPool = (pool', inr ds) /\
    NoDup (map defaultName ds).
Proof.
  intros Hcalls Hcounts.
  destruct (createAccounts_distinct calls [] availableDefaultNames
              NoDup_availableDefaultNames eq_refl Hcalls Hcounts)
    as (names' & ds & Hrun & Hnd & _).
  exists (map Some names'), ds. split; [exact Hrun|exact Hnd].
Qed.

End DistinctNames.

Section DistinctNamesExamples.
#[local] Existing Instance hexExternals.

Lemma first_names_distinct_witness :
  exists pool' ds,
    createAccounts eightCalls freshPool = (pool', inr ds) /\
    NoDup (map defaultName ds).
Proof.
  apply (first_names_distinct eightCalls).
  - repeat constructor; eexists; (split; [reflexivity|discriminate]).
  - simpl. lia.
Defined.

End DistinctNamesExamples.

Section LoadThenBalance.
Context {E : Externals}.



End LoadThenBalance.

Section LoadThenBalanceExamples.
#[local] Existing Instance hexExternals.


End LoadThenBalanceExamples.

Section PortfolioOrder.
Context {E : Externals}.

Lemma memb_In ks s : memb ks s = true <-> In s ks.
Proof.
  unfold memb. rewrite existsb_exists. split.
  - intros (x & Hx & Heq). apply String.eqb_eq in Heq. now subst.
  - intros H. exists s. split; [exact H|apply String.eqb_refl].
Qed.

Lemma memb_app ks s x :
  memb (ks ++ [x]) s = memb ks s || String.eqb s x.
Proof. unfold memb. rewrite existsb_app. simpl. now rewrite orb_false_r. Qed.

Lemma filter_new_after_present ks x l :
  In x ks ->
  filter (fun y => negb (memb ks y))
    (filter (fun y => negb (String.eqb y x)) l) =
  filter (fun y => negb (memb ks y)) l.
Proof.
  intros Hx. induction l as [|y l IH]; simpl; [reflexivity|].
  destruct (String.eqb_spec y x) as [->|Hne]; simpl.
  - rewrite IH. apply memb_In in Hx. now rewrite Hx.
  - now rewrite IH.
Qed.

Lemma filter_new_after_absent ks x l :
  filter (fun y => negb (memb (ks ++ [x]) y)) l =
  filter (fun y => negb (memb ks y))
    (filter (fun y => negb (String.eqb y x)) l).
Proof.
  induction l as [|y l IH]; simpl; [reflexivity|].
  rewrite memb_app, IH.
  destruct (String.eqb y x); simpl.
  - now rewrite orb_true_r.
  - now rewrite orb_false_r.
Qed.

Lemma plainKey_not_proto s : plainKey s = true -> s <> "__proto__".
Proof.
  unfold plainKey. intros H ->. discriminate.
Qed.

(** The keys of the accumulator of the [reduce]: those it had, then the new
    symbols in the order they first come. *)
Lemma fold_combineStep_keys l : forall acc,
  Forall (fun a => symbol (asset a) <> "__proto__") l ->
  JSObj.keys (own (fold_left combineStep l acc)) =
  (JSObj.keys (own acc) ++
   filter (fun s => negb (memb (JSObj.keys (own acc)) s))
     (firstOccurrences (map (fun a => symbol (asset a)) l)))%list.
Proof.
  induction l as [|x l IH]; intros acc Hl; simpl.
  - now rewrite app_nil_r.
  - inversion Hl as [|? ? Hx Hl']; subst.
    rewrite IH by exact Hl'.
    rewrite combineStep_own_other by exact Hx.
    rewrite JSObjMore.keys_set.
    destruct (in_dec string_dec (symbol (asset x)) (JSObj.keys (own acc)))
      as [Hin|Hout].
    + rewrite (proj2 (memb_In _ _) Hin). simpl.
      now rewrite filter_new_after_present.
    + assert (Hm : memb (JSObj.keys (own acc)) (symbol (asset x)) = false).
      { destruct (memb _ _) eqn:Hm; [|reflexivity].
        apply memb_In in Hm. contradiction. }
      rewrite Hm. simpl. rewrite <- app_assoc. simpl.
      now rewrite filter_new_after_absent.
Qed.

Lemma fold_combineStep_asset l : forall acc s a,
  Forall (fun a => symbol (asset a) <> "__proto__") l ->
  JSObj.get s (own (fold_left combineStep l acc)) = Some a ->
  (exists x, lastWithSymbol s l = Some x /\ asset a = asset x) \/
  (lastWithSymbol s l = None /\
   exists b, JSObj.get s (own acc) = Some b /\ asset a = asset b).
Proof.
  induction l as [|x l IH]; intros acc s a Hl; simpl.
  - intros H. right. eauto.
  - inversion Hl as [|? ? Hx Hl']; subst.
    intros H.
    destruct (IH _ _ _ Hl' H) as [(y & Hy & Ha)|(Hnone & b & Hb & Ha)].
    + left. rewrite Hy. eauto.
    + rewrite Hnone. rewrite combineStep_own_other in Hb by exact Hx.
      rewrite JSObjFacts.get_set, (String.eqb_sym s) in Hb.
      destruct (String.eqb (symbol (asset x)) s).
      * injection Hb as <-. left. eauto.
      * right. eauto.
Qed.

(** X11: from a state whose records file balances under their own symbol,
    and when no balance of the records after [updateAccountBalance] is of an
    asset whose symbol is [__proto__] or starts with a digit, the entries of
    the combined portfolio come in the order in which their symbols first
    occur among the balances of the records, and the entry of a symbol
    carries the asset of the last balance with that symbol. *)
Theorem portfolio_order_and_assets
    (st : AccountState) (batch : list AccountBalance)
    (pool pool' : Pool) (st' : AccountState) :
  stateKeyed st ->
  updateAccountBalance st batch pool = (pool', inr st') ->
  Forall (fun a => plainKey (symbol (asset a)) = true)
    (combinedAccountBalances (accountsData st')) ->
  let held := combinedAccountBalances (accountsData st') in
  map (fun a => symbol (asset a)) (assets (combinedData st')) =
    firstOccurrences (map (fun a => symbol (asset a)) held) /\
  (forall s a,
     combinedEntry s st' = Some a ->
     exists x, lastWithSymbol s held = Some x /\ asset a = asset x).
Proof.
  intros _ H Hplain held.
  apply updateAccountBalance_inv in H. destruct H as (ad & _ & ->).
  unfold held, combinedEntry. clear held. simpl. simpl in Hplain.
  assert (Hl : Forall (fun a => symbol (asset a) <> "__proto__")
                 (combinedAccountBalances ad)).
  { eapply Forall_impl; [|exact Hplain].
    intros a Ha. now apply plainKey_not_proto. }
  unfold combineAssets.
  destruct (fold_combineStep (combinedAccountBalances ad) emptyAccumulator
              (Forall_nil _) (NoDup_nil _) eq_refl) as (Hk & _).
  cbv zeta in Hk. split.
  - rewrite symbols_values_keyed by exact Hk.
    rewrite fold_combineStep_keys by exact Hl. simpl.
    induction (firstOccurrences _) as [|y l IH]; simpl; [reflexivity|].
    now rewrite IH.
  - intros s a Ha. rewrite find_values_keyed in Ha by exact Hk.
    destruct (fold_combineStep_asset _ _ _ _ Hl Ha)
      as [Hx|(_ & b & Hb & _)]; [exact Hx|discriminate].
Qed.

End PortfolioOrder.

Section PortfolioOrderExamples.
#[local] Existing Instance hexExternals.

Lemma portfolio_order_and_assets_witness :
  let run :=
    updateAccountBalance twoLoading
      [balanceFor "0xab" "ETH" 5; balanceFor "0xcd" "DAI" 1;
       balanceFor "0xcd" "ETH" 7] freshPool in
  exists st',
    stateKeyed twoLoading /\
    snd run = inr st' /\
    Forall (fun a => plainKey (symbol (asset a)) = true)
      (combinedAccountBalances (accountsData st')) /\
    let held := combinedAccountBalances (accountsData st') in
    map (fun a => symbol (asset a)) (assets (combinedData st')) =
      firstOccurrences (map (fun a => symbol (asset a)) held) /\
    (forall s a,
       combinedEntry s st' = Some a ->
       exists x, lastWithSymbol s held = Some x /\ asset a = asset x).
Proof.
  assert (Hkeyed : stateKeyed twoLoading).
  { repeat constructor. }
  eexists. split; [exact Hkeyed|]. split; [reflexivity|].
  assert (Hplain :
            Forall (fun a => plainKey (symbol (asset a)) = true)
              (combinedAccountBalances
                 [("0xab",
                   Ready {| address := "0xab"; network := "mainnet";
                            balances := [("ETH", balanceFor "0xab" "ETH" 5)];
                            ens := {| ens_name := None;
                                      ens_avatarURL := None |};
                            defaultName := "Topa";
                            defaultAvatar := "./images/avatars/topa@2x.png" |});
                  ("0xcd",
                   Ready {| address := "0xcd"; network := "mainnet";
                            balances := [("DAI", balanceFor "0xcd" "DAI" 1);
                                         ("ETH", balanceFor "0xcd" "ETH" 7)];
                            ens := {| ens_name := None;
                                      ens_avatarURL := None |};
                            defaultName := "Sport";
                            defaultAvatar :=
                              "./images/avatars/sport@2x.png" |})])).
  { repeat constructor. }
  split; [exact Hplain|].
  exact (portfolio_order_and_assets twoLoading
           [balanceFor "0xab" "ETH" 5; balanceFor "0xcd" "DAI" 1;
            balanceFor "0xcd" "ETH" 7] freshPool _ _
           Hkeyed eq_refl Hplain).
Defined.

End PortfolioOrderExamples.

(** * Properties of the keyrings slice *)

Section KeyringsFacts.
Context {K : KeyringExternals}.
Import Keyrings.

Lemma keyrings_quiet_step (st : KeyringsState) (a : Action) :
  status st = Locked -> bringsNothing a = true ->
  keyrings (reducer st a) = keyrings st /\
  keyringMetadata (reducer st a) = keyringMetadata st /\
  status (reducer st a) = Locked.
Proof.
  intros Hst Ha. destruct a as [| |ks md|p| |]; simpl in *; auto.
  - discriminate.
  - unfold updateKeyrings. rewrite Ha, Hst. simpl. auto.
Qed.

(** X12: once the keyrings are locked, whatever is dispatched short of an
    unlock or an update that brings keyrings (the keyring service clears
    its keyrings with an empty update) leaves the keyrings and their
    metadata as they were, and the status locked. *)
Theorem keyrings_kept_while_locked (actions : list Action) :
  forall st : KeyringsState,
    status st = Locked ->
    forallb bringsNothing actions = true ->
    keyrings (dispatchAll st actions) = keyrings st /\
    keyringMetadata (dispatchAll st actions) = keyringMetadata st /\
    status (dispatchAll st actions) = Locked.
Proof.
  induction actions as [|a actions IH]; intros st Hst Hall; simpl.
  - auto.
  - simpl in Hall. apply andb_true_iff in Hall. destruct Hall as [Ha Hall].
    destruct (keyrings_quiet_step st a Hst Ha) as (Hk & Hm & Hs).
    destruct (IH (reducer st a) Hs Hall) as (Hk' & Hm' & Hs').
    unfold dispatchAll in *. rewrite Hk', Hm', Hs'. auto.
Qed.

Lemma status_unset_step (st : KeyringsState) (a : Action) :
  setsStatus a = false -> status (reducer st a) = status st.
Proof.
  destruct a as [| |ks md|p| |]; simpl; try discriminate; auto.
  intros _. unfold updateKeyrings. now destruct (_ && _).
Qed.

Lemma status_unset (actions : list Action) : forall st : KeyringsState,
  forallb (fun a => negb (setsStatus a)) actions = true ->
  status (dispatchAll st actions) = status st.
Proof.
  induction actions as [|a actions IH]; intros st Hall; simpl; [reflexivity|].
  simpl in Hall. apply andb_true_iff in Hall. destruct Hall as [Ha Hall].
  unfold dispatchAll in *. rewrite IH by exact Hall.
  apply status_unset_step. now destruct (setsStatus a).
Qed.

Lemma dispatchAll_app (st : KeyringsState) (l1 l2 : list Action) :
  dispatchAll st (l1 ++ l2) = dispatchAll (dispatchAll st l1) l2.
Proof. unfold dispatchAll. apply fold_left_app. Qed.

(** X13: the status is what the last [keyringLocked] or [keyringUnlocked]
    of a sequence of dispatches set, and the status one started with when
    there is none: no other action changes it, and none sets it back to
    uninitialized. *)
Theorem status_set_by_last_lock (st : KeyringsState) :
  (forall actions,
     forallb (fun a => negb (setsStatus a)) actions = true ->
     status (dispatchAll st actions) = status st) /\
  (forall before after,
     forallb (fun a => negb (setsStatus a)) after = true ->
     status (dispatchAll st (before ++ KeyringLocked :: after)) = Locked) /\
  (forall before after,
     forallb (fun a => negb (setsStatus a)) after = true ->
     status (dispatchAll st (before ++ KeyringUnlocked :: after)) = Unlocked) /\
  (forall actions,
     status (dispatchAll st actions) = Uninitialized ->
     status st = Uninitialized).
Proof.
  split; [|split; [|split]].
  - intros actions. apply status_unset.
  - intros before after Hafter.
    rewrite dispatchAll_app.
    change (dispatchAll ?s (KeyringLocked :: after))
      with (dispatchAll (keyringLocked s) after).
    now rewrite status_unset.
  - intros before after Hafter.
    rewrite dispatchAll_app.
    change (dispatchAll ?s (KeyringUnlocked :: after))
      with (dispatchAll (keyringUnlocked s) after).
    now rewrite status_unset.
  - intros actions. revert st.
    induction actions as [|a actions IH]; intros st; simpl; [auto|].
    intros H. apply IH in H.
    destruct a as [| |ks md|p| |]; simpl in H; try discriminate; auto.
    unfold updateKeyrings in H. now destruct (_ && _).
Qed.

Lemma lastElement_snoc {A : Type} (l : list A) (x : A) :
  lastElement (l ++ [x]) = Some x.
Proof. unfold lastElement. now rewrite rev_app_distr. Qed.

(** X14: the [importKeyring] thunk selects the first address of the
    keyring that comes last, so of the keyring a service that appends has
    just added, on the network of the account selected so far; the address
    is [undefined] when that keyring has none, and with no keyring at all
    the thunk throws. *)
Theorem importKeyring_selects_last (st : KeyringsState)
    (current : SelectedAccount) :
  (keyrings st = [] ->
   importKeyring_selection st (Some current) = inl TypeError) /\
  (forall earlier keyring,
     keyrings st = (earlier ++ [keyring])%list ->
     importKeyring_selection st (Some current) =
       inr {| selected_address := hd_error (addresses keyring);
              selected_network := selected_network current |}) /\
  importKeyring_selection st None = inl TypeError.
Proof.
  unfold importKeyring_selection. split; [|split].
  - intros ->. reflexivity.
  - intros earlier keyring ->. now rewrite lastElement_snoc.
  - destruct (lastElement (keyrings st)); reflexivity.
Qed.

End KeyringsFacts.

Section KeyringsExamples.
#[local] Existing Instance listKeyrings.

Lemma keyrings_kept_while_locked_witness :
  let st' :=
    Keyrings.dispatchAll lockedWithKeyring
      [ Keyrings.UpdateKeyrings [] [];
        Keyrings.ImportKeyringPending;
        Keyrings.KeyringLocked;
        Keyrings.SetKeyringToVerify None ] in
  Keyrings.keyrings st' = Keyrings.keyrings lockedWithKeyring /\
  Keyrings.keyringMetadata st' = Keyrings.keyringMetadata lockedWithKeyring /\
  Keyrings.status st' = Keyrings.Locked.
Proof.
  exact (keyrings_kept_while_locked
           [ Keyrings.UpdateKeyrings [] [];
             Keyrings.ImportKeyringPending;
             Keyrings.KeyringLocked;
             Keyrings.SetKeyringToVerify None ]
           lockedWithKeyring eq_refl eq_refl).
Defined.

(** The same empty update on the unlocked state erases the keyrings and
    their metadata. *)
Example empty_update_when_unlocked :
  let st' :=
    Keyrings.updateKeyrings (Keyrings.keyringUnlocked lockedWithKeyring)
      [] [] in
  Keyrings.keyrings st' = [] /\ Keyrings.keyringMetadata st' = [].
Proof. split; reflexivity. Qed.

End KeyringsExamples.

(** * Properties of the account switcher *)

Section SwitcherFacts.
Context {W : SwitcherExternals}.

Lemma pushUnder_ok acc k t :
  inheritedName k = false ->
  pushUnder acc k t =
  inr (JSObj.set k (match JSObj.get k acc with
                    | Some group => group ++ [t]
                    | None => [t]
                    end)%list acc).
Proof.
  intros Hk. unfold pushUnder.
  destruct (JSObj.get k acc) as [group|]; [reflexivity|].
  rewrite Hk. now rewrite JSObjMore.set_set.
Qed.

Lemma pushUnder_throws acc k t :
  inheritedName k = true -> JSObj.get k acc = None ->
  pushUnder acc k t = inl TypeError.
Proof. intros Hk Hg. unfold pushUnder. now rewrite Hg, Hk. Qed.

Lemma groupStep_key acc t k :
  groupKey t = Some k -> groupStep acc t = pushUnder acc k t.
Proof.
  unfold groupStep, groupKey.
  destruct (signingMethod t) as [[kid|dev]|].
  - destruct (keyringId t) as [id|]; [|discriminate].
    destruct (String.eqb id ""); [discriminate|].
    intros H. now injection H as ->.
  - intros H. now injection H as ->.
  - intros H. now injection H as <-.
Qed.

Lemma groupStep_nokey acc t :
  groupKey t = None -> groupStep acc t = inr acc.
Proof.
  unfold groupStep, groupKey.
  destruct (signingMethod t) as [[kid|dev]|]; try discriminate.
  destruct (keyringId t) as [id|]; [|reflexivity].
  destruct (String.eqb id ""); [reflexivity|discriminate].
Qed.

Lemma underKey_key t k k' :
  groupKey t = Some k -> underKey k' t = String.eqb k k'.
Proof. unfold underKey. now intros ->. Qed.

Lemma underKey_nokey t k' : groupKey t = None -> underKey k' t = false.
Proof. unfold underKey. now intros ->. Qed.

(** One step of the [reduce], for a total whose key is not inherited. *)
Lemma groupStep_ok acc t :
  (forall k, groupKey t = Some k -> inheritedName k = false) ->
  exists acc1,
    groupStep acc t = inr acc1 /\
    (forall k,
       JSObj.get k acc1 =
       if underKey k t
       then Some (match JSObj.get k acc with
                  | Some group => group ++ [t]
                  | None => [t]
                  end)%list
       else JSObj.get k acc) /\
    JSObj.keys acc1 =
      match groupKey t with
      | Some k => if memb (JSObj.keys acc) k then JSObj.keys acc
                  else (JSObj.keys acc ++ [k])%list
      | None => JSObj.keys acc
      end /\
    (NoDup (JSObj.keys acc) -> NoDup (JSObj.keys acc1)).
Proof.
  intros Hok. destruct (groupKey t) as [k|] eqn:Hk.
  - eexists. split.
    { rewrite (groupStep_key _ _ _ Hk).
      apply pushUnder_ok. now apply Hok. }
    split; [|split].
    + intros k'. rewrite (underKey_key _ _ _ Hk).
      rewrite JSObjFacts.get_set, (String.eqb_sym k' k).
      destruct (String.eqb_spec k k') as [->|]; reflexivity.
    + rewrite JSObjMore.keys_set.
      destruct (in_dec string_dec k (JSObj.keys acc)) as [Hin|Hout].
      * apply memb_In in Hin. now rewrite Hin.
      * destruct (memb (JSObj.keys acc) k) eqn:Hm; [|reflexivity].
        apply memb_In in Hm. contradiction.
    + apply JSObjKeys.NoDup_keys_set.
  - exists acc. split; [now apply groupStep_nokey|].
    split; [|split; auto].
    intros k'. now rewrite (underKey_nokey _ _ Hk).
Qed.

(** The [reduce], over totals none of whose keys is inherited. *)
Lemma reduce_groupStep_ok totals : forall acc,
  Forall (fun k => inheritedName k = false) (groupKeys totals) ->
  exists acc',
    reduceThrowing groupStep totals acc = inr acc' /\
    (forall k,
       JSObj.get k acc' =
       match filter (underKey k) totals with
       | [] => JSObj.get k acc
       | more =>
           Some (match JSObj.get k acc with
                 | Some group => group ++ more
                 | None => more
                 end)%list
       end) /\
    JSObj.keys acc' =
      (JSObj.keys acc ++
       filter (fun s => negb (memb (JSObj.keys acc) s))
         (firstOccurrences (groupKeys totals)))%list /\
    (NoDup (JSObj.keys acc) -> NoDup (JSObj.keys acc')).
Proof.
  induction totals as [|t totals IH]; intros acc Hall.
  - exists acc. simpl. rewrite app_nil_r. auto.
  - assert (Hhere : forall k, groupKey t = Some k -> inheritedName k = false).
    { intros k Hk. simpl in Hall. rewrite Hk in Hall.
      now inversion Hall. }
    assert (Hrest : Forall (fun k => inheritedName k = false)
                      (groupKeys totals)).
    { simpl in Hall. destruct (groupKey t); [now inversion Hall|exact Hall]. }
    destruct (groupStep_ok acc t Hhere) as (acc1 & Hstep & Hget1 & Hkeys1 & Hnd1).
    destruct (IH acc1 Hrest) as (acc' & Hrun & Hget & Hkeys & Hnd).
    exists acc'. split; [|split; [|split]].
    + simpl. rewrite Hstep. exact Hrun.
    + intros k. rewrite Hget, Hget1. simpl.
      destruct (underKey k t); [|reflexivity].
      destruct (filter (underKey k) totals) as [|t' more];
        destruct (JSObj.get k acc) as [group|]; simpl;
        try rewrite <- app_assoc; reflexivity.
    + rewrite Hkeys, Hkeys1. simpl.
      destruct (groupKey t) as [k|]; [|reflexivity].
      destruct (memb (JSObj.keys acc) k) eqn:Hm; simpl; rewrite Hm; simpl.
      * apply memb_In in Hm. now rewrite filter_new_after_present.
      * rewrite <- app_assoc. simpl. now rewrite filter_new_after_absent.
    + auto.
Qed.

(** The [reduce] throws at the first total whose key is inherited. *)
Lemma reduce_groupStep_throws totals : forall acc,
  (forall k, inheritedName k = true -> JSObj.get k acc = None) ->
  Exists (fun k => inheritedName k = true) (groupKeys totals) ->
  reduceThrowing groupStep totals acc = inl TypeError.
Proof.
  induction totals as [|t totals IH]; intros acc Hacc Hex; simpl in Hex.
  - inversion Hex.
  - simpl. destruct (groupKey t) as [k|] eqn:Hk.
    + rewrite (groupStep_key _ _ _ Hk).
      destruct (inheritedName k) eqn:Hin.
      * rewrite pushUnder_throws by auto. reflexivity.
      * rewrite pushUnder_ok by exact Hin. simpl.
        apply IH.
        -- intros k' Hk'. rewrite JSObjFacts.get_set_other; [now apply Hacc|].
           intros ->. congruence.
        -- inversion Hex as [? ? Hhead|? ? Htail]; subst;
             [congruence|exact Htail].
    + rewrite (groupStep_nokey _ _ Hk). simpl. now apply IH.
Qed.

Lemma values_by_keys {V : Type} (o : JSObj.t V) :
  NoDup (JSObj.keys o) ->
  map Some (JSObj.values o) = map (fun k => JSObj.get k o) (JSObj.keys o).
Proof.
  induction o as [|[k v] o IH]; simpl; intros Hnd; [reflexivity|].
  apply NoDup_cons_iff in Hnd. destruct Hnd as [Hk Hnd].
  rewrite String.eqb_refl. f_equal.
  rewrite (IH Hnd). apply map_ext_in.
  intros k' Hk'. destruct (String.eqb_spec k' k) as [->|]; [contradiction|].
  reflexivity.
Qed.

(** The groups of totals none of whose keys is inherited. *)
Lemma accountTotalsByType_ok (totals : list AccountTotal) :
  Forall (fun k => inheritedName k = false) (groupKeys totals) ->
  exists groups,
    accountTotalsByType totals = inr groups /\
    (forall k,
       JSObj.get k groups =
       match filter (underKey k) totals with
       | [] => None
       | group => Some group
       end) /\
    JSObj.keys groups = firstOccurrences (groupKeys totals) /\
    JSObj.values groups =
      map (fun k => filter (underKey k) totals)
        (firstOccurrences (groupKeys totals)).
Proof.
  intros Hall.
  destruct (reduce_groupStep_ok totals JSObj.empty Hall)
    as (groups & Hrun & Hget & Hkeys & Hnd).
  assert (Hget' : forall k,
             JSObj.get k groups =
             match filter (underKey k) totals with
             | [] => None
             | group => Some group
             end).
  { intros k. rewrite Hget. simpl.
    now destruct (filter (underKey k) totals). }
  assert (Hkeys' : JSObj.keys groups = firstOccurrences (groupKeys totals)).
  { rewrite Hkeys. simpl.
    generalize (firstOccurrences (groupKeys totals)). intros l.
    induction l as [|y l IH]; simpl; [reflexivity|].
    now rewrite IH. }
  exists groups. split; [exact Hrun|]. split; [exact Hget'|].
  split; [exact Hkeys'|].
  pose proof (values_by_keys _ (Hnd (NoDup_nil _))) as Hv.
  assert (Hsome :
    map (fun k => JSObj.get k groups) (JSObj.keys groups) =
    map Some (map (fun k => filter (underKey k) totals) (JSObj.keys groups))).
  { rewrite map_map. apply map_ext_in. intros k Hk.
    rewrite Hget'.
    destruct (filter (underKey k) totals) eqn:Hf; [|reflexivity].
    exfalso. revert Hk. apply JSObjKeys.get_None_iff.
    now rewrite Hget', Hf. }
  rewrite Hsome, Hkeys' in Hv.
  revert Hv. generalize (JSObj.values groups).
  generalize (map (fun k => filter (underKey k) totals)
                (firstOccurrences (groupKeys totals))).
  intros l2 l1. revert l2.
  induction l1 as [|x l1 IH]; intros [|y l2]; simpl; try discriminate; auto.
  intros H. injection H as -> H. f_equal. now apply IH.
Qed.

(** X15: the switcher groups the account totals of a type by wallet, a
    keyring account under its [keyringId], a Ledger account under its
    device, any other under ["readOnly"].  When none of these keys is a name
    inherited from [Object.prototype], the [reduce] returns, the group
    under a key holds exactly the totals of that key in the order they
    came, there is no empty group, and a keyring account without a
    [keyringId] is in no group.  When one of the keys is such a name, the
    [reduce] throws a TypeError. *)
Theorem accountTotalsByType_groups (totals : list AccountTotal) :
  (Forall (fun k => inheritedName k = false) (groupKeys totals) ->
   exists groups,
     accountTotalsByType totals = inr groups /\
     (forall k,
        JSObj.get k groups =
        match filter (underKey k) totals with
        | [] => None
        | group => Some group
        end) /\
     (forall k group, JSObj.get k groups = Some group -> group <> []) /\
     (forall t k group,
        groupKey t = None ->
        JSObj.get k groups = Some group -> ~ In t group)) /\
  (Exists (fun k => inheritedName k = true) (groupKeys totals) ->
   accountTotalsByType totals = inl TypeError).
Proof.
  split.
  - intros Hall.
    destruct (accountTotalsByType_ok totals Hall)
      as (groups & Hrun & Hget & _ & _).
    exists groups. split; [exact Hrun|]. split; [exact Hget|]. split.
    + intros k group. rewrite Hget.
      destruct (filter (underKey k) totals); [discriminate|].
      intros H. injection H as <-. discriminate.
    + intros t k group Ht. rewrite Hget.
      destruct (filter (underKey k) totals) as [|x l] eqn:Hf; [discriminate|].
      intros H. injection H as <-. rewrite <- Hf. intros Hin.
      apply filter_In in Hin. destruct Hin as [_ Hu].
      unfold underKey in Hu. rewrite Ht in Hu. discriminate.
  - intros Hex. apply reduce_groupStep_throws; [|exact Hex].
    reflexivity.
Qed.

Lemma walletSectionsFrom_nonempty groups : forall idx,
  Forall (fun g => g <> []) groups ->
  exists sections,
    walletSectionsFrom idx groups = inr sections /\
    map walletAccounts sections = groups /\
    map walletNumber sections = seq (idx + 1) (length groups) /\
    Forall (fun s => option_map signingMethod (hd_error (walletAccounts s))
                     = Some (headerSigningMethod s)) sections.
Proof.
  induction groups as [|g groups IH]; intros idx Hall; simpl.
  - exists []. auto.
  - inversion Hall as [|? ? Hg Hrest]; subst.
    destruct g as [|first g]; [congruence|].
    destruct (IH (S idx) Hrest) as (sections & Hrun & Hacc & Hnum & Hhd).
    rewrite Hrun. simpl. eexists. split; [reflexivity|]. simpl.
    rewrite Hacc, Hnum. split; [reflexivity|]. split.
    + now replace (S idx + 1)%nat with (S (idx + 1)) by lia.
    + constructor; [reflexivity|exact Hhd].
Qed.

(** X16: when none of the keys the account totals are grouped under is a
    name inherited from [Object.prototype] or starts with a digit, the
    wallet sections of the switcher are built without an exception, the
    first account of a group always being there; they are the groups in the
    order in which their keys first occur among the account totals,
    numbered from 1, each headed by the signing method of its first
    account. *)
Theorem walletSections_numbered (totals : list AccountTotal) :
  Forall (fun k => inheritedName k = false /\ startsWithDigit k = false)
    (groupKeys totals) ->
  exists sections,
    walletSections totals = inr sections /\
    map walletAccounts sections =
      map (fun k => filter (underKey k) totals)
        (firstOccurrences (groupKeys totals)) /\
    map walletNumber sections = seq 1 (length sections) /\
    Forall (fun s => option_map signingMethod (hd_error (walletAccounts s))
                     = Some (headerSigningMethod s)) sections.
Proof.
  intros Hkeys.
  assert (Hall : Forall (fun k => inheritedName k = false) (groupKeys totals)).
  { eapply Forall_impl; [|exact Hkeys]. now intros k [Hk _]. }
  destruct (accountTotalsByType_ok totals Hall)
    as (groups & Hrun & Hget & Hks & Hvalues).
  unfold walletSections. rewrite Hrun. simpl.
  destruct (walletSectionsFrom_nonempty (JSObj.values groups) 0)
    as (sections & Hsec & Hacc & Hnum & Hhd).
  - apply Forall_forall. intros g Hg.
    rewrite Hvalues in Hg.
    apply in_map_iff in Hg. destruct Hg as (k & <- & Hk).
    assert (Hin : In k (JSObj.keys groups)) by (now rewrite Hks).
    intros Hf. revert Hin. apply JSObjKeys.get_None_iff.
    now rewrite Hget, Hf.
  - exists sections. split; [exact Hsec|]. split.
    + now rewrite Hacc, Hvalues.
    + split; [|exact Hhd].
      rewrite Hnum. simpl. f_equal.
      now rewrite <- Hacc, length_map.
Qed.

End SwitcherFacts.

Section SwitcherExamples.
#[local] Existing Instance pairTotals.

(** Two accounts of one keyring, a read-only account, a Ledger account and
    a keyring account without a keyring id: three wallets. *)
Example three_wallets :
  match walletSections someTotals with
  | inr sections =>
      map (fun s => (walletNumber s, length (walletAccounts s))) sections
  | inl _ => []
  end = [(1, 2); (2, 1); (3, 1)]%nat.
Proof. reflexivity. Qed.

Lemma walletSections_numbered_witness :
  exists sections,
    walletSections someTotals = inr sections /\
    map walletAccounts sections =
      map (fun k => filter (underKey k) someTotals)
        (firstOccurrences (groupKeys someTotals)) /\
    map walletNumber sections = seq 1 (length sections) /\
    Forall (fun s => option_map signingMethod (hd_error (walletAccounts s))
                     = Some (headerSigningMethod s)) sections.
Proof.
  apply (walletSections_numbered someTotals).
  repeat constructor.
Defined.

Lemma accountTotalsByType_groups_witness :
  (exists groups,
     accountTotalsByType someTotals = inr groups /\
     (forall k,
        JSObj.get k groups =
        match filter (underKey k) someTotals with
        | [] => None
        | group => Some group
        end) /\
     (forall k group, JSObj.get k groups = Some group -> group <> []) /\
     (forall t k group,
        groupKey t = None ->
        JSObj.get k groups = Some group -> ~ In t group)) /\
  accountTotalsByType inheritedTotals = inl TypeError.
Proof.
  split.
  - apply (proj1 (accountTotalsByType_groups someTotals)).
    repeat constructor.
  - apply (proj2 (accountTotalsByType_groups inheritedTotals)).
    apply Exists_cons_tl, Exists_cons_hd. reflexivity.
Defined.

(** A keyring whose id is the name of a method every object inherits: the
    accumulator has that method under the id, no array is assigned, and
    the sections are not built. *)
Example inherited_keyring_id :
  walletSections
    ((Some (KeyringSigning (Some "constructor")), Some "constructor")
     :: someTotals) =
  inl TypeError.
Proof. reflexivity. Qed.

End SwitcherExamples.

(** * Properties of [getBalances] *)

Section GetBalancesFacts.
Context {E : Externals} {T : TokenExternals}.

Lemma find_snoc {A : Type} (f : A -> bool) (l : list A) (x : A) :
  find f (l ++ [x]) =
  match find f l with
  | Some y => Some y
  | None => if f x then Some x else None
  end.
Proof.
  induction l as [|y l IH]; simpl; [reflexivity|].
  destruct (f y); [reflexivity|exact IH].
Qed.

Lemma fold_assetByAddress tokens : forall acc k,
  JSObj.get (toLowerCase k)
    (fold_left
       (fun acc asset =>
          JSObj.set (toLowerCase (contractAddressOf asset)) asset acc)
       tokens acc) =
  match lastTokenAt tokens k with
  | Some t => Some t
  | None => JSObj.get (toLowerCase k) acc
  end.
Proof.
  unfold lastTokenAt.
  induction tokens as [|t tokens IH]; intros acc k; simpl; [reflexivity|].
  rewrite IH, find_snoc.
  destruct (find _ (rev tokens)); [reflexivity|].
  rewrite JSObjFacts.get_set, String.eqb_sym.
  now destruct (String.eqb _ _).
Qed.

Lemma assetByAddress_get tokens k :
  JSObj.get (toLowerCase k) (assetByAddress tokens) = lastTokenAt tokens k.
Proof.
  unfold assetByAddress. rewrite fold_assetByAddress. simpl.
  now destruct (lastTokenAt tokens k).
Qed.

Lemma fold_concat {A B : Type} (f : nat -> A -> B) (l : list A) :
  forall acc,
    fold_left (fun acc x => acc ++ [f (length acc) x])%list l acc =
    (acc ++ mapFrom f (length acc) l)%list.
Proof.
  induction l as [|x l IH]; intros acc; simpl.
  - now rewrite app_nil_r.
  - rewrite IH, <- app_assoc, length_app. simpl.
    now rewrite Nat.add_1_r.
Qed.

Lemma mapFrom_ext {A B : Type} (f g : nat -> A -> B) (l : list A) :
  (forall i x, f i x = g i x) -> forall i, mapFrom f i l = mapFrom g i l.
Proof.
  intros Hfg. induction l as [|x l IH]; intros i; simpl; [reflexivity|].
  now rewrite Hfg, IH.
Qed.

Lemma mapFrom_length {A B : Type} (f : nat -> A -> B) (l : list A) :
  forall i, length (mapFrom f i l) = length l.
Proof.
  induction l as [|x l IH]; intros i; simpl; [reflexivity|]. now rewrite IH.
Qed.

(** X17: [getBalances] returns no balance, without asking the provider,
    when given no token; otherwise it fails as the provider fails, and from
    what the provider returns it builds one balance per entry, in order:
    with the amount of the entry, the address and network it was given (the
    address not normalized), the clock reading of its turn, and as asset
    the last of the tokens with the contract address of the entry up to
    case, [undefined] when there is none.  The provider is asked with the
    normalized address and contract addresses. *)
Theorem getBalances_per_entry
    (getTokenBalances : string -> list string -> JSError + list TokenBalance)
    (now : nat -> Z) (tokens : list SmartContractFungibleAsset)
    (address : HexString) (network : Network) :
  (tokens = [] ->
   getBalances getTokenBalances now tokens address network = inr []) /\
  (tokens <> [] ->
   getBalances getTokenBalances now tokens address network =
   match getTokenBalances (normalizeEVMAddress address)
           (map (fun t => normalizeEVMAddress (contractAddressOf t)) tokens)
   with
   | inl e => inl e
   | inr tokenBalances =>
       inr (mapFrom
              (fun i tokenDetail =>
                 {| fb_asset :=
                      lastTokenAt tokens (tb_contractAddress tokenDetail);
                    fb_amount := tb_amount tokenDetail;
                    fb_address := address;
                    fb_network := network;
                    fb_retrievedAt := now i;
                    fb_dataSource := "alchemy" |})
              0 tokenBalances)
   end) /\
  (forall balances,
     getBalances getTokenBalances now tokens address network = inr balances ->
     tokens = [] \/
     exists tokenBalances,
       getTokenBalances (normalizeEVMAddress address)
         (map (fun t => normalizeEVMAddress (contractAddressOf t)) tokens)
         = inr tokenBalances /\
       length balances = length tokenBalances).
Proof.
  assert (Hrun : tokens <> [] ->
    getBalances getTokenBalances now tokens address network =
    match getTokenBalances (normalizeEVMAddress address)
            (map (fun t => normalizeEVMAddress (contractAddressOf t)) tokens)
    with
    | inl e => inl e
    | inr tokenBalances =>
        inr (mapFrom
               (fun i tokenDetail =>
                  {| fb_asset :=
                       lastTokenAt tokens (tb_contractAddress tokenDetail);
                     fb_amount := tb_amount tokenDetail;
                     fb_address := address;
                     fb_network := network;
                     fb_retrievedAt := now i;
                     fb_dataSource := "alchemy" |})
               0 tokenBalances)
    end).
  { intros Hne. unfold getBalances.
    destruct tokens as [|t tokens]; [congruence|].
    cbn [length Nat.eqb].
    destruct (getTokenBalances _ _) as [e|tokenBalances]; [reflexivity|].
    cbn [andThen]. f_equal.
    rewrite (fold_concat
               (fun i tokenDetail =>
                  {| fb_asset :=
                       JSObj.get (toLowerCase (tb_contractAddress tokenDetail))
                         (assetByAddress (t :: tokens));
                     fb_amount := tb_amount tokenDetail;
                     fb_address := address;
                     fb_network := network;
                     fb_retrievedAt := now i;
                     fb_dataSource := "alchemy" |})).
    simpl. apply mapFrom_ext. intros i td.
    now rewrite assetByAddress_get. }
  split; [|split; [exact Hrun|]].
  - intros ->. reflexivity.
  - intros balances H. destruct tokens as [|t tokens]; [now left|]. right.
    rewrite Hrun in H by discriminate.
    destruct (getTokenBalances _ _) as [e|tokenBalances]; [discriminate|].
    injection H as <-. exists tokenBalances. split; [reflexivity|].
    apply mapFrom_length.
Qed.

End GetBalancesFacts.

(** * Properties of the render hooks *)

Lemma runs_useRunOnFirstRender_later (n : nat) :
  runs useRunOnFirstRender n false = (false, 0%nat).
Proof.
  induction n as [|n IH]; simpl; [reflexivity|]. now rewrite IH.
Qed.

Lemma runs_useSkipFirstRenderEffect_later (n : nat) :
  runs useSkipFirstRenderEffect n true = (true, n).
Proof.
  induction n as [|n IH]; simpl; [reflexivity|]. now rewrite IH.
Qed.

(** X18: over any number of renders of a component, at least one,
    [useRunOnFirstRender] calls its function exactly once; and over any
    number of runs of its effect, [useSkipFirstRenderEffect] calls its
    function on every run but the first. *)
Theorem hooks_first_render (n : nat) :
  runs useRunOnFirstRender (S n) true = (false, 1%nat) /\
  runs useSkipFirstRenderEffect (S n) false = (true, n).
Proof.
  split; simpl.
  - now rewrite runs_useRunOnFirstRender_later.
  - now rewrite runs_useSkipFirstRenderEffect_later.
Qed.

Section GetBalancesExamples.
#[local] Existing Instance hexExternals.
#[local] Existing Instance pairTokens.

(** Two tokens at one contract address up to case, and an entry of the
    provider for a contract that is no token: the later token is taken, and
    the asset of the unknown contract is [undefined]. *)
Example getBalances_run :
  getBalances
    (fun _ _ => inr [ {| tb_contractAddress := "0xDA"; tb_amount := 5 |};
                      {| tb_contractAddress := "0xee"; tb_amount := 1 |} ])
    (fun i => 1000 + Z.of_nat i)%Z
    [("DAI", "0xDa"); ("USDC", "0xCc"); ("DAI2", "0xda")]
    "0xAB" "mainnet" =
  inr [ {| fb_asset := Some ("DAI2", "0xda"); fb_amount := 5;
           fb_address := "0xAB"; fb_network := "mainnet";
           fb_retrievedAt := 1000; fb_dataSource := "alchemy" |};
        {| fb_asset := None; fb_amount := 1;
           fb_address := "0xAB"; fb_network := "mainnet";
           fb_retrievedAt := 1001; fb_dataSource := "alchemy" |} ].
Proof. reflexivity. Qed.

End GetBalancesExamples.

(** * Further properties of the ERC-20 log parser *)

Section LogParserFacts.
Context {L : AbiLibrary}.

Lemma transfersInOrder_addresses (logs : list EVMLog) :
  map tl_contractAddress (transfersInOrder logs) =
  map contractAddress (filter decodable logs).
Proof.
  induction logs as [|log logs IH]; simpl; [reflexivity|].
  unfold decodable at 1.
  destruct (decodedTransfer log) as [r|] eqn:Hd; simpl; [|exact IH].
  rewrite IH. f_equal.
  unfold decodedTransfer in Hd.
  destruct (decodeEventLog _ _ _ _) as [e|[[| |f] [| |t] [| |a]]];
    try discriminate.
  injection Hd as <-. reflexivity.
Qed.

Lemma transfersInOrder_length (logs : list EVMLog) :
  length (transfersInOrder logs) = length (filter decodable logs).
Proof.
  rewrite <- (length_map tl_contractAddress), transfersInOrder_addresses.
  apply length_map.
Qed.

(** X19: the transfers [parseLogsForERC20Transfers] returns carry the
    contract addresses of the logs that decode, in the order of the logs;
    there are as many as there are such logs, so none for no log, never
    more than the logs, and as many as the logs only when every log
    decodes. *)
Theorem parsed_transfers_of_decodable_logs (logs : list EVMLog) :
  exists transfers,
    parseLogsForERC20Transfers logs = inr transfers /\
    map tl_contractAddress transfers =
      map contractAddress (filter decodable logs) /\
    length transfers = length (filter decodable logs) /\
    (length transfers <= length logs)%nat /\
    (length transfers = length logs -> forallb decodable logs = true).
Proof.
  exists (transfersInOrder logs). split.
  - unfold parseLogsForERC20Transfers.
    rewrite (mapThrowing_total transferOfLog decodedTransfer logs
               transferOfLog_decoded).
    simpl. now rewrite filterDefined_decoded.
  - split; [apply transfersInOrder_addresses|].
    split; [apply transfersInOrder_length|].
    rewrite transfersInOrder_length. split; [apply filter_length_le|].
    clear. induction logs as [|log logs IH]; simpl; [reflexivity|].
    destruct (decodable log); simpl.
    + intros H. apply IH. lia.
    + intros H. pose proof (filter_length_le decodable logs). lia.
Qed.

End LogParserFacts.

(** * Batches of balance updates in sequence *)

Section BatchesCompose.
Context {E : Externals}.

(** X20: when none of its balances is of an asset with the symbol
    [__proto__], one batch of balance updates does what its two halves do as
    two dispatches in a row: the same accounts, the same recomputed
    portfolio and the same pool when both complete, and the same exception
    with the same pool otherwise. *)
Theorem balance_batches_compose
    (st : AccountState) (b1 b2 : list AccountBalance) (pool : Pool) :
  Forall (fun u => symbol (asset (assetAmount u)) <> "__proto__")
    (b1 ++ b2) ->
  updateAccountBalance st (b1 ++ b2) pool =
  (st1 <- updateAccountBalance st b1 ;; updateAccountBalance st1 b2) pool.
Proof.
  intros _.
  unfold updateAccountBalance.
  unfold bind at 1. rewrite forEachBalance_app.
  unfold bind.
  destruct (forEachBalance (accountsData st) b1 pool) as [p1 [e|ad1]];
    [reflexivity|].
  cbn [ret accountsData withAssets withAccountsData].
  destruct (forEachBalance ad1 b2 p1) as [p2 [e|ad2]]; reflexivity.
Qed.

End BatchesCompose.

Section BatchesComposeExamples.
#[local] Existing Instance hexExternals.

Lemma balance_batches_compose_witness :
  updateAccountBalance twoLoading
    ([balanceFor "0xab" "ETH" 5; balanceFor "0xcd" "DAI" 1]
     ++ [balanceFor "0xab" "ETH" 6; balanceFor "0xab" "DAI" 2]) freshPool =
  (st1 <- updateAccountBalance twoLoading
            [balanceFor "0xab" "ETH" 5; balanceFor "0xcd" "DAI" 1] ;;
   updateAccountBalance st1
     [balanceFor "0xab" "ETH" 6; balanceFor "0xab" "DAI" 2]) freshPool.
Proof.
  apply (balance_batches_compose twoLoading
           [balanceFor "0xab" "ETH" 5; balanceFor "0xcd" "DAI" 1]
           [balanceFor "0xab" "ETH" 6; balanceFor "0xab" "DAI" 2] freshPool).
  repeat constructor; discriminate.
Defined.

End BatchesComposeExamples.
